(** * AfterHeal: missed-dose detection and alert escalation

    A shallow embedding of [scripts/notifications.js].  The file under
    [src/] holds two variants of the engine: the current one (v3, with
    the SMS gateway, the audit trail, primary contacts and caregiver
    alerts) and the earlier one (simulated SMS only).  The current
    variant is embedded at top level, the earlier one in [Module Legacy].

    Conventions.
    - A JavaScript string is a [string]; an [ascii] is read as the code
      unit of the same number (code units below 256).
    - An instant is its number of milliseconds since the epoch, a [Z];
      [toISOString] is a bijection on valid instants and is not spelled
      out.  A stored date field is a [jsdate].
    - [localStorage] is a record with one slot per storage key.
    - [uuid()] and [new Date()] read the oracles [rand] and [clock]; the
      world counts the reads.
    - DOM rendering, toasts and console output are not part of the state
      and are left out. *)

From Stdlib Require Import ZArith String Ascii List Bool Lia.
From stdpp Require Import base option list gmap strings.
Import ListNotations.

Local Open Scope string_scope.
Local Open Scope Z_scope.

(** ** JavaScript values *)

(** A string is truthy unless it is empty. *)
Definition truthy (s : string) : bool := negb (String.eqb s "").

(** An optional string field ([undefined] or [null] when absent). *)
Definition truthy_opt (o : option string) : bool :=
  match o with Some s => truthy s | None => false end.

(** [x || dflt] on an optional string. *)
Definition or_else (o : option string) (dflt : string) : string :=
  match o with
  | Some s => if truthy s then s else dflt
  | None => dflt
  end.

(** A date field as stored: absent (null, undefined or the empty string),
    a non-empty string that [new Date] cannot parse, or an instant. *)
Inductive jsdate : Type :=
  | NoDate
  | InvalidDate
  | Instant (ms : Z).

Definition truthy_date (d : jsdate) : bool :=
  match d with NoDate => false | _ => true end.

(** [new Date(d).getTime()] on a truthy field; [None] is NaN. *)
Definition getTime (d : jsdate) : option Z :=
  match d with Instant ms => Some ms | _ => None end.

(** [a - b], [x < y] and [x >= y] on numbers that may be NaN: every
    comparison with NaN is false. *)
Definition num_sub (a : Z) (b : option Z) : option Z :=
  match b with Some y => Some (a - y) | None => None end.

Definition num_lt (x : option Z) (y : Z) : bool :=
  match x with Some v => v <? y | None => false end.

Definition num_ge (x : option Z) (y : Z) : bool :=
  match x with Some v => y <=? v | None => false end.

(** ** Strings: trim, character classes, the phone pattern *)

Definition code (c : ascii) : N := N_of_ascii c.

(** [\d] *)
Definition is_digit (c : ascii) : bool :=
  ((48 <=? code c) && (code c <=? 57))%N.

(** [\s], and what [trim] strips: tab, line feed, vertical tab, form
    feed, carriage return, space, no-break space. *)
Definition is_space (c : ascii) : bool :=
  (((9 <=? code c) && (code c <=? 13)) || (code c =? 32) || (code c =? 160))%N.

Fixpoint trimStart (s : list ascii) : list ascii :=
  match s with
  | c :: r => if is_space c then trimStart r else s
  | [] => []
  end.

Definition trimEnd (s : list ascii) : list ascii := rev (trimStart (rev s)).

Definition trim_chars (s : list ascii) : list ascii := trimEnd (trimStart s).

Definition trim (s : string) : string :=
  string_of_list_ascii (trim_chars (list_ascii_of_string s)).

(** A fragment of regular expressions large enough for the phone
    pattern, matched by backtracking with a continuation, greedy first,
    as the JavaScript engine does. *)
Inductive regex : Type :=
  | RChar (c : ascii)
  | RClass (p : ascii -> bool)
  | RSeq (r1 r2 : regex)
  | ROpt (r : regex)
  | RRepeat (r : regex) (lo hi : nat).

Section Matcher.
Variable step : list ascii -> (list ascii -> bool) -> bool.

(** [lo] compulsory iterations. *)
Fixpoint rep_exact (lo : nat) (s : list ascii) (k : list ascii -> bool) : bool :=
  match lo with
  | O => k s
  | S n => step s (fun s' => rep_exact n s' k)
  end.

(** Up to [extra] further iterations, the longest first. *)
Fixpoint rep_upto (extra : nat) (s : list ascii) (k : list ascii -> bool) : bool :=
  match extra with
  | O => k s
  | S n => step s (fun s' => rep_upto n s' k) || k s
  end.
End Matcher.

Fixpoint rmatch (r : regex) (s : list ascii) (k : list ascii -> bool) : bool :=
  match r with
  | RChar c =>
      match s with
      | x :: s' => if Ascii.eqb x c then k s' else false
      | [] => false
      end
  | RClass p =>
      match s with
      | x :: s' => if p x then k s' else false
      | [] => false
      end
  | RSeq r1 r2 => rmatch r1 s (fun s' => rmatch r2 s' k)
  | ROpt r1 => rmatch r1 s k || k s
  | RRepeat r1 lo hi =>
      rep_exact (rmatch r1) lo s (fun s' => rep_upto (rmatch r1) (hi - lo) s' k)
  end.

(** [/^r$/.test(s)] *)
Definition regex_test (r : regex) (s : string) : bool :=
  rmatch r (list_ascii_of_string s)
    (fun rest => match rest with [] => true | _ => false end).

(** [[\d\s\-().]] *)
Definition phone_class (c : ascii) : bool :=
  is_digit c || is_space c || Ascii.eqb c "-" || Ascii.eqb c "("
  || Ascii.eqb c ")" || Ascii.eqb c ".".

(** [/^\+?[\d\s\-().]{7,20}$/] *)
Definition phone_re : regex :=
  RSeq (ROpt (RChar "+")) (RRepeat (RClass phone_class) 7 20).

(** [s.replace(/\D/g, '')] *)
Definition digits_of (s : string) : list ascii :=
  List.filter is_digit (list_ascii_of_string s).

Definition validatePhone (phone : string) : bool :=
  let cleaned := trim phone in
  if negb (regex_test phone_re cleaned) then false
  else
    let digits := digits_of cleaned in
    (7 <=? length digits)%nat && (length digits <=? 15)%nat.

(** [esc]: the three HTML replacements, [&] first. *)
Fixpoint esc (s : string) : string :=
  match s with
  | EmptyString => EmptyString
  | String c r =>
      if Ascii.eqb c "&" then "&amp;" ++ esc r
      else if Ascii.eqb c "<" then "&lt;" ++ esc r
      else if Ascii.eqb c ">" then "&gt;" ++ esc r
      else String c (esc r)
  end.

(** The phone shape in the words of the specification: an optional
    leading plus sign, then 7 to 20 characters drawn from digits, space,
    dash, parentheses and period, with 7 to 15 digits among them.  The
    class is a parameter so that the same shape can be read with the
    space character alone or with every white-space character. *)
Definition spec_char_space_only (c : ascii) : bool :=
  is_digit c || Ascii.eqb c " " || Ascii.eqb c "-" || Ascii.eqb c "("
  || Ascii.eqb c ")" || Ascii.eqb c ".".

Definition spec_phone_shape (cls : ascii -> bool) (s : list ascii) : Prop :=
  exists body : list ascii,
    (s = body \/ s = "+"%char :: body) /\
    (7 <= length body <= 20)%nat /\
    Forall (fun c => cls c = true) body /\
    (7 <= length (List.filter is_digit s) <= 15)%nat.

(** [toLowerCase] on code units below 256: the Latin capitals and the
    accented capitals U+00C0 to U+00DE, the multiplication sign apart. *)
Definition lower_char (c : ascii) : ascii :=
  if (((65 <=? code c) && (code c <=? 90))
      || ((192 <=? code c) && (code c <=? 222) && negb (code c =? 215)))%N
  then ascii_of_N (code c + 32)
  else c.

Fixpoint toLowerCase (s : string) : string :=
  match s with
  | EmptyString => EmptyString
  | String c r => String (lower_char c) (toLowerCase r)
  end.

(** [s.includes(sub)] *)
Fixpoint includes (s sub : string) : bool :=
  String.prefix sub s
  || match s with
     | EmptyString => false
     | String _ r => includes r sub
     end.

(** [s.replace(/c/g, rep)] for a single character [c]. *)
Fixpoint replaceAll (c : ascii) (rep s : string) : string :=
  match s with
  | EmptyString => EmptyString
  | String a r =>
      if Ascii.eqb a c then rep ++ replaceAll c rep r else String a (replaceAll c rep r)
  end.

(** [esc] as the source chains it: three replacements, one after the
    other. *)
Definition esc_chained (s : string) : string :=
  replaceAll ">" "&gt;" (replaceAll "<" "&lt;" (replaceAll "&" "&amp;" s)).

(** ** Data model: the records kept in localStorage *)

Record user : Type := mkUser {
  u_id : string;
  u_name : string;
  u_email : string;
  u_phone : option string;
  u_role : string }.

Record medication : Type := mkMedication {
  m_id : string;
  m_patientId : string;
  m_name : string;
  m_dosage : string }.

Record dose : Type := mkDose {
  d_id : string;
  d_medId : string;
  d_patientId : string;
  d_scheduledTime : jsdate;
  d_takenAt : option Z }.

Record contact : Type := mkContact {
  c_id : string;
  c_patientId : string;
  c_name : string;
  c_relation : string;
  c_phone : string;
  c_isPrimary : bool;
  c_notifiedAt : option Z;
  c_createdAt : option Z;
  c_updatedAt : option Z }.

(** [NT] *)
Inductive notif_type : Type := MISSED_DOSE | SMS_SENT | CAREGIVER_ALERT | SYSTEM.

Record notification : Type := mkNotification {
  n_id : string;
  n_patientId : string;
  n_doseId : option string;
  n_type : notif_type;
  n_message : string;
  n_timestamp : Z;
  n_read : bool;
  n_contactId : option string;
  n_caregiverId : option string }.

(** [STATUS] *)
Inductive delivery_status : Type := SIMULATED | SENT | FAILED | PENDING.

Record alert_log : Type := mkAlertLog {
  l_id : string;
  l_patientId : string;
  l_doseId : string;
  l_medName : string;
  l_medDosage : string;
  l_scheduledTime : jsdate;
  l_contactId : string;
  l_contactName : string;
  l_contactPhone : string;
  l_contactRole : string;
  l_type : string;
  l_smsMessage : string;
  l_deliveryStatus : delivery_status;
  l_provider : string;
  l_triggeredAt : Z;
  l_acknowledgedAt : option Z }.

(** Modelled from the spec: the key table of [auth.js] under [src/] has
    no [ALERT_LOGS] and no [CAREGIVER_ASSIGNMENT] entry (the table that
    goes with the current engine is not among the sources).  The
    specification keeps the Audit Log and the CaregiverAssignment as
    stores of their own, so each has its own slot here. *)
Record store : Type := mkStore {
  ah_users : list user;
  ah_medications : list medication;
  ah_doses : list dose;
  ah_emergency_contacts : list contact;
  ah_notifications : list notification;
  ah_alert_logs : list alert_log;
  ah_caregiver_assignment : gmap string string }.

(** ** The gateway's messages *)

(** The [meta] argument of [send]; an absent property is [None]. *)
Record send_meta : Type := mkMeta {
  meta_patientId : option string;
  meta_doseId : option string;
  meta_medName : option string;
  meta_medDosage : option string;
  meta_scheduledTime : jsdate;
  meta_contactId : option string;
  meta_contactName : option string;
  meta_contactRole : option string;
  meta_type : option string }.

(** [meta = {}] *)
Definition empty_meta : send_meta :=
  mkMeta None None None None NoDate None None None None.

Record send_result : Type := mkResult {
  r_ok : bool;
  r_status : delivery_status;
  r_provider : string;
  r_httpStatus : option Z;
  r_error : option string }.

(** What the awaited transport does in a provider mode.  [Responded ok
    http]: a response arrived; [ok] is [response.ok] under twilio and
    [data.return === true] under fast2sms.  [Threw msg]: the [try] block
    raised (the request failed, or the reply did not parse). *)
Inductive transport : Type :=
  | Responded (ok : bool) (http : Z)
  | Threw (msg : string).

(** The [.then] callbacks registered by the detector. *)
Inductive callback : Type :=
  | NotifyContact (contactId : string) (nowIso : Z)
  | LogCaregiver.

(** Work the event loop still owes: a [send] suspended at its [await]
    (with the branch it took and the callback waiting on its promise),
    or a callback whose promise has settled. *)
Inductive task : Type :=
  | InFlight (branch : string) (to body : string) (meta : send_meta) (cb : option callback)
  | Reaction (cb : callback) (res : send_result).

(** ** The world: storage, gateway mode, oracle positions, event loop *)

Record world : Type := mkWorld {
  storage : store;
  _mode : string;
  draws : nat;
  ticks : nat;
  pending : list task }.

Definition with_storage (f : store -> store) (w : world) : world :=
  mkWorld (f (storage w)) (_mode w) (draws w) (ticks w) (pending w).

Definition set_emergency_contacts (v : list contact) (s : store) : store :=
  mkStore (ah_users s) (ah_medications s) (ah_doses s) v
          (ah_notifications s) (ah_alert_logs s) (ah_caregiver_assignment s).

Definition set_notifications (v : list notification) (s : store) : store :=
  mkStore (ah_users s) (ah_medications s) (ah_doses s) (ah_emergency_contacts s)
          v (ah_alert_logs s) (ah_caregiver_assignment s).

Definition set_alert_logs (v : list alert_log) (s : store) : store :=
  mkStore (ah_users s) (ah_medications s) (ah_doses s) (ah_emergency_contacts s)
          (ah_notifications s) v (ah_caregiver_assignment s).


(** Computations over the world. *)
Definition M (A : Type) : Type := world -> A * world.

Definition ret {A : Type} (a : A) : M A := fun w => (a, w).

Definition bind {A B : Type} (m : M A) (k : A -> M B) : M B :=
  fun w => let (a, w') := m w in k a w'.

Notation "'let*' x ':=' m 'in' k" := (bind m (fun x => k))
  (at level 10, x name, m at level 100, k at level 200).

Definition getStore : M store := fun w => (storage w, w).

Definition getMode : M string := fun w => (_mode w, w).

Definition modifyStore (f : store -> store) : M unit :=
  fun w => (tt, with_storage f w).

Definition enqueue (t : task) : M unit :=
  fun w => (tt, mkWorld (storage w) (_mode w) (draws w) (ticks w) (pending w ++ [t])%list).

(** [setMode]; the provider configuration only shapes the request, which
    is the transport's business. *)
Definition setMode (mode : string) : M unit :=
  fun w => (tt, mkWorld (storage w) mode (draws w) (ticks w) (pending w)).

Fixpoint mapM {A B : Type} (f : A -> M B) (l : list A) : M (list B) :=
  match l with
  | [] => ret []
  | x :: r => let* y := f x in let* ys := mapM f r in ret (y :: ys)
  end.

(** [forEach] with a counter the body may increment. *)
Fixpoint forEach_count {A : Type} (f : A -> M nat) (l : list A) : M nat :=
  match l with
  | [] => ret O
  | x :: r => let* n := f x in let* m := forEach_count f r in ret (n + m)%nat
  end.

(** [MISSED_THRESHOLD_MINS * 60 * 1000] *)
Definition MISSED_THRESHOLD_MINS : Z := 30.
Definition thresholdMs : Z := MISSED_THRESHOLD_MINS * 60 * 1000.

Definition eqs (a b : string) : bool := String.eqb a b.

(** ** What both variants of the detector share *)

(** The doses [allDoses] keeps: of this patient, not taken, with a
    scheduled time. *)
Definition eligible (patientId : string) (d : dose) : bool :=
  eqs (d_patientId d) patientId
  && negb (bool_decide (is_Some (d_takenAt d)))
  && truthy_date (d_scheduledTime d).

(** [new Set(notifs.filter(n => n.doseId).map(n => n.doseId))] *)
Definition already_notified (notifs : list notification) : gset string :=
  list_to_set
    (List.map (fun n => default "" (n_doseId n))
              (List.filter (fun n => truthy_opt (n_doseId n)) notifs)).

(** [smsNotifs] followed by [caregiverNotif] if there is one. *)
Definition maybe_list {A : Type} (o : option A) : list A :=
  match o with Some a => [a] | None => [] end.

(** ** The earlier variant of the engine (second half of the file) *)

Module Legacy.
Section Engine.

Variable rand : nat -> string.
Variable clock : nat -> Z.
Variable fmtTime : jsdate -> string.

Definition uuid : M string :=
  fun w => ("notif_" ++ rand (draws w),
            mkWorld (storage w) (_mode w) (S (draws w)) (ticks w) (pending w)).

Definition new_Date : M Z :=
  fun w => (clock (ticks w),
            mkWorld (storage w) (_mode w) (draws w) (S (ticks w)) (pending w)).

(** [forEach] whose body pushes onto [newNotifications]: the result is
    what the body pushed. *)
Fixpoint forEach_push {A B : Type} (f : A -> M (list B)) (l : list A) : M (list B) :=
  match l with
  | [] => ret []
  | x :: r =>
      let* ys := f x in
      let* zs := forEach_push f r in
      ret (ys ++ zs)%list
  end.

(** The body of [allDoses.forEach]. *)
Definition scan_dose (patientId : string) (now : Z) (patient : option user)
           (meds : list medication) (alreadyNotified : gset string) (dose : dose)
  : M (list notification) :=
  let scheduledMs := getTime (d_scheduledTime dose) in
  let overdueMs := num_sub now scheduledMs in
  if num_ge overdueMs thresholdMs && negb (bool_decide (d_id dose ∈ alreadyNotified))
  then
    match List.find (fun m => eqs (m_id m) (d_medId dose)) meds with
    | None => ret []
    | Some med =>
        let* id0 := uuid in
        let missedNotif :=
          mkNotification id0 patientId (Some (d_id dose)) MISSED_DOSE
            ("Missed dose: " ++ m_name med ++ " (" ++ m_dosage med
             ++ ") was due at " ++ fmtTime (d_scheduledTime dose) ++ ".")
            now false None None in
        let* s := getStore in
        let contacts :=
          List.filter (fun c => eqs (c_patientId c) patientId)
                      (ah_emergency_contacts s) in
        let* smsNotifs :=
          mapM (fun contact : contact =>
            let* id := uuid in
            ret (mkNotification id patientId (Some (d_id dose)) SMS_SENT
                   ("📱 Simulated SMS to " ++ esc (c_name contact) ++ " ("
                    ++ esc (c_relation contact) ++ ") at " ++ esc (c_phone contact)
                    ++ ": " ++ String (ascii_of_nat 34)
                         (match patient with
                          | Some p => u_name p
                          | None => "Patient"
                          end
                          ++ " missed " ++ m_name med ++ " dose due at "
                          ++ fmtTime (d_scheduledTime dose) ++ "."
                          ++ String (ascii_of_nat 34) ""))
                   now false (Some (c_id contact)) None))
            contacts in
        ret (missedNotif :: smsNotifs)
    end
  else ret [].

Definition detectMissedDoses (patientId : string) : M nat :=
  let* now := new_Date in
  let* s := getStore in
  let allDoses := List.filter (eligible patientId) (ah_doses s) in
  let alreadyNotified := already_notified (ah_notifications s) in
  let meds := ah_medications s in
  let users := ah_users s in
  let patient := List.find (fun u => eqs (u_id u) patientId) users in
  let* newNotifications :=
    forEach_push (scan_dose patientId now patient meds alreadyNotified) allDoses in
  let* _ :=
    if (0 <? length newNotifications)%nat then
      modifyStore (fun s =>
        set_notifications (ah_notifications s ++ newNotifications)%list s)
    else ret tt in
  ret (length newNotifications).

(** [addContact] of the earlier engine: no trimming, no validation, no
    primary flag. *)
Definition addContact (patientId name relation phone : string) : M bool :=
  if negb (truthy name) || negb (truthy phone) then ret false
  else
    let* s := getStore in
    let contacts := ah_emergency_contacts s in
    let* id := uuid in
    let* _ :=
      modifyStore (set_emergency_contacts
        (contacts ++ [mkContact id patientId name
                        (if truthy relation then relation else "Emergency Contact")
                        phone false None None None])%list) in
    ret true.

End Engine.
End Legacy.

(** ** Accounts and the session (auth.js) *)

Module Auth.

Record account : Type := mkAccount {
  a_id : string;
  a_name : string;
  a_email : string;
  a_password : string;
  a_role : string }.

Record session : Type := mkSession {
  s_userId : string;
  s_role : string;
  s_name : string }.

(** The user store, the session entry and the position of the random
    oracle. *)
Record state : Type := mkState {
  users : list account;
  current : option session;
  drawn : nat }.

Record outcome : Type := mkOutcome {
  out_ok : bool;
  out_user : option account;
  out_error : option string }.

Section Ops.

Variable rand : nat -> string.

Definition registerUser (name email password role : string) (st : state)
  : outcome * state :=
  match List.find (fun u => eqs (toLowerCase (a_email u)) (toLowerCase email))
                  (users st) with
  | Some _ =>
      (mkOutcome false None (Some "An account with this email already exists."), st)
  | None =>
      let newUser :=
        mkAccount ("id_" ++ rand (drawn st)) (trim name) (toLowerCase (trim email))
                  password role in
      (mkOutcome true (Some newUser) None,
       mkState (users st ++ [newUser])%list (current st) (S (drawn st)))
  end.

Definition loginUser (email password : string) (st : state) : outcome * state :=
  match List.find (fun u => eqs (toLowerCase (a_email u)) (toLowerCase (trim email))
                            && eqs (a_password u) password)
                  (users st) with
  | None =>
      (mkOutcome false None (Some "Invalid email or password. Please try again."), st)
  | Some user =>
      (mkOutcome true (Some user) None,
       mkState (users st) (Some (mkSession (a_id user) (a_role user) (a_name user)))
               (drawn st))
  end.

Definition logout (st : state) : state := mkState (users st) None (drawn st).

(** [requireAuth]: the session if the guard lets the page load, [None]
    if it redirects. *)
Definition requireAuth (expectedRole : option string) (st : state) : option session :=
  match current st with
  | None => None
  | Some s =>
      if truthy_opt expectedRole && negb (eqs (s_role s) (default "" expectedRole))
      then None
      else Some s
  end.

End Ops.

(** The address an account is known by: lower case. *)
Definition known_as (u : account) : string := toLowerCase (a_email u).

End Auth.

Section Engine.

(** The n-th random suffix [uuid] draws, the n-th reading of the
    clock, and the locale's rendering of a date ([toLocaleString]). *)
Variable rand : nat -> string.
Variable clock : nat -> Z.
Variable fmtTime : jsdate -> string.

Definition uuid : M string :=
  fun w => ("id_" ++ rand (draws w),
            mkWorld (storage w) (_mode w) (S (draws w)) (ticks w) (pending w)).

Definition new_Date : M Z :=
  fun w => (clock (ticks w),
            mkWorld (storage w) (_mode w) (draws w) (S (ticks w)) (pending w)).

(** [SMS_TEMPLATE] *)
Definition SMS_TEMPLATE (patientName medName dosage dueTime : string) : string :=
  "ALERT: " ++ patientName ++ " enrolled in AfterHeal missed a dose of "
  ++ medName ++ " " ++ dosage ++ " scheduled for " ++ dueTime
  ++ ". Immediate attention may be required. – AfterHeal System".

(** *** Section 3: the SMS gateway *)

Definition pending_result (mode : string) : send_result :=
  mkResult false PENDING mode None None.

Definition simulated_result : send_result :=
  mkResult true SIMULATED "simulation" None None.

Definition twilio_result (ok : bool) (http : Z) : send_result :=
  mkResult ok (if ok then SENT else FAILED) "twilio" (Some http) None.

Definition fast2sms_result (ok : bool) : send_result :=
  mkResult ok (if ok then SENT else FAILED) "fast2sms" None None.

(** The [catch] block. *)
Definition caught_result (mode msg : string) : send_result :=
  mkResult false FAILED mode None (Some msg).

(** "Log to Alert Audit Trail": the tail of [send]. *)
Definition log_attempt (to body : string) (meta : send_meta) (result : send_result)
  : M unit :=
  let* id := uuid in
  let* triggeredAt := new_Date in
  let logEntry :=
    mkAlertLog id
      (or_else (meta_patientId meta) "")
      (or_else (meta_doseId meta) "")
      (or_else (meta_medName meta) "")
      (or_else (meta_medDosage meta) "")
      (meta_scheduledTime meta)
      (or_else (meta_contactId meta) "")
      (or_else (meta_contactName meta) "")
      to
      (or_else (meta_contactRole meta) "")
      (or_else (meta_type meta) "emergency_contact")
      body
      (r_status result)
      (r_provider result)
      triggeredAt
      None in
  modifyStore (fun s => set_alert_logs (logEntry :: ah_alert_logs s) s).

(** How far a call of [send] gets before it first yields. *)
Inductive send_progress : Type :=
  | Settled (r : send_result)
  | Awaiting (branch : string).

(** [send] up to its first [await]: the simulation branch and the
    fall-through for an unknown mode have none and run to the end. *)
Definition send_start (to body : string) (meta : send_meta) : M send_progress :=
  let* mode := getMode in
  if eqs mode "simulation" then
    let result := simulated_result in
    let* _ := log_attempt to body meta result in
    ret (Settled result)
  else if eqs mode "twilio" then ret (Awaiting "twilio")
  else if eqs mode "fast2sms" then ret (Awaiting "fast2sms")
  else
    let result := pending_result mode in
    let* _ := log_attempt to body meta result in
    ret (Settled result).

(** [send] from the [await] on, once the transport has answered. *)
Definition send_finish (branch : string) (o : transport)
           (to body : string) (meta : send_meta) : M send_result :=
  let* mode := getMode in
  let result :=
    match o with
    | Responded ok http =>
        if eqs branch "twilio" then twilio_result ok http else fast2sms_result ok
    | Threw msg => caught_result mode msg
    end in
  let* _ := log_attempt to body meta result in
  ret result.

(** One whole call of [send], given what the transport does if asked. *)
Definition send (o : transport) (to body : string) (meta : send_meta)
  : M send_result :=
  let* p := send_start to body meta in
  match p with
  | Settled r => ret r
  | Awaiting branch => send_finish branch o to body meta
  end.

(** [SMSGateway.send(...).then(cb)] as the detector calls it: the
    callback is queued at once if the promise is already settled. *)
Definition send_then (to body : string) (meta : send_meta) (cb : callback) : M unit :=
  let* p := send_start to body meta in
  match p with
  | Settled r => enqueue (Reaction cb r)
  | Awaiting branch => enqueue (InFlight branch to body meta (Some cb))
  end.

(** The body of a [.then] callback. *)
Definition run_callback (cb : callback) : M unit :=
  match cb with
  | NotifyContact contactId nowIso =>
      let* s := getStore in
      let ecs := ah_emergency_contacts s in
      match list_find (fun c => c_id c = contactId) ecs with
      | Some (idx, c) =>
          modifyStore (set_emergency_contacts
            (<[idx := mkContact (c_id c) (c_patientId c) (c_name c) (c_relation c)
                        (c_phone c) (c_isPrimary c) (Some nowIso)
                        (c_createdAt c) (c_updatedAt c)]> ecs))
      | None => ret tt
      end
  | LogCaregiver => ret tt
  end.

Definition run_task (o : transport) (t : task) : M unit :=
  match t with
  | InFlight branch to body meta cb =>
      let* r := send_finish branch o to body meta in
      match cb with
      | Some c => enqueue (Reaction c r)
      | None => ret tt
      end
  | Reaction cb _ => run_callback cb
  end.

Definition set_pending (q : list task) (w : world) : world :=
  mkWorld (storage w) (_mode w) (draws w) (ticks w) q.

(** One turn of the event loop: any owed task may be the next to run,
    and a transport may answer in any way. *)
Inductive step : world -> world -> Prop :=
  | step_task (w : world) (pre post : list task) (t : task) (o : transport) :
      pending w = (pre ++ t :: post)%list ->
      step w (snd (run_task o t (set_pending (pre ++ post)%list w))).

Inductive steps : world -> world -> Prop :=
  | steps_refl (w : world) : steps w w
  | steps_cons (w1 w2 w3 : world) : step w1 w2 -> steps w2 w3 -> steps w1 w3.

(** The event loop run first-in first-out, every transport answering
    [net]; [fuel] bounds the number of turns. *)
Fixpoint drain (net : transport) (fuel : nat) (w : world) : world :=
  match fuel with
  | O => w
  | S n =>
      match pending w with
      | [] => w
      | t :: q => drain net n (snd (run_task net t (set_pending q w)))
      end
  end.

(** *** Section 4: the missed-dose detection engine *)

(** The body of [allDoses.forEach]: one alert cycle, unless the dose is
    skipped.  The result is the increment of [newCount]. *)
Definition alert_cycle (patientId : string) (now : Z) (patient : user)
           (meds : list medication) (contacts : list contact)
           (caregiverId : option string) (caregiver : option user)
           (alreadyNotified : gset string) (dose : dose) : M nat :=
  let overdueMs := num_sub now (getTime (d_scheduledTime dose)) in
  if num_lt overdueMs thresholdMs || bool_decide (d_id dose ∈ alreadyNotified)
  then ret O
  else
    match List.find (fun m => eqs (m_id m) (d_medId dose)) meds with
    | None => ret O
    | Some med =>
        let dueStr := fmtTime (d_scheduledTime dose) in
        let smsBody := SMS_TEMPLATE (u_name patient) (m_name med) (m_dosage med) dueStr in
        let nowIso := now in
        let* id0 := uuid in
        let missedNotif :=
          mkNotification id0 patientId (Some (d_id dose)) MISSED_DOSE
            ("⚠️ Missed dose: " ++ m_name med ++ " (" ++ m_dosage med
             ++ ") was due at " ++ dueStr
             ++ ". Emergency contacts & caregiver notified.")
            nowIso false None None in
        let* smsNotifs :=
          mapM (fun contact : contact =>
            let* _ :=
              send_then (c_phone contact) smsBody
                (mkMeta (Some patientId) (Some (d_id dose))
                   (Some (m_name med)) (Some (m_dosage med))
                   (d_scheduledTime dose)
                   (Some (c_id contact)) (Some (c_name contact))
                   (Some (or_else (Some (c_relation contact)) "Emergency Contact"))
                   (Some "emergency_contact"))
                (NotifyContact (c_id contact) nowIso) in
            let* id := uuid in
            ret (mkNotification id patientId (Some (d_id dose)) SMS_SENT
                   ("📱 SMS sent to " ++ c_name contact ++ " ("
                    ++ or_else (Some (c_relation contact)) "Emergency Contact"
                    ++ ") at " ++ c_phone contact
                    ++ (if c_isPrimary contact then " ★ Primary" else "") ++ ".")
                   nowIso false (Some (c_id contact)) None))
            contacts in
        let* caregiverNotif :=
          match caregiver with
          | Some cg =>
              let* _ :=
                send_then (or_else (u_phone cg) (u_email cg)) smsBody
                  (mkMeta (Some patientId) (Some (d_id dose))
                     (Some (m_name med)) (Some (m_dosage med))
                     (d_scheduledTime dose)
                     (Some (u_id cg)) (Some (u_name cg))
                     (Some "Assigned Caregiver") (Some "caregiver"))
                  LogCaregiver in
              let* id := uuid in
              ret (Some (mkNotification id patientId (Some (d_id dose)) CAREGIVER_ALERT
                     ("🏥 Caregiver " ++ u_name cg
                      ++ " has been automatically notified about the missed dose of "
                      ++ m_name med ++ ".")
                     nowIso false None caregiverId))
          | None => ret None
          end in
        let toAdd := (missedNotif :: smsNotifs ++ maybe_list caregiverNotif)%list in
        let* _ := modifyStore (fun s =>
                    set_notifications (ah_notifications s ++ toAdd)%list s) in
        ret 1%nat
    end.

Definition detectMissedDoses (patientId : string) : M nat :=
  let* now := new_Date in
  let* s := getStore in
  let allDoses := List.filter (eligible patientId) (ah_doses s) in
  let alreadyNotified := already_notified (ah_notifications s) in
  let meds := ah_medications s in
  let users := ah_users s in
  match List.find (fun u => eqs (u_id u) patientId) users with
  | None => ret O
  | Some patient =>
      let contacts :=
        List.filter (fun c => eqs (c_patientId c) patientId) (ah_emergency_contacts s) in
      let caregiverId := ah_caregiver_assignment s !! patientId in
      let caregiver :=
        match caregiverId with
        | Some cid =>
            if truthy cid then List.find (fun u => eqs (u_id u) cid) users else None
        | None => None
        end in
      forEach_count
        (alert_cycle patientId now patient meds contacts caregiverId caregiver
           alreadyNotified)
        allDoses
  end.

(** *** Section 5: emergency contacts *)

Record op_result : Type := mkOp { ok : bool; error : option string }.

Definition set_isPrimary (b : bool) (c : contact) : contact :=
  mkContact (c_id c) (c_patientId c) (c_name c) (c_relation c) (c_phone c) b
            (c_notifiedAt c) (c_createdAt c) (c_updatedAt c).

Definition addContact (patientId name relation phone : string) (isPrimary : bool)
  : M op_result :=
  if negb (truthy (trim name)) || negb (truthy (trim phone)) then
    ret (mkOp false (Some "Name and phone number are required."))
  else if negb (validatePhone phone) then
    ret (mkOp false (Some "Invalid phone format. Use: +1-555-0101 or +919876543210"))
  else
    let* s := getStore in
    let contacts := ah_emergency_contacts s in
    let updated :=
      if isPrimary then
        List.map (fun c => if eqs (c_patientId c) patientId
                           then set_isPrimary false c else c) contacts
      else contacts in
    let* id := uuid in
    let* createdAt := new_Date in
    let updated :=
      (updated ++ [mkContact id patientId (trim name)
                     (if truthy (trim relation) then trim relation
                      else "Emergency Contact")
                     (trim phone) isPrimary None (Some createdAt) None])%list in
    let* _ := modifyStore (set_emergency_contacts updated) in
    ret (mkOp true None).

(** The [fields] argument of [updateContact]: any subset of a
    contact's properties. *)
Record contact_fields : Type := mkFields {
  f_id : option string;
  f_patientId : option string;
  f_name : option string;
  f_relation : option string;
  f_phone : option string;
  f_isPrimary : option bool;
  f_notifiedAt : option (option Z);
  f_createdAt : option (option Z) }.

Definition no_fields : contact_fields :=
  mkFields None None None None None None None None.

(** [{ ...c, ...fields, updatedAt }] *)
Definition merge_fields (c : contact) (fields : contact_fields) (updatedAt : Z)
  : contact :=
  mkContact (default (c_id c) (f_id fields))
            (default (c_patientId c) (f_patientId fields))
            (default (c_name c) (f_name fields))
            (default (c_relation c) (f_relation fields))
            (default (c_phone c) (f_phone fields))
            (default (c_isPrimary c) (f_isPrimary fields))
            (default (c_notifiedAt c) (f_notifiedAt fields))
            (default (c_createdAt c) (f_createdAt fields))
            (Some updatedAt).

(** [contacts.map((c, i) => ...)] *)
Definition mapi {A B : Type} (f : A -> nat -> B) (l : list A) : list B :=
  imap (fun i a => f a i) l.

Definition updateContact (contactId : string) (fields : contact_fields)
  : M op_result :=
  let* s := getStore in
  let contacts := ah_emergency_contacts s in
  match list_find (fun c => c_id c = contactId) contacts with
  | None => ret (mkOp false (Some "Contact not found."))
  | Some (idx, found) =>
      if truthy_opt (f_phone fields)
         && negb (validatePhone (default "" (f_phone fields)))
      then ret (mkOp false (Some "Invalid phone format."))
      else
        let pid := c_patientId found in
        let updated :=
          if default false (f_isPrimary fields) then
            mapi (fun c i => if negb (Nat.eqb i idx) && eqs (c_patientId c) pid
                             then set_isPrimary false c else c) contacts
          else contacts in
        let* updatedAt := new_Date in
        let updated :=
          match updated !! idx with
          | Some cur => <[idx := merge_fields cur fields updatedAt]> updated
          | None => updated
          end in
        let* _ := modifyStore (set_emergency_contacts updated) in
        ret (mkOp true None)
  end.

Definition deleteContact (contactId : string) : M unit :=
  modifyStore (fun s =>
    set_emergency_contacts
      (List.filter (fun c => negb (eqs (c_id c) contactId)) (ah_emergency_contacts s)) s).


Definition setPrimary (contactId : string) : M op_result :=
  updateContact contactId
    (mkFields None None None None None (Some true) None None).

(** *** Section 8: the audit trail *)

Definition set_acknowledgedAt (t : option Z) (l : alert_log) : alert_log :=
  mkAlertLog (l_id l) (l_patientId l) (l_doseId l) (l_medName l) (l_medDosage l)
             (l_scheduledTime l) (l_contactId l) (l_contactName l) (l_contactPhone l)
             (l_contactRole l) (l_type l) (l_smsMessage l) (l_deliveryStatus l)
             (l_provider l) (l_triggeredAt l) t.

(** [patientId] is only handed to the renderer. *)
Definition acknowledgeLog (logId patientId : string) : M unit :=
  let* s := getStore in
  let logs := ah_alert_logs s in
  match list_find (fun l => l_id l = logId) logs with
  | Some (idx, l) =>
      let* t := new_Date in
      modifyStore (set_alert_logs (<[idx := set_acknowledgedAt (Some t) l]> logs))
  | None => ret tt
  end.

Definition acknowledgeAllLogs (patientId : string) : M unit :=
  let* now := new_Date in
  modifyStore (fun s =>
    set_alert_logs
      (List.map (fun l => if eqs (l_patientId l) patientId
                             && negb (bool_decide (is_Some (l_acknowledgedAt l)))
                          then set_acknowledgedAt (Some now) l else l)
                (ah_alert_logs s)) s).

(** *** Section 9: the notification feed *)

Definition set_read (b : bool) (n : notification) : notification :=
  mkNotification (n_id n) (n_patientId n) (n_doseId n) (n_type n) (n_message n)
                 (n_timestamp n) b (n_contactId n) (n_caregiverId n).

Definition getUnreadCount (patientId : string) : M nat :=
  let* s := getStore in
  ret (length (List.filter (fun n => eqs (n_patientId n) patientId && negb (n_read n))
                           (ah_notifications s))).

Definition markAllRead (patientId : string) : M unit :=
  modifyStore (fun s =>
    set_notifications
      (List.map (fun n => if eqs (n_patientId n) patientId then set_read true n else n)
                (ah_notifications s)) s).

Definition markOneRead (notifId : string) : M unit :=
  modifyStore (fun s =>
    set_notifications
      (List.map (fun n => if eqs (n_id n) notifId then set_read true n else n)
                (ah_notifications s)) s).

Definition clearAllNotifications (patientId : string) : M unit :=
  modifyStore (fun s =>
    set_notifications
      (List.filter (fun n => negb (eqs (n_patientId n) patientId)) (ah_notifications s)) s).

(** *** The dashboards' calls around the engine *)

Definition set_doses (v : list dose) (s : store) : store :=
  mkStore (ah_users s) (ah_medications s) v (ah_emergency_contacts s)
          (ah_notifications s) (ah_alert_logs s) (ah_caregiver_assignment s).

Definition set_medications (v : list medication) (s : store) : store :=
  mkStore (ah_users s) v (ah_doses s) (ah_emergency_contacts s)
          (ah_notifications s) (ah_alert_logs s) (ah_caregiver_assignment s).

Definition set_takenAt (t : option Z) (d : dose) : dose :=
  mkDose (d_id d) (d_medId d) (d_patientId d) (d_scheduledTime d) t.


(** [loadAll] of the patient dashboard, as far as the stores go: the
    scan for the signed-in patient. *)
Definition loadAll (sessionUserId : string) : M unit :=
  let* _ := detectMissedDoses sessionUserId in
  ret tt.

(** [window.markTaken] (patient.js): stamp the first dose with the id,
    then reload. *)
Definition markTaken (sessionUserId doseId : string) : M unit :=
  let* s := getStore in
  let doses := ah_doses s in
  match list_find (fun d => d_id d = doseId) doses with
  | None => ret tt
  | Some (idx, d) =>
      let* t := new_Date in
      let* _ := modifyStore (set_doses (<[idx := set_takenAt (Some t) d]> doses)) in
      loadAll sessionUserId
  end.

(** [window.deleteMed] (doctor.js); [confirmed] is the answer to the
    confirmation dialog. *)
Definition deleteMed (confirmed : bool) (medId : string) : M unit :=
  if negb confirmed then ret tt
  else
    modifyStore (fun s =>
      set_medications
        (List.filter (fun m => negb (eqs (m_id m) medId)) (ah_medications s)) s).

(** [Math.random() > 0.3]: the coin [chance] is read at the position of
    the random oracle. *)
Definition random_above (chance : nat -> bool) : M bool :=
  fun w => (chance (draws w),
            mkWorld (storage w) (_mode w) (S (draws w)) (ticks w) (pending w)).

(** The hours of the day for a frequency. *)
Definition dose_times (frequency : string) : list Z :=
  let count : Z :=
    if includes (toLowerCase frequency) "twice" then 2
    else if includes (toLowerCase frequency) "three" then 3 else 1 in
  if count =? 1 then [8] else if count =? 2 then [8; 20] else [8; 13; 20].

(** [generateDoses] (doctor.js): seven days of history, some of it
    taken half an hour late, and thirty days ahead.  [frequency] is
    [med.frequency], which the engine's medication record does not
    keep; [calendar now d hr] is the instant [setDate] and [setHours]
    reach from [now] (local time), [chance] the coin. *)
Definition generateDoses (calendar : Z -> Z -> Z -> Z) (chance : nat -> bool)
           (med : medication) (frequency : string) (pid : string) : M unit :=
  let* s := getStore in
  let doses := ah_doses s in
  let times := dose_times frequency in
  let* history :=
    Legacy.forEach_push (fun d : Z =>
      Legacy.forEach_push (fun hr : Z =>
        let* now := new_Date in
        let dt := calendar now (- d) hr in
        let* id := uuid in
        let* late := random_above chance in
        ret [mkDose id (m_id med) pid (Instant dt)
                    (if late then Some (dt + 1800000) else None)])
        times)
      [7; 6; 5; 4; 3; 2; 1] in
  let* future :=
    Legacy.forEach_push (fun d : Z =>
      Legacy.forEach_push (fun hr : Z =>
        let* now := new_Date in
        let dt := calendar now d hr in
        let* id := uuid in
        ret [mkDose id (m_id med) pid (Instant dt) None])
        times)
      (List.map Z.of_nat (seq 0 30)) in
  modifyStore (set_doses (doses ++ history ++ future)%list).

(** *** Polling (section 4) *)

(** The page's timers: the variable [_pollTimer], the intervals that
    are running (the id of each and the patient its callback scans),
    and the number of ids handed out so far; [setInterval] hands out a
    fresh positive id. *)
Record timers : Type := mkTimers {
  _pollTimer : option nat;
  intervals : list (nat * string);
  handed_out : nat }.

Definition no_timers : timers := mkTimers None [] 0.

Definition clearInterval (t : nat) (ivs : list (nat * string)) : list (nat * string) :=
  List.filter (fun iv => negb (Nat.eqb (fst iv) t)) ivs.

(** [if (_pollTimer)]: [null] and 0 are falsy. *)
Definition timer_set (o : option nat) : bool :=
  match o with Some t => negb (Nat.eqb t 0) | None => false end.

Definition startPolling (patientId : string) (st : timers) : timers :=
  let ivs := if timer_set (_pollTimer st)
             then clearInterval (default O (_pollTimer st)) (intervals st)
             else intervals st in
  let id := S (handed_out st) in
  mkTimers (Some id) (ivs ++ [(id, patientId)])%list id.

Definition stopPolling (st : timers) : timers :=
  if timer_set (_pollTimer st)
  then mkTimers None (clearInterval (default O (_pollTimer st)) (intervals st))
                (handed_out st)
  else st.

(** One period: the callback of every running interval scans its
    patient. *)
Definition poll (st : timers) : M unit :=
  let* _ := mapM (fun iv : nat * string => detectMissedDoses (snd iv)) (intervals st) in
  ret tt.

(** The calls a page makes on its timer. *)
Inductive timer_call : Type :=
  | CallStart (patientId : string)
  | CallStop.

Definition call (st : timers) (c : timer_call) : timers :=
  match c with
  | CallStart p => startPolling p st
  | CallStop => stopPolling st
  end.

(** The submit handler of the prescription form (doctor.js).  The
    arguments are the values of the form's fields; the result tells
    whether a medication was prescribed (the success toast) or an error
    toast shown.  The random draw after the id picks the colour. *)
Definition prescribe (calendar : Z -> Z -> Z -> Z) (chance : nat -> bool)
           (pid name dos freq : string) : M bool :=
  let name := trim name in
  let dos := trim dos in
  if negb (truthy pid) then ret false
  else if negb (truthy name) then ret false
  else if negb (truthy dos) then ret false
  else if negb (truthy freq) then ret false
  else
    let* id := uuid in
    let* _ := new_Date in
    let* _ := random_above chance in
    let med := mkMedication id pid name dos in
    let* _ := modifyStore (fun s =>
                set_medications (ah_medications s ++ [med])%list s) in
    let* _ := generateDoses calendar chance med freq pid in
    ret true.


(** *** Concrete data for worked examples *)

Definition demo_rand (n : nat) : string := String (ascii_of_nat (97 + n)) "".
Definition demo_T : Z := 1700000000000.
Definition demo_clock (n : nat) : Z := demo_T + 31 * 60 * 1000 + Z.of_nat n.
Definition demo_fmt (d : jsdate) : string := "Nov 14, 10:13 PM".

Definition demo_patient : user := mkUser "p1" "Alex" "patient@demo.com" None "patient".
Definition demo_caregiver : user :=
  mkUser "cg1" "Emma" "caregiver@demo.com" None "caregiver".
Definition demo_med : medication := mkMedication "med_1" "p1" "Metformin" "500mg".
Definition demo_dose : dose := mkDose "d1" "med_1" "p1" (Instant demo_T) None.
Definition demo_mary : contact :=
  mkContact "c1" "p1" "Mary" "Mother" "+1-555-0101" false None None None.
Definition demo_robert : contact :=
  mkContact "c2" "p1" "Robert" "Father" "+1-555-0102" false None None None.

(** One patient with a caregiver, two contacts and one untaken dose
    scheduled at [demo_T]; the clock first reads 31 minutes later. *)
Definition demo_store : store :=
  mkStore [demo_patient; demo_caregiver] [demo_med] [demo_dose]
          [demo_mary; demo_robert] [] [] {["p1" := "cg1"]}.

Definition demo_world : world := mkWorld demo_store "simulation" 0 0 [].

(** An oracle that never repeats itself: n letters for the n-th draw. *)
Fixpoint demo_unary (n : nat) : string :=
  match n with O => "" | S m => String "x" (demo_unary m) end.

(** *** Notions used in the statements *)

Definition at_end (rest : list ascii) : bool :=
  match rest with [] => true | _ => false end.

(** The pattern, read off the matcher: drop one leading plus sign, then
    7 to 20 characters of the class. *)
Definition strip_plus (s : list ascii) : list ascii :=
  match s with
  | c :: r => if Ascii.eqb c "+" then r else s
  | [] => []
  end.

(** The primary contacts of a patient. *)
Definition primaries (patientId : string) (cs : list contact) : list contact :=
  List.filter (fun c => eqs (c_patientId c) patientId && c_isPrimary c) cs.

(** At most one contact per patient has [isPrimary = true]. *)
Definition single_primary (cs : list contact) : Prop :=
  forall patientId : string, (length (primaries patientId cs) <= 1)%nat.

Definition contacts_of (w : world) : list contact :=
  ah_emergency_contacts (storage w).

(** What [addContact] and [updateContact] do to the other contacts. *)
Definition demote (patientId : string) (c : contact) : contact :=
  if eqs (c_patientId c) patientId then set_isPrimary false c else c.

Definition logs_of (w : world) : list alert_log := ah_alert_logs (storage w).

(** Two entries that differ at most in [acknowledgedAt]. *)
Definition same_but_ack (a b : alert_log) : Prop :=
  set_acknowledgedAt None a = set_acknowledgedAt None b.

Definition notifs_of (w : world) : list notification := ah_notifications (storage w).

(** What the detector reads besides the notification feed. *)
Definition inputs (w : world)
  : list user * list medication * list dose * list contact * gmap string string * string :=
  (ah_users (storage w), ah_medications (storage w), ah_doses (storage w),
   ah_emergency_contacts (storage w), ah_caregiver_assignment (storage w), _mode w).

Definition is_inflight (t : task) : bool :=
  match t with InFlight _ _ _ _ _ => true | Reaction _ _ => false end.

(** The sends still waiting for their transport. *)
Definition inflight (q : list task) : nat := length (List.filter is_inflight q).

(** The modes in which [send] awaits a transport. *)
Definition provider_mode (mode : string) : bool :=
  eqs mode "twilio" || eqs mode "fast2sms".

(** [w'] comes from [w] by appending [notifs] to the feed and invoking
    the gateway [k] times: each invocation has either written its audit
    entry or is waiting for its transport, and none waits outside the
    provider modes. *)
Definition grows (w w' : world) (notifs : list notification) (k : nat) : Prop :=
  inputs w' = inputs w
  /\ notifs_of w' = (notifs_of w ++ notifs)%list
  /\ exists (new : list alert_log) (added : list task),
       logs_of w' = (new ++ logs_of w)%list
       /\ pending w' = (pending w ++ added)%list
       /\ (length new + inflight added = k)%nat
       /\ (provider_mode (_mode w) = false -> inflight added = O).

(** The skip tests of the loop body, for the current engine and for the
    earlier one. *)
Definition overdue (now : Z) (d : dose) : bool :=
  negb (num_lt (num_sub now (getTime (d_scheduledTime d))) thresholdMs).

Definition med_of (meds : list medication) (d : dose) : option medication :=
  List.find (fun m => eqs (m_id m) (d_medId d)) meds.

Definition fires (now : Z) (meds : list medication) (already : gset string) (d : dose)
  : bool :=
  overdue now d && negb (bool_decide (d_id d ∈ already))
  && bool_decide (is_Some (med_of meds d)).

Definition patient_of (patientId : string) (w : world) : option user :=
  List.find (fun u => eqs (u_id u) patientId) (ah_users (storage w)).

Definition contacts_for (patientId : string) (w : world) : list contact :=
  List.filter (fun c => eqs (c_patientId c) patientId) (contacts_of w).

Definition caregiver_for (patientId : string) (w : world) : option user :=
  match ah_caregiver_assignment (storage w) !! patientId with
  | Some cid =>
      if truthy cid then List.find (fun u => eqs (u_id u) cid) (ah_users (storage w))
      else None
  | None => None
  end.

(** The doses for which a call of [detectMissedDoses] at [w] runs an
    alert cycle, in the order of the dose store. *)
Definition fired (patientId : string) (w : world) : list dose :=
  match patient_of patientId w with
  | None => []
  | Some _ =>
      List.filter (fires (clock (ticks w)) (ah_medications (storage w))
                         (already_notified (notifs_of w)))
                  (List.filter (eligible patientId) (ah_doses (storage w)))
  end.

(** The notifications of one alert cycle: the missed-dose entry, one
    [sms_sent] entry per contact in order, and the caregiver entry if a
    caregiver is assigned; all carry the dose and the patient. *)
Definition cycle_block (patientId : string) (contacts : list contact)
           (caregiver : option user) (d : dose) (b : list notification) : Prop :=
  exists (m : notification) (sms cgn : list notification),
    b = (m :: sms ++ cgn)%list
    /\ n_type m = MISSED_DOSE
    /\ Forall2 (fun c n => n_type n = SMS_SENT /\ n_contactId n = Some (c_id c))
               contacts sms
    /\ match caregiver with
       | Some cg => exists n, cgn = [n] /\ n_type n = CAREGIVER_ALERT
       | None => cgn = []
       end
    /\ Forall (fun n => n_doseId n = Some (d_id d) /\ n_patientId n = patientId
                        /\ n_read n = false) b.

Fixpoint cycle_blocks (patientId : string) (contacts : list contact)
         (caregiver : option user) (ds : list dose) (ns : list notification) : Prop :=
  match ds with
  | [] => ns = []
  | d :: ds' =>
      exists b rest,
        ns = (b ++ rest)%list
        /\ cycle_block patientId contacts caregiver d b
        /\ cycle_blocks patientId contacts caregiver ds' rest
  end.

(** Gateway invocations per alert cycle. *)
Definition sends_per_cycle (contacts : list contact) (caregiver : option user) : nat :=
  (length contacts + length (maybe_list caregiver))%nat.

Definition tick (w : world) : world :=
  mkWorld (storage w) (_mode w) (draws w) (S (ticks w)) (pending w).

Definition fires_legacy (now : Z) (meds : list medication) (already : gset string)
           (d : dose) : bool :=
  num_ge (num_sub now (getTime (d_scheduledTime d))) thresholdMs
  && negb (bool_decide (d_id d ∈ already))
  && bool_decide (is_Some (med_of meds d)).

Definition fired_legacy (patientId : string) (w : world) : list dose :=
  List.filter (fires_legacy (clock (ticks w)) (ah_medications (storage w))
                            (already_notified (notifs_of w)))
              (List.filter (eligible patientId) (ah_doses (storage w))).

(** Only the position of the random oracle moved. *)
Definition quiet (w w' : world) : Prop :=
  storage w' = storage w /\ _mode w' = _mode w /\ ticks w' = ticks w
  /\ pending w' = pending w.

(** No dose crosses the threshold between the clock readings [now1]
    and [now2]. *)
Definition no_crossing (w : world) (now1 now2 : Z) : Prop :=
  forall (d : dose) (t : Z),
    In d (ah_doses (storage w)) -> d_scheduledTime d = Instant t ->
    thresholdMs <= now2 - t -> thresholdMs <= now1 - t.

(** The second scan sees the users, medications and doses of the first. *)
Definition same_scan_inputs (w w1 : world) : Prop :=
  ah_users (storage w1) = ah_users (storage w)
  /\ ah_medications (storage w1) = ah_medications (storage w)
  /\ ah_doses (storage w1) = ah_doses (storage w).

(** The demo store after the doctor has removed the medication
    ([deleteMed] leaves the doses in place). *)
Definition demo_world_no_med : world :=
  mkWorld (mkStore [demo_patient; demo_caregiver] [] [demo_dose]
                   [demo_mary; demo_robert] [] [] {["p1" := "cg1"]})
          "simulation" 0 0 [].

(** The demo store without any user record. *)
Definition demo_world_no_user : world :=
  mkWorld (mkStore [] [demo_med] [demo_dose]
                   [demo_mary; demo_robert] [] [] ∅)
          "simulation" 0 0 [].

(** Two patients, each with a primary contact. *)
Definition demo_anna : contact :=
  mkContact "a1" "p1" "Anna" "Sister" "+1-555-0103" true None None None.
Definition demo_ben : contact :=
  mkContact "b1" "p2" "Ben" "Son" "+1-555-0104" true None None None.
Definition demo_world_primaries : world :=
  mkWorld (mkStore [] [] [] [demo_anna; demo_ben] [] [] ∅) "simulation" 0 0 [].

(** An audit entry of patient p1, acknowledged at [demo_T]. *)
Definition demo_log : alert_log :=
  mkAlertLog "L1" "p1" "d1" "Metformin" "500mg" (Instant demo_T) "c1" "Mary"
             "+1-555-0101" "Mother" "emergency_contact" "ALERT" SIMULATED
             "simulation" demo_T (Some demo_T).
Definition demo_world_acked : world :=
  mkWorld (mkStore [] [] [] [] [] [demo_log] ∅) "simulation" 0 0 [].

(** The unread notifications of a patient in a feed. *)
Definition unread_in (patientId : string) (ns : list notification) : list notification :=
  List.filter (fun n => eqs (n_patientId n) patientId && negb (n_read n)) ns.

(** Every stored contact has a phone the validator accepts. *)
Definition valid_phones (cs : list contact) : Prop :=
  Forall (fun c => validatePhone (c_phone c) = true) cs.

(** No white space at the front of a string. *)
Definition no_lead (l : list ascii) : Prop :=
  match l with c :: _ => is_space c = false | [] => True end.

(** [ds] was pushed between [w] and [w']: only the oracles moved, every
    dose satisfies [P], and the ids were drawn at distinct positions of
    the random oracle, all between the two worlds. *)
Definition generated (P : dose -> Prop) (w : world) (ds : list dose) (w' : world)
  : Prop :=
  storage w' = storage w /\ _mode w' = _mode w /\ pending w' = pending w
  /\ (draws w <= draws w')%nat
  /\ Forall P ds
  /\ exists ps : list nat,
       List.map d_id ds = List.map (fun i => "id_" ++ rand i) ps
       /\ List.NoDup ps
       /\ Forall (fun p => (draws w <= p)%nat /\ (p < draws w')%nat) ps.

(** What [generateDoses] writes into every dose. *)
Definition dose_of (med : medication) (pid : string) (d : dose) : Prop :=
  d_medId d = m_id med /\ d_patientId d = pid /\ truthy (d_id d) = true
  /\ exists t, d_scheduledTime d = Instant t
               /\ (d_takenAt d = None \/ d_takenAt d = Some (t + 1800000)).

(** A contact without its [notifiedAt] stamp. *)
Definition forget_notified (c : contact) : contact :=
  mkContact (c_id c) (c_patientId c) (c_name c) (c_relation c) (c_phone c)
            (c_isPrimary c) None (c_createdAt c) (c_updatedAt c).

(** What a turn of the event loop leaves alone: everything but the
    audit trail, the queue and the [notifiedAt] stamps. *)
Definition same_but_stamps (w w' : world) : Prop :=
  ah_users (storage w') = ah_users (storage w)
  /\ ah_medications (storage w') = ah_medications (storage w)
  /\ ah_doses (storage w') = ah_doses (storage w)
  /\ ah_notifications (storage w') = ah_notifications (storage w)
  /\ ah_caregiver_assignment (storage w') = ah_caregiver_assignment (storage w)
  /\ _mode w' = _mode w
  /\ List.map forget_notified (contacts_of w')
     = List.map forget_notified (contacts_of w).

(** The callback a task will run, now or once its send has settled. *)
Definition callbacks_of (t : task) : list callback :=
  match t with
  | InFlight _ _ _ _ (Some cb) => [cb]
  | InFlight _ _ _ _ None => []
  | Reaction cb _ => [cb]
  end.

(** The callbacks the event loop still owes. *)
Definition owed (q : list task) : list callback := flat_map callbacks_of q.

(** Between [w] and [w'] the queue grew by tasks owing [cbs]. *)
Definition owes (w : world) (cbs : list callback) (w' : world) : Prop :=
  exists added : list task,
    pending w' = (pending w ++ added)%list /\ owed added = cbs.

(** The callbacks one alert cycle registers. *)
Definition cycle_callbacks (now : Z) (contacts : list contact)
           (caregiver : option user) : list callback :=
  (List.map (fun c => NotifyContact (c_id c) now) contacts
   ++ List.map (fun _ => LogCaregiver) (maybe_list caregiver))%list.

(** The contact [findIndex] reaches for an id, and its stamp. *)
Definition first_contact (contactId : string) (cs : list contact) : option contact :=
  List.find (fun c => eqs (c_id c) contactId) cs.

Definition stamped (contactId : string) (now : Z) (w : world) : Prop :=
  exists c, first_contact contactId (contacts_of w) = Some c
            /\ c_notifiedAt c = Some now.

(** [ecs[idx].notifiedAt = nowIso] on the first contact with the id. *)
Definition set_notifiedAt (t : option Z) (c : contact) : contact :=
  mkContact (c_id c) (c_patientId c) (c_name c) (c_relation c) (c_phone c)
            (c_isPrimary c) t (c_createdAt c) (c_updatedAt c).

Fixpoint stamp (contactId : string) (now : Z) (cs : list contact) : list contact :=
  match cs with
  | [] => []
  | c :: r =>
      if eqs (c_id c) contactId then set_notifiedAt (Some now) c :: r
      else c :: stamp contactId now r
  end.

(** What the event loop keeps true after a scan at clock reading [now]
    for contacts with ids [ids]: every owed contact callback is one of
    that scan, every such contact has either its callback owed or its
    stamp set, and a contact that changed is one of them. *)
Definition settling (now : Z) (ids : list string) (w0 w : world) : Prop :=
  (forall cb, In cb (owed (pending w)) ->
     cb = LogCaregiver \/ exists i, cb = NotifyContact i now /\ In i ids)
  /\ (forall i, In i ids ->
        In (NotifyContact i now) (owed (pending w)) \/ stamped i now w)
  /\ (forall c, In c (contacts_of w) ->
        In c (contacts_of w0) \/ (c_notifiedAt c = Some now /\ In (c_id c) ids))
  /\ List.map c_id (contacts_of w) = List.map c_id (contacts_of w0).

(** No interval runs, or exactly the one [_pollTimer] names. *)
Definition one_interval (st : timers) : Prop :=
  (_pollTimer st = None /\ intervals st = [])
  \/ (exists p, _pollTimer st = Some (handed_out st)
                /\ intervals st = [(handed_out st, p)]
                /\ (0 < handed_out st)%nat).

(** A feed with one unread entry for each of two patients. *)
Definition demo_notif_missed : notification :=
  mkNotification "n1" "p1" (Some "d1") MISSED_DOSE "Missed dose" demo_T false None None.
Definition demo_notif_other : notification :=
  mkNotification "n2" "p2" None SMS_SENT "SMS sent" demo_T false None None.
Definition demo_world_feed : world :=
  mkWorld (mkStore [demo_patient; demo_caregiver] [demo_med] [demo_dose]
                   [demo_mary; demo_robert] [demo_notif_missed; demo_notif_other]
                   [] {["p1" := "cg1"]})
          "simulation" 0 0 [].

(** An audit entry of patient p1 that nobody has acknowledged. *)
Definition demo_log_open : alert_log :=
  mkAlertLog "L2" "p1" "d1" "Metformin" "500mg" (Instant demo_T) "c1" "Mary"
             "+1-555-0101" "Mother" "emergency_contact" "ALERT" SIMULATED
             "simulation" demo_T None.
Definition demo_world_open : world :=
  mkWorld (mkStore [] [] [] [] [] [demo_log_open; demo_log] ∅) "simulation" 0 0 [].

(** A calendar that ignores time zones, and a coin that alternates. *)
Definition demo_calendar (now d hr : Z) : Z := now + d * 86400000 + hr * 3600000.
Definition demo_chance (n : nat) : bool := Nat.even n.

(** Every stored address is trimmed and in lower case. *)
Definition normalised (us : list Auth.account) : Prop :=
  forall u, In u us -> Auth.a_email u = toLowerCase (trim (Auth.a_email u)).

(** One registered account. *)
Definition demo_account : Auth.account :=
  Auth.mkAccount "u1" "Alex" "alex@demo.com" "secret1" "patient".
Definition demo_accounts : Auth.state := Auth.mkState [demo_account] None 0.

(** * Properties *)

(** ** The phone validator *)

Lemma rep_upto_class (p : ascii -> bool) (n : nat) (s : list ascii) :
  rep_upto (rmatch (RClass p)) n s at_end
  = (length s <=? n)%nat && forallb p s.
Proof.
  revert s; induction n as [|n IH]; intros s; destruct s as [|x s']; simpl; auto.
  rewrite IH. destruct (p x); simpl;
    now rewrite ?orb_false_r, ?andb_false_r.
Qed.

Lemma rep_exact_class (p : ascii -> bool) (lo extra : nat) (s : list ascii) :
  rep_exact (rmatch (RClass p)) lo s
            (fun s' => rep_upto (rmatch (RClass p)) extra s' at_end)
  = (lo <=? length s)%nat && (length s <=? lo + extra)%nat && forallb p s.
Proof.
  revert s; induction lo as [|lo IH]; intros s.
  - simpl. apply rep_upto_class.
  - destruct s as [|x s']; simpl; [reflexivity|].
    rewrite IH. destruct (p x); simpl; now rewrite ?andb_false_r.
Qed.

Lemma phone_class_plus : phone_class "+" = false.
Proof. reflexivity. Qed.

Lemma phone_re_test (s : string) :
  regex_test phone_re s
  = let body := strip_plus (list_ascii_of_string s) in
    (7 <=? length body)%nat && (length body <=? 20)%nat && forallb phone_class body.
Proof.
  unfold regex_test, phone_re. cbn [rmatch].
  fold at_end.
  rewrite !(rep_exact_class phone_class 7 13).
  destruct (list_ascii_of_string s) as [|c r] eqn:E; [reflexivity|].
  cbn [strip_plus]. destruct (Ascii.eqb c "+") eqn:Ec.
  - apply Ascii.eqb_eq in Ec; subst c.
    cbn [forallb]. rewrite phone_class_plus. cbn [andb].
    rewrite (rep_exact_class phone_class 7 13).
    now rewrite andb_false_r, orb_false_r.
  - reflexivity.
Qed.

Lemma forallb_Forall_true {A : Type} (p : A -> bool) (l : list A) :
  forallb p l = true <-> Forall (fun c => p c = true) l.
Proof.
  rewrite forallb_forall, List.Forall_forall. reflexivity.
Qed.

Lemma strip_plus_shape (cls : ascii -> bool) (s : list ascii) :
  cls "+"%char = false ->
  ((7 <= length (strip_plus s) <= 20)%nat /\
   Forall (fun c => cls c = true) (strip_plus s) /\
   (7 <= length (List.filter is_digit s) <= 15)%nat)
  <-> spec_phone_shape cls s.
Proof.
  intros Hplus. split.
  - intros (Hlen & Hall & Hdig). exists (strip_plus s). repeat split; try tauto.
    destruct s as [|c r]; [now left|]. simpl.
    destruct (Ascii.eqb c "+") eqn:Ec; [|now left].
    apply Ascii.eqb_eq in Ec; subst. now right.
  - intros (body & Hs & Hlen & Hall & Hdig).
    assert (Hb : strip_plus s = body).
    { destruct Hs as [->| ->].
      - destruct body as [|c r]; [reflexivity|]. simpl.
        destruct (Ascii.eqb c "+") eqn:Ec; [|reflexivity].
        apply Ascii.eqb_eq in Ec; subst.
        inversion Hall; subst. congruence.
      - reflexivity. }
    rewrite Hb. tauto.
Qed.

Lemma validatePhone_shape (phone : string) :
  validatePhone phone = true
  <-> spec_phone_shape phone_class (trim_chars (list_ascii_of_string phone)).
Proof.
  rewrite <- (strip_plus_shape phone_class _ phone_class_plus).
  unfold validatePhone, digits_of, trim.
  rewrite phone_re_test. cbn zeta.
  rewrite list_ascii_of_string_of_list_ascii.
  set (t := trim_chars (list_ascii_of_string phone)).
  destruct ((7 <=? length (strip_plus t))%nat && (length (strip_plus t) <=? 20)%nat
            && forallb phone_class (strip_plus t)) eqn:E; cbn [negb].
  - apply andb_true_iff in E as [E E3]. apply andb_true_iff in E as [E1 E2].
    apply Nat.leb_le in E1, E2. apply forallb_Forall_true in E3.
    rewrite andb_true_iff, !Nat.leb_le. tauto.
  - split; [discriminate|]. intros ((H1 & H2) & H3 & _).
    apply forallb_Forall_true in H3.
    apply Nat.leb_le in H1, H2. rewrite H1, H2, H3 in E. discriminate.
Qed.

Lemma truthy_empty (s : string) : truthy s = false <-> s = "".
Proof.
  unfold truthy. destruct (String.eqb s "") eqn:E; cbn.
  - apply String.eqb_eq in E. tauto.
  - apply String.eqb_neq in E. split; [discriminate|tauto].
Qed.

(** C9 as stated fails: a leading blank before the plus sign is not in
    the stated shape (with the class read as the space character or as
    any white space), yet the validator accepts the string, because it
    trims first. *)
Lemma validatePhone_accepts_untrimmed :
  validatePhone " +5550101" = true
  /\ ~ spec_phone_shape spec_char_space_only (list_ascii_of_string " +5550101")
  /\ ~ spec_phone_shape phone_class (list_ascii_of_string " +5550101").
Proof.
  split; [reflexivity|].
  split; intros (body & [Hs|Hs] & _ & Hall & _); try discriminate Hs;
    subst body; cbn in Hall;
    inversion Hall as [|? ? _ Hall']; inversion Hall' as [|? ? Hp _]; discriminate Hp.
Qed.

(** C9, amended: the validator accepts exactly the strings whose trimmed
    form is an optional plus sign followed by 7 to 20 characters of the
    class digits, white space, dash, parentheses, period, with 7 to 15
    digits; the three sample numbers come out as stated; [addContact]
    answers [ok: false] and leaves the world as it was when the trimmed
    name or phone is empty or the phone fails the validator. *)
Theorem validatePhone_exact :
  (forall phone : string,
     validatePhone phone = true
     <-> spec_phone_shape phone_class (trim_chars (list_ascii_of_string phone)))
  /\ (validatePhone "+919876543210" = true
      /\ validatePhone "555-0101" = true
      /\ validatePhone "abc" = false)
  /\ (forall (patientId name relation phone : string) (isPrimary : bool) (w : world),
        trim name = "" \/ trim phone = "" \/ validatePhone phone = false ->
        ok (fst (addContact patientId name relation phone isPrimary w)) = false
        /\ snd (addContact patientId name relation phone isPrimary w) = w).
Proof.
  split; [exact validatePhone_shape|].
  split; [repeat split; reflexivity|].
  intros patientId name relation phone isPrimary w H.
  unfold addContact.
  destruct (negb (truthy (trim name)) || negb (truthy (trim phone))) eqn:E1;
    [split; reflexivity|].
  destruct (negb (validatePhone phone)) eqn:E2; [split; reflexivity|].
  exfalso.
  apply orb_false_iff in E1 as [En Ep].
  apply negb_false_iff in En, Ep, E2.
  destruct H as [H|[H|H]].
  - apply truthy_empty in H. congruence.
  - apply truthy_empty in H. congruence.
  - congruence.
Qed.

(** ** Helper lemmas on lists *)

Lemma fmap_is_map {A B : Type} (f : A -> B) (l : list A) : f <$> l = List.map f l.
Proof. induction l as [|x l IH]; [reflexivity|]. cbn. now rewrite <- IH. Qed.

Lemma list_find_split {A : Type} (P : A -> Prop) `{forall x, Decision (P x)}
      (l : list A) (i : nat) (x : A) :
  list_find P l = Some (i, x) ->
  exists pre post, l = (pre ++ x :: post)%list /\ i = length pre /\ P x.
Proof.
  intros Hf. apply list_find_Some in Hf as (Hl & HP & _).
  exists (take i l), (drop (S i) l). split; [|split].
  - symmetry. now apply take_drop_middle.
  - rewrite length_take. apply lookup_lt_Some in Hl. lia.
  - exact HP.
Qed.

Lemma insert_middle {A : Type} (pre post : list A) (x y : A) (n : nat) :
  n = length pre ->
  <[n := y]> (pre ++ x :: post)%list = (pre ++ y :: post)%list.
Proof.
  intros ->. induction pre as [|a pre IH]; [reflexivity|]. simpl. f_equal. exact IH.
Qed.

(** [map] with an index that spares one position. *)
Lemma mapi_split {A : Type} (g : A -> A) (keep : A -> bool)
      (pre post : list A) (x : A) :
  mapi (fun c i => if negb (Nat.eqb i (length pre)) && keep c then g c else c)
       (pre ++ x :: post)%list
  = (List.map (fun c => if keep c then g c else c) pre
     ++ x :: List.map (fun c => if keep c then g c else c) post)%list.
Proof.
  unfold mapi. rewrite imap_app, imap_cons. f_equal; [|f_equal].
  - rewrite <- fmap_is_map, <- imap_const. apply imap_ext.
    intros i c Hi. apply lookup_lt_Some in Hi.
    destruct (Nat.eqb_spec i (length pre)); [lia|reflexivity].
  - rewrite Nat.add_0_r, Nat.eqb_refl. reflexivity.
  - rewrite <- fmap_is_map, <- imap_const. apply imap_ext.
    intros i c _. unfold compose, const.
    destruct (Nat.eqb_spec (length pre + S i) (length pre)); [lia|reflexivity].
Qed.

(** ** The contact directory: one primary contact per patient *)

Lemma eqs_refl (a : string) : eqs a a = true.
Proof. apply String.eqb_refl. Qed.

Lemma eqs_eq (a b : string) : eqs a b = true <-> a = b.
Proof. apply String.eqb_eq. Qed.

Lemma eqs_neq (a b : string) : eqs a b = false <-> a <> b.
Proof. apply String.eqb_neq. Qed.

Lemma primaries_app (q : string) (l1 l2 : list contact) :
  primaries q (l1 ++ l2)%list = (primaries q l1 ++ primaries q l2)%list.
Proof. apply List.filter_app. Qed.

Lemma primaries_cons (q : string) (c : contact) (l : list contact) :
  primaries q (c :: l)
  = if eqs (c_patientId c) q && c_isPrimary c then c :: primaries q l
    else primaries q l.
Proof. reflexivity. Qed.

Lemma demote_patient (p : string) (c : contact) :
  c_patientId (demote p c) = c_patientId c.
Proof. unfold demote. now destruct (eqs (c_patientId c) p). Qed.

Lemma demote_primary (p : string) (c : contact) :
  c_isPrimary (demote p c)
  = if eqs (c_patientId c) p then false else c_isPrimary c.
Proof. unfold demote. now destruct (eqs (c_patientId c) p). Qed.

Lemma primaries_demote_same (q : string) (l : list contact) :
  primaries q (List.map (demote q) l) = [].
Proof.
  induction l as [|c l IH]; [reflexivity|].
  cbn [List.map]. rewrite primaries_cons, demote_patient, demote_primary.
  destruct (eqs (c_patientId c) q); exact IH.
Qed.

Lemma primaries_demote_other (p q : string) (l : list contact) :
  p <> q -> primaries q (List.map (demote p) l) = primaries q l.
Proof.
  intros Hpq. induction l as [|c l IH]; [reflexivity|].
  cbn [List.map]. rewrite !primaries_cons, demote_patient, demote_primary, IH.
  destruct (eqs (c_patientId c) p) eqn:E.
  - apply eqs_eq in E. rewrite E.
    apply eqs_neq in Hpq. now rewrite Hpq.
  - unfold demote. now rewrite E.
Qed.

Lemma addContact_success (patientId name relation phone : string) (isPrimary : bool)
      (w : world) :
  ok (fst (addContact patientId name relation phone isPrimary w)) = true ->
  exists c : contact,
    c_patientId c = patientId /\ c_isPrimary c = isPrimary /\
    contacts_of (snd (addContact patientId name relation phone isPrimary w))
    = ((if isPrimary then List.map (demote patientId) (contacts_of w)
        else contacts_of w) ++ [c])%list.
Proof.
  unfold addContact.
  destruct (negb (truthy (trim name)) || negb (truthy (trim phone))); [discriminate|].
  destruct (negb (validatePhone phone)); [discriminate|].
  intros _. eexists. split; [|split]; [| |cbn; reflexivity]; reflexivity.
Qed.

Lemma addContact_failure (patientId name relation phone : string) (isPrimary : bool)
      (w : world) :
  ok (fst (addContact patientId name relation phone isPrimary w)) = false ->
  snd (addContact patientId name relation phone isPrimary w) = w.
Proof.
  unfold addContact.
  destruct (negb (truthy (trim name)) || negb (truthy (trim phone))); [reflexivity|].
  destruct (negb (validatePhone phone)); [reflexivity|]. discriminate.
Qed.

Lemma addContact_single_primary (patientId name relation phone : string)
      (isPrimary : bool) (w : world) :
  single_primary (contacts_of w) ->
  single_primary
    (contacts_of (snd (addContact patientId name relation phone isPrimary w))).
Proof.
  intros Hinv.
  destruct (ok (fst (addContact patientId name relation phone isPrimary w)))
    eqn:Hok.
  - apply addContact_success in Hok as (c & Hp & Hprim & ->).
    intros q. rewrite primaries_app. rewrite length_app.
    specialize (Hinv q).
    destruct isPrimary.
    + destruct (String.eqb_spec patientId q) as [->|Hne].
      * rewrite primaries_demote_same. cbn.
        destruct (eqs (c_patientId c) q && c_isPrimary c); cbn; lia.
      * rewrite primaries_demote_other by exact Hne. cbn.
        rewrite Hp. apply eqs_neq in Hne. rewrite Hne. cbn. lia.
    + cbn. rewrite Hprim, andb_false_r. cbn. lia.
  - apply addContact_failure in Hok. now rewrite Hok.
Qed.

(** Adding B as primary leaves B as the only primary contact of the
    patient. *)
Lemma addContact_primary_exact (patientId name relation phone : string) (w : world) :
  ok (fst (addContact patientId name relation phone true w)) = true ->
  exists b : contact,
    primaries patientId
      (contacts_of (snd (addContact patientId name relation phone true w)))
    = [b]
    /\ contacts_of (snd (addContact patientId name relation phone true w))
       = (List.map (demote patientId) (contacts_of w) ++ [b])%list.
Proof.
  intros Hok. apply addContact_success in Hok as (c & Hp & Hprim & Hc).
  exists c. split; [|exact Hc].
  rewrite Hc, primaries_app, primaries_demote_same. cbn.
  now rewrite Hp, eqs_refl, Hprim.
Qed.

Lemma primaries_middle_length (q : string) (pre post : list contact) (x : contact) :
  length (primaries q (pre ++ x :: post)%list)
  = (length (primaries q pre)
     + (if eqs (c_patientId x) q && c_isPrimary x then 1 else 0)
     + length (primaries q post))%nat.
Proof.
  rewrite primaries_app, length_app, primaries_cons.
  destruct (eqs (c_patientId x) q && c_isPrimary x); cbn [length]; lia.
Qed.

(** What a successful [updateContact] writes: the contact found is
    replaced by the merge; if the update sets it primary, every other
    contact of its (former) patient is demoted. *)
Lemma updateContact_success (contactId : string) (fields : contact_fields) (w : world) :
  ok (fst (updateContact contactId fields w)) = true ->
  exists (pre post : list contact) (found : contact),
    contacts_of w = (pre ++ found :: post)%list
    /\ c_id found = contactId
    /\ contacts_of (snd (updateContact contactId fields w))
       = if default false (f_isPrimary fields) then
           (List.map (demote (c_patientId found)) pre
            ++ merge_fields found fields (clock (ticks w))
            :: List.map (demote (c_patientId found)) post)%list
         else (pre ++ merge_fields found fields (clock (ticks w)) :: post)%list.
Proof.
  unfold updateContact, bind, getStore, contacts_of.
  destruct (list_find (fun c => c_id c = contactId) (ah_emergency_contacts (storage w)))
    as [[idx found]|] eqn:Hfind; [|discriminate].
  destruct (truthy_opt (f_phone fields)
            && negb (validatePhone (default "" (f_phone fields)))); [discriminate|].
  intros _.
  apply list_find_split in Hfind as (pre & post & Hl & Hidx & Hid).
  exists pre, post, found. split; [exact Hl|]. split; [exact Hid|].
  subst idx. rewrite Hl. cbn.
  destruct (default false (f_isPrimary fields)).
  - rewrite mapi_split. fold (demote (c_patientId found)).
    rewrite list_lookup_middle by now rewrite length_map.
    apply insert_middle. now rewrite length_map.
  - rewrite list_lookup_middle by reflexivity.
    now apply insert_middle.
Qed.

Lemma updateContact_failure (contactId : string) (fields : contact_fields) (w : world) :
  ok (fst (updateContact contactId fields w)) = false ->
  snd (updateContact contactId fields w) = w.
Proof.
  unfold updateContact, bind, getStore.
  destruct (list_find (fun c => c_id c = contactId) (ah_emergency_contacts (storage w)))
    as [[idx found]|]; [|reflexivity].
  destruct (truthy_opt (f_phone fields)
            && negb (validatePhone (default "" (f_phone fields)))); [reflexivity|].
  discriminate.
Qed.

Lemma updateContact_single_primary (contactId : string) (fields : contact_fields)
      (w : world) :
  f_patientId fields = None ->
  single_primary (contacts_of w) ->
  single_primary (contacts_of (snd (updateContact contactId fields w))).
Proof.
  intros Hpid Hinv.
  destruct (ok (fst (updateContact contactId fields w))) eqn:Hok.
  - apply updateContact_success in Hok as (pre & post & found & Hl & _ & ->).
    intros q. specialize (Hinv q). rewrite Hl, primaries_middle_length in Hinv.
    assert (Hmp : c_patientId (merge_fields found fields (clock (ticks w)))
                  = c_patientId found) by (cbn; now rewrite Hpid).
    destruct (f_isPrimary fields) as [[|]|] eqn:Hprim; cbn [default from_option id];
      rewrite primaries_middle_length, Hmp.
    + destruct (String.eqb_spec (c_patientId found) q) as [->|Hne].
      * rewrite !primaries_demote_same, eqs_refl. cbn.
        destruct (default _ _); cbn; lia.
      * rewrite !primaries_demote_other by exact Hne.
        apply eqs_neq in Hne. rewrite Hne in *. cbn in *. lia.
    + cbn [merge_fields c_isPrimary]. rewrite Hprim. cbn [default from_option id].
      rewrite andb_false_r.
      destruct (eqs (c_patientId found) q && c_isPrimary found); lia.
    + cbn [merge_fields c_isPrimary]. rewrite Hprim. cbn [default from_option id].
      exact Hinv.
  - apply updateContact_failure in Hok. now rewrite Hok.
Qed.

(** Updating a contact as primary leaves it as the only primary contact
    of its patient. *)
Lemma updateContact_primary_exact (contactId : string) (fields : contact_fields)
      (w : world) :
  f_patientId fields = None ->
  f_isPrimary fields = Some true ->
  ok (fst (updateContact contactId fields w)) = true ->
  exists b : contact,
    c_isPrimary b = true
    /\ primaries (c_patientId b) (contacts_of (snd (updateContact contactId fields w)))
       = [b].
Proof.
  intros Hpid Hprim Hok.
  apply updateContact_success in Hok as (pre & post & found & Hl & _ & ->).
  rewrite Hprim. cbn [default from_option id].
  exists (merge_fields found fields (clock (ticks w))).
  assert (Hmp : c_patientId (merge_fields found fields (clock (ticks w)))
                = c_patientId found) by (cbn; now rewrite Hpid).
  assert (Hmi : c_isPrimary (merge_fields found fields (clock (ticks w))) = true)
    by (cbn; now rewrite Hprim).
  split; [exact Hmi|].
  rewrite Hmp, primaries_app, primaries_cons, !primaries_demote_same, Hmp, eqs_refl, Hmi.
  reflexivity.
Qed.

(** C7, amended: [addContact] always keeps the invariant "at most one
    primary contact per patient", and so does [updateContact] when the
    supplied fields carry no [patientId]; a contact added as primary, or
    updated to primary, is afterwards the one primary contact of its
    patient, the others having been demoted in the same write. *)
Theorem single_primary_preserved :
  (forall (patientId name relation phone : string) (isPrimary : bool) (w : world),
     single_primary (contacts_of w) ->
     single_primary
       (contacts_of (snd (addContact patientId name relation phone isPrimary w))))
  /\ (forall (contactId : string) (fields : contact_fields) (w : world),
        f_patientId fields = None ->
        single_primary (contacts_of w) ->
        single_primary (contacts_of (snd (updateContact contactId fields w))))
  /\ (forall (patientId name relation phone : string) (w : world),
        ok (fst (addContact patientId name relation phone true w)) = true ->
        exists b : contact,
          primaries patientId
            (contacts_of (snd (addContact patientId name relation phone true w))) = [b]
          /\ contacts_of (snd (addContact patientId name relation phone true w))
             = (List.map (demote patientId) (contacts_of w) ++ [b])%list)
  /\ (forall (contactId : string) (fields : contact_fields) (w : world),
        f_patientId fields = None ->
        f_isPrimary fields = Some true ->
        ok (fst (updateContact contactId fields w)) = true ->
        exists b : contact,
          c_isPrimary b = true
          /\ primaries (c_patientId b)
               (contacts_of (snd (updateContact contactId fields w))) = [b]).
Proof.
  split; [exact addContact_single_primary|].
  split; [exact updateContact_single_primary|].
  split; [exact addContact_primary_exact|exact updateContact_primary_exact].
Qed.

(** ** The audit trail: acknowledgement *)

Lemma list_find_first {A : Type} (P : A -> Prop) `{forall x, Decision (P x)}
      (pre post : list A) (x : A) :
  Forall (fun y => ~ P y) pre -> P x ->
  list_find P (pre ++ x :: post)%list = Some (length pre, x).
Proof.
  intros Hpre Hx. apply list_find_Some. split; [|split].
  - now apply list_lookup_middle.
  - exact Hx.
  - intros j y Hj Hlt. rewrite lookup_app_l in Hj by exact Hlt.
    rewrite List.Forall_forall in Hpre. apply Hpre.
    apply list_elem_of_In. eapply list_elem_of_lookup_2. exact Hj.
Qed.

(** C8, what the code does: [acknowledgeLog] stamps the first entry
    that carries the id with the current clock reading, whoever its
    patient is and whether or not it was acknowledged before; the claim
    asks that an entry already acknowledged, or of another patient, is
    left as it is. *)
Theorem acknowledgeLog_stamps_unconditionally
        (logId patientId : string) (w : world)
        (pre post : list alert_log) (l : alert_log) :
  logs_of w = (pre ++ l :: post)%list ->
  Forall (fun x => l_id x <> logId) pre ->
  l_id l = logId ->
  logs_of (snd (acknowledgeLog logId patientId w))
  = (pre ++ set_acknowledgedAt (Some (clock (ticks w))) l :: post)%list.
Proof.
  intros Hl Hpre Hid. unfold acknowledgeLog, bind, getStore, logs_of in *.
  rewrite Hl.
  rewrite (list_find_first (fun x => l_id x = logId) pre post l Hpre Hid).
  cbn. now apply insert_middle.
Qed.

(** The bulk acknowledgement is guarded as the claim says: only the
    unacknowledged entries of the patient change, and only in
    [acknowledgedAt]. *)
Lemma acknowledgeAllLogs_frame (patientId : string) (w : world) :
  Forall2 (fun a b =>
             same_but_ack a b
             /\ (b <> a ->
                 l_patientId a = patientId /\ l_acknowledgedAt a = None
                 /\ l_acknowledgedAt b = Some (clock (ticks w))))
          (logs_of w) (logs_of (snd (acknowledgeAllLogs patientId w))).
Proof.
  unfold acknowledgeAllLogs, bind, new_Date, modifyStore, logs_of. cbn.
  induction (ah_alert_logs (storage w)) as [|a l IH]; cbn; constructor; [|exact IH].
  destruct (eqs (l_patientId a) patientId) eqn:Ep; cbn;
    [|split; [reflexivity|congruence]].
  destruct (l_acknowledgedAt a) as [t|] eqn:Ea; cbn.
  - split; [reflexivity|congruence].
  - split; [reflexivity|]. intros _. apply eqs_eq in Ep. auto.
Qed.

(** Acknowledging all a second time changes nothing in the trail. *)
Lemma acknowledgeAllLogs_twice (patientId : string) (w w1 : world) :
  logs_of w1 = logs_of (snd (acknowledgeAllLogs patientId w)) ->
  logs_of (snd (acknowledgeAllLogs patientId w1)) = logs_of w1.
Proof.
  unfold acknowledgeAllLogs, bind, new_Date, modifyStore, logs_of. cbn.
  intros ->. rewrite List.map_map.
  induction (ah_alert_logs (storage w)) as [|a l IH]; cbn; [reflexivity|].
  rewrite IH. f_equal.
  destruct (eqs (l_patientId a) patientId) eqn:Ep; cbn; [|now rewrite Ep].
  destruct (l_acknowledgedAt a) as [t|] eqn:Ea; cbn.
  - now rewrite Ep, Ea.
  - now rewrite andb_false_r.
Qed.

(** ** The gateway *)

Lemma log_attempt_logs (to body : string) (meta : send_meta) (r : send_result)
      (w : world) :
  exists e : alert_log,
    logs_of (snd (log_attempt to body meta r w)) = e :: logs_of w
    /\ l_deliveryStatus e = r_status r /\ l_provider e = r_provider r
    /\ l_contactPhone e = to /\ l_smsMessage e = body
    /\ l_acknowledgedAt e = None.
Proof.
  unfold log_attempt, bind, uuid, new_Date, modifyStore, logs_of. cbn.
  eexists. split; [reflexivity|]. repeat split.
Qed.

(** A call that reaches its [await] has written nothing yet. *)
Lemma send_start_awaiting (to body : string) (meta : send_meta) (w : world)
      (branch : string) :
  fst (send_start to body meta w) = Awaiting branch ->
  snd (send_start to body meta w) = w
  /\ _mode w = branch /\ (branch = "twilio" \/ branch = "fast2sms").
Proof.
  unfold send_start, bind, getMode.
  destruct (eqs (_mode w) "simulation") eqn:E1.
  { destruct (log_attempt to body meta simulated_result w); discriminate. }
  destruct (eqs (_mode w) "twilio") eqn:E2.
  { apply eqs_eq in E2. cbn. intros [= <-]. auto. }
  destruct (eqs (_mode w) "fast2sms") eqn:E3.
  { apply eqs_eq in E3. cbn. intros [= <-]. auto. }
  destruct (log_attempt to body meta (pending_result (_mode w)) w); discriminate.
Qed.

(** Resuming after the transport has answered writes one entry, with
    the status of the result; a transport that threw gives [FAILED]. *)
Lemma send_finish_logs (branch : string) (o : transport) (to body : string)
      (meta : send_meta) (w : world) :
  exists e : alert_log,
    logs_of (snd (send_finish branch o to body meta w)) = e :: logs_of w
    /\ l_deliveryStatus e = r_status (fst (send_finish branch o to body meta w))
    /\ (forall msg, o = Threw msg ->
          r_ok (fst (send_finish branch o to body meta w)) = false
          /\ r_status (fst (send_finish branch o to body meta w)) = FAILED).
Proof.
  unfold send_finish, bind, getMode.
  set (result := match o with
                 | Responded ok0 http =>
                     if eqs branch "twilio" then twilio_result ok0 http
                     else fast2sms_result ok0
                 | Threw msg => caught_result (_mode w) msg
                 end).
  destruct (log_attempt_logs to body meta result w) as (e & He & Hs & _).
  destruct (log_attempt to body meta result w) as [[] w'] eqn:E. cbn in *.
  exists e. split; [exact He|]. split; [exact Hs|].
  intros msg ->. subst result. split; reflexivity.
Qed.

Lemma send_simulation (o : transport) (to body : string) (meta : send_meta) (w : world) :
  _mode w = "simulation" ->
  fst (send o to body meta w) = simulated_result.
Proof.
  intros Hm. unfold send, send_start, bind, getMode. rewrite Hm. cbn [eqs String.eqb].
  change (eqs "simulation" "simulation") with true. cbn iota.
  destruct (log_attempt to body meta simulated_result w). reflexivity.
Qed.

(** C6: every call of [send], in every mode and whatever the transport
    does, prepends exactly one entry to the audit trail by the time it
    returns, and the entry carries the status of the result; when the
    transport throws in a provider mode the call still returns, with
    [ok] false and status [FAILED]; in simulation mode the result is
    [ok] with status [SIMULATED].  The same holds when other work runs
    between the call and its resumption: the suspended call has written
    nothing, and resuming it prepends one entry. *)
Theorem send_logs_exactly_once :
  (forall (o : transport) (to body : string) (meta : send_meta) (w : world),
     (exists e : alert_log,
        logs_of (snd (send o to body meta w)) = e :: logs_of w
        /\ l_deliveryStatus e = r_status (fst (send o to body meta w))
        /\ l_contactPhone e = to /\ l_smsMessage e = body)
     /\ (_mode w = "simulation" ->
         r_ok (fst (send o to body meta w)) = true
         /\ r_status (fst (send o to body meta w)) = SIMULATED)
     /\ (forall msg, o = Threw msg -> _mode w = "twilio" \/ _mode w = "fast2sms" ->
         r_ok (fst (send o to body meta w)) = false
         /\ r_status (fst (send o to body meta w)) = FAILED))
  /\ (forall (to body : string) (meta : send_meta) (w : world) (branch : string),
        fst (send_start to body meta w) = Awaiting branch ->
        snd (send_start to body meta w) = w)
  /\ (forall (branch : string) (o : transport) (to body : string) (meta : send_meta)
             (w : world),
        exists e : alert_log,
          logs_of (snd (send_finish branch o to body meta w)) = e :: logs_of w
          /\ l_deliveryStatus e = r_status (fst (send_finish branch o to body meta w))
          /\ (forall msg, o = Threw msg ->
                r_ok (fst (send_finish branch o to body meta w)) = false
                /\ r_status (fst (send_finish branch o to body meta w)) = FAILED)).
Proof.
  split; [|split].
  - intros o to body meta w. split; [|split].
    + unfold send, bind.
      destruct (send_start to body meta w) as [p w1] eqn:Es.
      destruct p as [r|branch].
      * (* settled at once: one of the two synchronous branches *)
        revert Es. unfold send_start, bind, getMode.
        destruct (eqs (_mode w) "simulation").
        { destruct (log_attempt_logs to body meta simulated_result w)
            as (e & He & Hs & _ & Hto & Hb & _).
          destruct (log_attempt to body meta simulated_result w) as [[] w2].
          cbn in *. intros [= <- <-]. exists e. auto. }
        destruct (eqs (_mode w) "twilio"); [discriminate|].
        destruct (eqs (_mode w) "fast2sms"); [discriminate|].
        destruct (log_attempt_logs to body meta (pending_result (_mode w)) w)
          as (e & He & Hs & _ & Hto & Hb & _).
        destruct (log_attempt to body meta (pending_result (_mode w)) w) as [[] w2].
        cbn in *. intros [= <- <-]. exists e. auto.
      * (* suspended, then resumed *)
        pose proof (send_start_awaiting to body meta w branch) as Hw.
        rewrite Es in Hw. cbn in Hw. destruct (Hw eq_refl) as (-> & _ & _).
        unfold send_finish, bind, getMode.
        match goal with
        | |- context [log_attempt to body meta ?r w] =>
            destruct (log_attempt_logs to body meta r w)
              as (e & He & Hs & _ & Hto & Hb & _);
            destruct (log_attempt to body meta r w) as [[] w2]
        end.
        cbn in *. exists e. auto.
    + intros Hm. rewrite (send_simulation o to body meta w Hm). split; reflexivity.
    + intros msg -> Hm. unfold send, bind.
      destruct (send_start to body meta w) as [p w1] eqn:Es.
      assert (Hp : exists branch, p = Awaiting branch /\ w1 = w).
      { revert Es. unfold send_start, bind, getMode.
        destruct Hm as [-> | ->]; cbn; intros [= <- <-]; eauto. }
      destruct Hp as (branch & -> & ->).
      unfold send_finish, bind, getMode.
      destruct (log_attempt to body meta (caught_result (_mode w) msg) w) as [[] w2].
      split; reflexivity.
  - intros to body meta w branch H. now apply send_start_awaiting in H.
  - exact send_finish_logs.
Qed.

(** ** The detector *)

Lemma grows_refl (w : world) : grows w w [] 0.
Proof.
  split; [reflexivity|]. split; [now rewrite app_nil_r|].
  exists [], []. now rewrite app_nil_r.
Qed.

Lemma inputs_mode (w w' : world) : inputs w' = inputs w -> _mode w' = _mode w.
Proof. unfold inputs. now intros [= _ _ _ _ _ ->]. Qed.

Lemma inflight_app (q1 q2 : list task) :
  inflight (q1 ++ q2)%list = (inflight q1 + inflight q2)%nat.
Proof. unfold inflight. now rewrite List.filter_app, length_app. Qed.

Lemma grows_trans (w1 w2 w3 : world) (n1 n2 : list notification) (k1 k2 : nat) :
  grows w1 w2 n1 k1 -> grows w2 w3 n2 k2 -> grows w1 w3 (n1 ++ n2)%list (k1 + k2).
Proof.
  intros (Hi1 & Hn1 & new1 & add1 & Hl1 & Hp1 & Hk1 & Hm1)
         (Hi2 & Hn2 & new2 & add2 & Hl2 & Hp2 & Hk2 & Hm2).
  split; [congruence|]. split.
  - now rewrite Hn2, Hn1, <- app_assoc.
  - exists (new2 ++ new1)%list, (add1 ++ add2)%list.
    rewrite Hl2, Hl1, Hp2, Hp1, <- !app_assoc, length_app, inflight_app.
    repeat split; [lia|]. intros Hm.
    rewrite (inputs_mode _ _ Hi1) in Hm2. rewrite (Hm1 Hm), (Hm2 Hm). reflexivity.
Qed.

Lemma uuid_grows (w : world) : grows w (snd (uuid w)) [] 0.
Proof.
  split; [reflexivity|]. split; [cbn; now rewrite app_nil_r|].
  exists [], []. cbn. now rewrite app_nil_r.
Qed.

Lemma new_Date_grows (w : world) : grows w (snd (new_Date w)) [] 0.
Proof.
  split; [reflexivity|]. split; [cbn; now rewrite app_nil_r|].
  exists [], []. cbn. now rewrite app_nil_r.
Qed.

Lemma log_attempt_grows (to body : string) (meta : send_meta) (r : send_result)
      (w : world) :
  inputs (snd (log_attempt to body meta r w)) = inputs w
  /\ notifs_of (snd (log_attempt to body meta r w)) = notifs_of w
  /\ pending (snd (log_attempt to body meta r w)) = pending w
  /\ exists e, logs_of (snd (log_attempt to body meta r w)) = e :: logs_of w.
Proof.
  unfold log_attempt, bind, uuid, new_Date, modifyStore. cbn.
  repeat split. eexists. reflexivity.
Qed.

(** One invocation of the gateway by the detector. *)
Lemma send_then_grows (to body : string) (meta : send_meta) (cb : callback) (w : world) :
  grows w (snd (send_then to body meta cb w)) [] 1.
Proof.
  unfold send_then, send_start, bind, getMode, enqueue.
  assert (Hsettled : forall r,
    grows w (snd (let (_, w') := log_attempt to body meta r w in
                  (tt, mkWorld (storage w') (_mode w') (draws w') (ticks w')
                               (pending w' ++ [Reaction cb r])%list))) [] 1).
  { intros r.
    destruct (log_attempt_grows to body meta r w) as (Hi & Hn & Hp & e & He).
    destruct (log_attempt to body meta r w) as [[] w']. cbn in *.
    split; [exact Hi|]. split; [unfold notifs_of in *; cbn; now rewrite Hn, app_nil_r|].
    exists [e], [Reaction cb r]. unfold logs_of in *. cbn. rewrite He, Hp.
    repeat split. }
  unfold provider_mode.
  assert (Hawait : forall branch,
    eqs (_mode w) "twilio" || eqs (_mode w) "fast2sms" = true ->
    grows w (mkWorld (storage w) (_mode w) (draws w) (ticks w)
                     (pending w ++ [InFlight branch to body meta (Some cb)])%list) [] 1).
  { intros branch Hprov. split; [reflexivity|].
    split; [unfold notifs_of; cbn; now rewrite app_nil_r|].
    exists [], [InFlight branch to body meta (Some cb)]. repeat split.
    unfold provider_mode. rewrite Hprov. discriminate. }
  destruct (eqs (_mode w) "simulation").
  { specialize (Hsettled simulated_result).
    destruct (log_attempt to body meta simulated_result w) as [[] w']. exact Hsettled. }
  destruct (eqs (_mode w) "twilio"); [now apply Hawait|].
  destruct (eqs (_mode w) "fast2sms"); [now apply Hawait|].
  specialize (Hsettled (pending_result (_mode w))).
  destruct (log_attempt to body meta (pending_result (_mode w)) w) as [[] w'].
  exact Hsettled.
Qed.

Lemma mapM_grows {A : Type} (f : A -> M notification) (R : A -> notification -> Prop) :
  (forall a w, grows w (snd (f a w)) [] 1 /\ R a (fst (f a w))) ->
  forall l w, grows w (snd (mapM f l w)) [] (length l)
              /\ Forall2 R l (fst (mapM f l w)).
Proof.
  intros Hf. induction l as [|a l IH]; intros w.
  - split; [apply grows_refl|constructor].
  - cbn [mapM]. unfold bind. destruct (Hf a w) as [Hg HR].
    destruct (f a w) as [y w1]. cbn [fst snd] in *.
    destruct (IH w1) as [Hg' HR'].
    destruct (mapM f l w1) as [ys w2]. cbn [fst snd ret] in *.
    split; [|now constructor].
    exact (grows_trans _ _ _ _ _ _ _ Hg Hg').
Qed.

Lemma alert_cycle_skips (patientId : string) (now : Z) (patient : user)
      (meds : list medication) (contacts : list contact) (caregiverId : option string)
      (caregiver : option user) (already : gset string) (d : dose) (w : world) :
  fires now meds already d = false ->
  alert_cycle patientId now patient meds contacts caregiverId caregiver already d w
  = (O, w).
Proof.
  unfold fires, overdue, med_of, alert_cycle. intros Hf.
  destruct (num_lt (num_sub now (getTime (d_scheduledTime d))) thresholdMs);
    [reflexivity|].
  destruct (bool_decide (d_id d ∈ already)); [reflexivity|].
  cbn in Hf.
  destruct (List.find (fun m => eqs (m_id m) (d_medId d)) meds) as [med|];
    [|reflexivity].
  rewrite bool_decide_eq_false in Hf. exfalso. apply Hf. eauto.
Qed.

Lemma alert_cycle_fires (patientId : string) (now : Z) (patient : user)
      (meds : list medication) (contacts : list contact) (caregiverId : option string)
      (caregiver : option user) (already : gset string) (d : dose) (w : world) :
  fires now meds already d = true ->
  exists (b : list notification) (w' : world),
    alert_cycle patientId now patient meds contacts caregiverId caregiver already d w
    = (1%nat, w')
    /\ grows w w' b (sends_per_cycle contacts caregiver)
    /\ cycle_block patientId contacts caregiver d b.
Proof.
  unfold fires, overdue, med_of, alert_cycle. intros Hf.
  apply andb_true_iff in Hf as [Hf Hmed]. apply andb_true_iff in Hf as [Hov Hnot].
  apply negb_true_iff in Hov, Hnot. rewrite Hov, Hnot. cbn [orb].
  rewrite bool_decide_eq_true in Hmed. destruct Hmed as [med Hmed]. rewrite Hmed.
  unfold bind at 1. pose proof (uuid_grows w) as Hg0.
  destruct (uuid w) as [id0 w0]. cbn [snd] in Hg0.
  unfold bind at 1.
  match goal with
  | |- context [mapM ?f contacts w0] =>
      pose proof (mapM_grows f
        (fun c n => (n_type n = SMS_SENT /\ n_contactId n = Some (c_id c))
                    /\ n_doseId n = Some (d_id d) /\ n_patientId n = patientId
                    /\ n_read n = false)) as Hsms
  end.
  match type of Hsms with
  | ?P -> _ => assert (Hpt : P)
  end.
  { intros c w'. unfold bind.
    match goal with
    | |- context [send_then ?to ?body ?meta ?cb w'] =>
        pose proof (send_then_grows to body meta cb w') as Hs;
        destruct (send_then to body meta cb w') as [[] w1]
    end.
    pose proof (uuid_grows w1) as Hu. destruct (uuid w1) as [id w2].
    cbn [fst snd ret] in *. split; [|repeat split].
    exact (grows_trans _ _ _ _ _ _ _ Hs Hu). }
  specialize (Hsms Hpt contacts w0). clear Hpt. destruct Hsms as [Hg1 HR].
  match goal with
  | |- context [mapM ?f contacts w0] => destruct (mapM f contacts w0) as [sms w1]
  end.
  cbn [fst snd] in Hg1, HR.
  unfold bind at 1.
  assert (Hcg : exists (cgn : option notification) (w2 : world),
    (match caregiver with
     | Some cg =>
         let* _ :=
           send_then (or_else (u_phone cg) (u_email cg))
             (SMS_TEMPLATE (u_name patient) (m_name med) (m_dosage med)
                (fmtTime (d_scheduledTime d)))
             (mkMeta (Some patientId) (Some (d_id d)) (Some (m_name med))
                (Some (m_dosage med)) (d_scheduledTime d) (Some (u_id cg))
                (Some (u_name cg)) (Some "Assigned Caregiver") (Some "caregiver"))
             LogCaregiver in
         let* id := uuid in
         ret (Some (mkNotification id patientId (Some (d_id d)) CAREGIVER_ALERT
                ("🏥 Caregiver " ++ u_name cg
                 ++ " has been automatically notified about the missed dose of "
                 ++ m_name med ++ ".")
                now false None caregiverId))
     | None => ret None
     end) w1 = (cgn, w2)
    /\ grows w1 w2 [] (length (maybe_list caregiver))
    /\ match caregiver with
       | Some cg => exists n, maybe_list cgn = [n] /\ n_type n = CAREGIVER_ALERT
       | None => maybe_list cgn = []
       end
    /\ Forall (fun n => n_doseId n = Some (d_id d) /\ n_patientId n = patientId
                        /\ n_read n = false) (maybe_list cgn)).
  { destruct caregiver as [cg|].
    - unfold bind.
      match goal with
      | |- context [send_then ?to ?body ?meta ?cb w1] =>
          pose proof (send_then_grows to body meta cb w1) as Hs;
          destruct (send_then to body meta cb w1) as [[] w2]
      end.
      pose proof (uuid_grows w2) as Hu. destruct (uuid w2) as [id w3].
      cbn [fst snd ret] in *. eexists _, _. split; [reflexivity|].
      split; [exact (grows_trans _ _ _ _ _ _ _ Hs Hu)|].
      split; [eexists; split; reflexivity|].
      repeat constructor.
    - eexists _, _. split; [reflexivity|]. split; [apply grows_refl|].
      split; [reflexivity|constructor]. }
  destruct Hcg as (cgn & w2 & -> & Hg2 & Hcgn & Hcgall).
  unfold bind, modifyStore, ret. cbn [fst snd].
  eexists _, _. split; [reflexivity|]. split; [|].
  - (* the world *)
    pose proof (grows_trans _ _ _ _ _ _ _ (grows_trans _ _ _ _ _ _ _ Hg0 Hg1) Hg2)
      as (Hi & Hn & new & added & Hl & Hp & Hk & Hm).
    split; [unfold inputs in *; cbn; exact Hi|]. split.
    + unfold notifs_of in *. cbn. rewrite Hn. cbn. rewrite app_nil_r. reflexivity.
    + exists new, added. unfold logs_of in *. cbn.
      split; [exact Hl|]. split; [exact Hp|]. split; [|exact Hm].
      unfold sends_per_cycle. cbn in Hk. lia.
  - (* the notifications *)
    eexists _, sms, (maybe_list cgn). split; [reflexivity|].
    split; [reflexivity|]. split.
    + eapply Forall2_impl; [exact HR|]. cbn. tauto.
    + split; [exact Hcgn|].
      constructor; [repeat split|]. apply Forall_app. split; [|exact Hcgall].
      clear -HR. induction HR; constructor; tauto.
Qed.

Lemma forEach_alert_cycles (patientId : string) (now : Z) (patient : user)
      (meds : list medication) (contacts : list contact) (caregiverId : option string)
      (caregiver : option user) (already : gset string) (l : list dose) (w : world) :
  exists (ns : list notification) (w' : world),
    forEach_count
      (alert_cycle patientId now patient meds contacts caregiverId caregiver already)
      l w
    = (length (List.filter (fires now meds already) l), w')
    /\ grows w w' ns
         (length (List.filter (fires now meds already) l)
          * sends_per_cycle contacts caregiver)
    /\ cycle_blocks patientId contacts caregiver
         (List.filter (fires now meds already) l) ns.
Proof.
  revert w. induction l as [|d l IH]; intros w.
  - exists [], w. split; [reflexivity|]. split; [apply grows_refl|reflexivity].
  - cbn [forEach_count List.filter]. unfold bind.
    destruct (fires now meds already d) eqn:Hf.
    + destruct (alert_cycle_fires patientId now patient meds contacts caregiverId
                  caregiver already d w Hf) as (b & w1 & -> & Hg & Hb).
      destruct (IH w1) as (ns & w2 & -> & Hg' & Hbs).
      exists (b ++ ns)%list, w2. split; [reflexivity|]. split.
      * cbn [length]. rewrite Nat.mul_succ_l, Nat.add_comm.
        exact (grows_trans _ _ _ _ _ _ _ Hg Hg').
      * cbn [cycle_blocks]. exists b, ns. auto.
    + rewrite (alert_cycle_skips _ _ _ _ _ _ _ _ _ w Hf).
      destruct (IH w) as (ns & w2 & -> & Hg' & Hbs).
      exists ns, w2. auto.
Qed.

(** The detector, read off the loop: it returns the number of fired
    doses, appends their blocks to the feed, and invokes the gateway
    once per contact and once for the caregiver in every cycle. *)
Lemma detect_found (patientId : string) (w : world) (patient : user) :
  patient_of patientId w = Some patient ->
  exists (ns : list notification) (w' : world),
    detectMissedDoses patientId w = (length (fired patientId w), w')
    /\ grows (tick w) w' ns
         (length (fired patientId w)
          * sends_per_cycle (contacts_for patientId w) (caregiver_for patientId w))
    /\ cycle_blocks patientId (contacts_for patientId w) (caregiver_for patientId w)
         (fired patientId w) ns.
Proof.
  intros Hp. unfold detectMissedDoses, fired, bind, new_Date, getStore.
  unfold patient_of in Hp. cbn [storage]. rewrite Hp. unfold patient_of. rewrite Hp.
  apply forEach_alert_cycles.
Qed.

Lemma detect_not_found (patientId : string) (w : world) :
  patient_of patientId w = None ->
  detectMissedDoses patientId w = (O, tick w).
Proof.
  intros Hp. unfold detectMissedDoses, bind, new_Date, getStore.
  unfold patient_of in Hp. cbn [storage]. now rewrite Hp.
Qed.

Lemma fired_not_found (patientId : string) (w : world) :
  patient_of patientId w = None -> fired patientId w = [].
Proof. intros Hp. unfold fired. now rewrite Hp. Qed.

(** In every case: the count, the growth and the blocks. *)
Lemma detect_spec (patientId : string) (w : world) :
  exists (ns : list notification) (w' : world),
    detectMissedDoses patientId w = (length (fired patientId w), w')
    /\ grows (tick w) w' ns
         (length (fired patientId w)
          * sends_per_cycle (contacts_for patientId w) (caregiver_for patientId w))
    /\ cycle_blocks patientId (contacts_for patientId w) (caregiver_for patientId w)
         (fired patientId w) ns.
Proof.
  destruct (patient_of patientId w) as [patient|] eqn:Hp.
  - now apply (detect_found patientId w patient).
  - rewrite (detect_not_found _ _ Hp), (fired_not_found _ _ Hp).
    exists [], (tick w). split; [reflexivity|]. split; [apply grows_refl|reflexivity].
Qed.

Lemma forEach_all_skip (patientId : string) (now : Z) (patient : user)
      (meds : list medication) (contacts : list contact) (caregiverId : option string)
      (caregiver : option user) (already : gset string) (l : list dose) (w : world) :
  List.filter (fires now meds already) l = [] ->
  forEach_count
    (alert_cycle patientId now patient meds contacts caregiverId caregiver already)
    l w
  = (O, w).
Proof.
  induction l as [|d l IH]; [reflexivity|]. cbn [List.filter forEach_count].
  destruct (fires now meds already d) eqn:Hf; [discriminate|]. intros Hl.
  unfold bind. rewrite (alert_cycle_skips _ _ _ _ _ _ _ _ _ w Hf), (IH Hl).
  reflexivity.
Qed.

(** A scan in which no dose fires only reads the clock. *)
Lemma detect_nothing_fired (patientId : string) (w : world) :
  fired patientId w = [] -> detectMissedDoses patientId w = (O, tick w).
Proof.
  intros Hf. destruct (patient_of patientId w) as [patient|] eqn:Hp.
  - unfold fired in Hf. rewrite Hp in Hf.
    unfold detectMissedDoses, bind, new_Date, getStore.
    unfold patient_of in Hp. cbn [storage]. rewrite Hp.
    now apply forEach_all_skip.
  - now apply detect_not_found.
Qed.

(** ** The earlier detector *)

Lemma quiet_refl (w : world) : quiet w w.
Proof. repeat split. Qed.

Lemma quiet_trans (w1 w2 w3 : world) : quiet w1 w2 -> quiet w2 w3 -> quiet w1 w3.
Proof. unfold quiet. intuition congruence. Qed.

Lemma mapM_quiet {A : Type} (f : A -> M notification) (R : A -> notification -> Prop) :
  (forall a w, quiet w (snd (f a w)) /\ R a (fst (f a w))) ->
  forall l w, quiet w (snd (mapM f l w)) /\ Forall2 R l (fst (mapM f l w)).
Proof.
  intros Hf. induction l as [|a l IH]; intros w.
  - split; [apply quiet_refl|constructor].
  - cbn [mapM]. unfold bind. destruct (Hf a w) as [Hq HR].
    destruct (f a w) as [y w1]. cbn [fst snd] in *.
    destruct (IH w1) as [Hq' HR'].
    destruct (mapM f l w1) as [ys w2]. cbn [fst snd ret] in *.
    split; [exact (quiet_trans _ _ _ Hq Hq')|now constructor].
Qed.

Lemma scan_dose_skips (patientId : string) (now : Z) (patient : option user)
      (meds : list medication) (already : gset string) (d : dose) (w : world) :
  fires_legacy now meds already d = false ->
  Legacy.scan_dose rand fmtTime patientId now patient meds already d w = ([], w).
Proof.
  unfold fires_legacy, med_of, Legacy.scan_dose. intros Hf.
  destruct (num_ge (num_sub now (getTime (d_scheduledTime d))) thresholdMs
            && negb (bool_decide (d_id d ∈ already))); [|reflexivity].
  cbn in Hf.
  destruct (List.find (fun m => eqs (m_id m) (d_medId d)) meds) as [med|];
    [|reflexivity].
  rewrite bool_decide_eq_false in Hf. exfalso. apply Hf. eauto.
Qed.

Lemma scan_dose_fires (patientId : string) (now : Z) (patient : option user)
      (meds : list medication) (already : gset string) (d : dose) (w : world) :
  fires_legacy now meds already d = true ->
  exists (b : list notification) (w' : world),
    Legacy.scan_dose rand fmtTime patientId now patient meds already d w = (b, w')
    /\ quiet w w'
    /\ cycle_block patientId (contacts_for patientId w) None d b.
Proof.
  unfold fires_legacy, med_of, Legacy.scan_dose. intros Hf.
  apply andb_true_iff in Hf as [Hf Hmed]. rewrite Hf.
  rewrite bool_decide_eq_true in Hmed. destruct Hmed as [med Hmed]. rewrite Hmed.
  unfold bind, Legacy.uuid, getStore. cbn [fst snd storage].
  match goal with
  | |- context [mapM ?f ?cs ?w0] =>
      pose proof (mapM_quiet f
        (fun c n => (n_type n = SMS_SENT /\ n_contactId n = Some (c_id c))
                    /\ n_doseId n = Some (d_id d) /\ n_patientId n = patientId
                    /\ n_read n = false)) as Hsms;
      match type of Hsms with
      | ?P -> _ => assert (Hpt : P) by (intros c w'; repeat split)
      end;
      specialize (Hsms Hpt cs w0); clear Hpt; destruct Hsms as [Hq HR];
      destruct (mapM f cs w0) as [sms w1]
  end.
  cbn [fst snd ret] in *.
  eexists _, w1. split; [reflexivity|]. split.
  - destruct Hq as (Hs & Hm & Ht & Hp). repeat split; assumption.
  - eexists _, sms, []. rewrite app_nil_r. split; [reflexivity|].
    split; [reflexivity|]. split.
    + eapply Forall2_impl; [exact HR|]. cbn. tauto.
    + split; [reflexivity|]. constructor; [repeat split|].
      clear -HR. induction HR; constructor; tauto.
Qed.

Lemma cycle_block_length (patientId : string) (contacts : list contact)
      (caregiver : option user) (d : dose) (b : list notification) :
  cycle_block patientId contacts caregiver d b ->
  length b = (1 + length contacts + length (maybe_list caregiver))%nat.
Proof.
  intros (m & sms & cgn & -> & _ & Hsms & Hcg & _).
  cbn [length]. rewrite length_app. apply Forall2_length in Hsms. rewrite <- Hsms.
  destruct caregiver; [destruct Hcg as (n & -> & _)|subst cgn]; cbn; lia.
Qed.

Lemma cycle_blocks_length (patientId : string) (contacts : list contact)
      (caregiver : option user) (ds : list dose) (ns : list notification) :
  cycle_blocks patientId contacts caregiver ds ns ->
  length ns
  = (length ds * (1 + length contacts + length (maybe_list caregiver)))%nat.
Proof.
  revert ns. induction ds as [|d ds IH]; intros ns; cbn [cycle_blocks].
  - now intros ->.
  - intros (b & rest & -> & Hb & Hrest). rewrite length_app.
    rewrite (cycle_block_length _ _ _ _ _ Hb), (IH _ Hrest). cbn [length]. lia.
Qed.

Lemma forEach_scan_doses (patientId : string) (now : Z) (patient : option user)
      (meds : list medication) (already : gset string) (l : list dose) (w : world) :
  exists (ns : list notification) (w' : world),
    Legacy.forEach_push
      (Legacy.scan_dose rand fmtTime patientId now patient meds already) l w
    = (ns, w')
    /\ quiet w w'
    /\ cycle_blocks patientId (contacts_for patientId w) None
         (List.filter (fires_legacy now meds already) l) ns.
Proof.
  revert w. induction l as [|d l IH]; intros w.
  - exists [], w. split; [reflexivity|]. split; [apply quiet_refl|reflexivity].
  - cbn [Legacy.forEach_push List.filter]. unfold bind.
    destruct (fires_legacy now meds already d) eqn:Hf.
    + destruct (scan_dose_fires patientId now patient meds already d w Hf)
        as (b & w1 & -> & Hq & Hb).
      destruct (IH w1) as (ns & w2 & -> & Hq' & Hbs).
      exists (b ++ ns)%list, w2. split; [reflexivity|].
      split; [exact (quiet_trans _ _ _ Hq Hq')|].
      cbn [cycle_blocks]. exists b, ns. split; [reflexivity|]. split; [exact Hb|].
      replace (contacts_for patientId w) with (contacts_for patientId w1); [exact Hbs|].
      unfold contacts_for, contacts_of. destruct Hq as (-> & _). reflexivity.
    + rewrite (scan_dose_skips _ _ _ _ _ _ w Hf).
      destruct (IH w) as (ns & w2 & -> & Hq' & Hbs).
      exists ns, w2. auto.
Qed.

(** The earlier detector, read off the loop: it returns the number of
    notifications it appends, a block without caregiver entry for every
    fired dose, whether or not the patient is a known user. *)
Lemma legacy_detect_spec (patientId : string) (w : world) :
  exists (ns : list notification) (w' : world),
    Legacy.detectMissedDoses rand clock fmtTime patientId w = (length ns, w')
    /\ inputs w' = inputs w
    /\ notifs_of w' = (notifs_of w ++ ns)%list
    /\ logs_of w' = logs_of w
    /\ pending w' = pending w
    /\ cycle_blocks patientId (contacts_for patientId w) None
         (fired_legacy patientId w) ns.
Proof.
  unfold Legacy.detectMissedDoses, fired_legacy, bind, Legacy.new_Date, getStore.
  cbn [storage].
  match goal with
  | |- context [Legacy.forEach_push (Legacy.scan_dose _ _ ?p ?now ?pat ?meds ?al) ?l ?w0] =>
      destruct (forEach_scan_doses p now pat meds al l w0)
        as (ns & w1 & -> & Hq & Hb)
  end.
  destruct Hq as (Hs & Hm & Ht & Hp). cbn [storage _mode ticks pending] in *.
  exists ns. destruct ns as [|n ns'].
  - cbn. exists w1. unfold inputs, notifs_of, logs_of.
    rewrite Hs, Hm, Hp, app_nil_r. repeat split. exact Hb.
  - cbn [length Nat.ltb Nat.leb]. unfold modifyStore, ret. eexists.
    split; [reflexivity|]. unfold inputs, notifs_of, logs_of. cbn.
    rewrite Hs, Hm, Hp. repeat split. exact Hb.
Qed.

(** *** The dedup set *)

(** An id drawn by [uuid] is never empty, so a dose created with one is
    kept by the dedup set. *)
Lemma uuid_truthy (w : world) : truthy (fst (uuid w)) = true.
Proof. reflexivity. Qed.

Lemma elem_of_already_notified (i : string) (ns : list notification) :
  i ∈ already_notified ns
  <-> exists n, In n ns /\ n_doseId n = Some i /\ truthy i = true.
Proof.
  unfold already_notified. rewrite elem_of_list_to_set, list_elem_of_In, in_map_iff.
  split.
  - intros (n & Hi & Hn). apply List.filter_In in Hn as [Hn Ht].
    exists n. destruct (n_doseId n) as [j|]; [|discriminate].
    cbn in *. subst j. auto.
  - intros (n & Hn & Hd & Ht). exists n. rewrite Hd. split; [reflexivity|].
    apply List.filter_In. rewrite Hd. auto.
Qed.

Lemma already_notified_mono (i : string) (ns more : list notification) :
  i ∈ already_notified ns -> i ∈ already_notified (ns ++ more)%list.
Proof.
  rewrite !elem_of_already_notified. intros (n & Hn & H). exists n.
  split; [apply in_or_app; now left|exact H].
Qed.

(** Every fired dose has its missed-dose entry among the new
    notifications, and every new notification is of the patient. *)
Lemma cycle_blocks_covers (patientId : string) (contacts : list contact)
      (caregiver : option user) (ds : list dose) (ns : list notification) (d : dose) :
  cycle_blocks patientId contacts caregiver ds ns -> In d ds ->
  exists n, In n ns /\ n_type n = MISSED_DOSE /\ n_doseId n = Some (d_id d)
            /\ n_patientId n = patientId.
Proof.
  revert ns. induction ds as [|d0 ds IH]; intros ns; cbn [cycle_blocks]; [easy|].
  intros (b & rest & -> & Hb & Hrest) [<-|Hin].
  - destruct Hb as (m & sms & cgn & -> & Hm & _ & _ & Hall).
    inversion Hall as [|? ? (Hd & Hp & _) _]; subst.
    exists m. split; [now left|]. auto.
  - destruct (IH rest Hrest Hin) as (n & Hn & H). exists n.
    split; [apply in_or_app; now right|exact H].
Qed.

Lemma cycle_blocks_patient (patientId : string) (contacts : list contact)
      (caregiver : option user) (ds : list dose) (ns : list notification) :
  cycle_blocks patientId contacts caregiver ds ns ->
  Forall (fun n => n_patientId n = patientId) ns.
Proof.
  revert ns. induction ds as [|d0 ds IH]; intros ns; cbn [cycle_blocks].
  - intros ->. constructor.
  - intros (b & rest & -> & Hb & Hrest). apply Forall_app. split; [|now apply IH].
    destruct Hb as (_ & _ & _ & _ & _ & _ & _ & Hall).
    eapply Forall_impl; [exact Hall|]. cbn. tauto.
Qed.

(** The types of the notifications of one cycle, in order. *)
Lemma cycle_block_types (patientId : string) (contacts : list contact)
      (caregiver : option user) (d : dose) (b : list notification) :
  cycle_block patientId contacts caregiver d b ->
  List.map n_type b
  = (MISSED_DOSE :: repeat SMS_SENT (length contacts)
     ++ List.map (fun _ => CAREGIVER_ALERT) (maybe_list caregiver))%list.
Proof.
  intros (m & sms & cgn & -> & Hm & Hsms & Hcg & _).
  cbn [List.map]. rewrite Hm, List.map_app. f_equal. f_equal.
  - clear -Hsms. induction Hsms as [|c n cs ns [Ht _] _ IH]; [reflexivity|].
    cbn. now rewrite Ht, IH.
  - destruct caregiver; [destruct Hcg as (n & -> & Hn); cbn; now rewrite Hn|].
    now subst cgn.
Qed.

(** *** The event loop and the audit trail *)

Lemma run_callback_frame (cb : callback) (w : world) :
  logs_of (snd (run_callback cb w)) = logs_of w
  /\ pending (snd (run_callback cb w)) = pending w
  /\ notifs_of (snd (run_callback cb w)) = notifs_of w.
Proof.
  destruct cb as [contactId nowIso|]; [|repeat split].
  unfold run_callback, bind, getStore.
  destruct (list_find (fun c => c_id c = contactId)
                      (ah_emergency_contacts (storage w))) as [[idx c]|];
    repeat split.
Qed.

Lemma send_finish_frame (branch : string) (o : transport) (to body : string)
      (meta : send_meta) (w : world) :
  pending (snd (send_finish branch o to body meta w)) = pending w
  /\ notifs_of (snd (send_finish branch o to body meta w)) = notifs_of w
  /\ exists e, logs_of (snd (send_finish branch o to body meta w)) = e :: logs_of w.
Proof.
  unfold send_finish, bind, getMode.
  match goal with
  | |- context [log_attempt to body meta ?r w] =>
      destruct (log_attempt_grows to body meta r w) as (_ & Hn & Hp & e & He);
      destruct (log_attempt to body meta r w) as [[] w']
  end.
  cbn in *. repeat split; eauto.
Qed.

(** What running one task does to the queue and to the trail. *)
Lemma run_task_effect (o : transport) (t : task) (q : list task) (w : world) :
  exists (new : list alert_log) (added : list task),
    logs_of (snd (run_task o t (set_pending q w))) = (new ++ logs_of w)%list
    /\ pending (snd (run_task o t (set_pending q w))) = (q ++ added)%list
    /\ inflight added = O
    /\ length new = inflight [t]
    /\ (length added <= inflight [t])%nat
    /\ notifs_of (snd (run_task o t (set_pending q w))) = notifs_of w.
Proof.
  destruct t as [branch to body meta cb|cb r]; cbn [run_task].
  - unfold bind.
    destruct (send_finish_frame branch o to body meta (set_pending q w))
      as (Hp & Hn & e & He).
    destruct (send_finish branch o to body meta (set_pending q w)) as [r w1].
    cbn [fst snd] in *. exists [e].
    destruct cb as [c|]; cbn.
    + exists [Reaction c r]. unfold logs_of, notifs_of in *. cbn.
      rewrite Hp. repeat split; auto.
    + exists []. rewrite app_nil_r. repeat split; auto.
  - destruct (run_callback_frame cb (set_pending q w)) as (Hl & Hp & Hn).
    exists [], []. rewrite app_nil_r. repeat split; auto.
Qed.

Lemma step_effect (w w' : world) :
  step w w' ->
  exists new : list alert_log,
    logs_of w' = (new ++ logs_of w)%list
    /\ (length new + inflight (pending w') = inflight (pending w))%nat
    /\ notifs_of w' = notifs_of w.
Proof.
  intros [w0 pre post t o Hq].
  destruct (run_task_effect o t (pre ++ post)%list w0)
    as (new & added & Hl & Hp & Ha & Hn & _ & Hf).
  exists new. rewrite Hl, Hp, Hq, !inflight_app, Ha.
  change (t :: post) with ([t] ++ post)%list. rewrite inflight_app.
  repeat split; [lia|exact Hf].
Qed.

Lemma steps_effect (w w' : world) :
  steps w w' ->
  exists new : list alert_log,
    logs_of w' = (new ++ logs_of w)%list
    /\ (length new + inflight (pending w') = inflight (pending w))%nat
    /\ notifs_of w' = notifs_of w.
Proof.
  induction 1 as [w|w1 w2 w3 Hs _ IH].
  - exists []. repeat split.
  - destruct (step_effect _ _ Hs) as (n1 & Hl1 & Hk1 & Hn1).
    destruct IH as (n2 & Hl2 & Hk2 & Hn2).
    exists (n2 ++ n1)%list. rewrite Hl2, Hl1, <- app_assoc, length_app.
    repeat split; [lia|congruence].
Qed.

Lemma drain_steps (net : transport) (fuel : nat) (w : world) :
  steps w (drain net fuel w).
Proof.
  revert w. induction fuel as [|fuel IH]; intros w; cbn [drain]; [constructor|].
  destruct (pending w) as [|t q] eqn:Hq; [constructor|].
  eapply steps_cons; [|apply IH].
  exact (step_task w [] q t net Hq).
Qed.

(** Enough fuel empties the queue: a send in flight needs two turns (its
    resumption and its callback), a settled callback one. *)
Lemma drain_empties (net : transport) (fuel : nat) (w : world) :
  (length (pending w) + inflight (pending w) <= fuel)%nat ->
  pending (drain net fuel w) = [].
Proof.
  revert w. induction fuel as [|fuel IH]; intros w Hm; cbn [drain].
  - destruct (pending w); [reflexivity|cbn in Hm; lia].
  - destruct (pending w) as [|t q] eqn:Hq; [exact Hq|].
    apply IH.
    destruct (run_task_effect net t q w) as (new & added & _ & Hp & Ha & _ & Hlen & _).
    rewrite Hp, length_app, inflight_app, Ha.
    change (t :: q) with ([t] ++ q)%list in Hm.
    rewrite length_app, inflight_app in Hm. cbn [length] in Hm. lia.
Qed.

(** *** Which doses fire *)

Lemma filter_nil_iff {A : Type} (f : A -> bool) (l : list A) :
  List.filter f l = [] <-> (forall x, In x l -> f x = false).
Proof.
  induction l as [|a l IH]; cbn; [tauto|].
  destruct (f a) eqn:E; split.
  - discriminate.
  - intros H. specialize (H a (or_introl eq_refl)). congruence.
  - intros H x [<-|Hx]; [exact E|]. now apply IH.
  - intros H. apply IH. intros x Hx. apply H. now right.
Qed.

Lemma fired_in (patientId : string) (w : world) (d : dose) :
  In d (fired patientId w)
  <-> is_Some (patient_of patientId w)
      /\ In d (ah_doses (storage w)) /\ eligible patientId d = true
      /\ fires (clock (ticks w)) (ah_medications (storage w))
               (already_notified (notifs_of w)) d = true.
Proof.
  unfold fired. destruct (patient_of patientId w) as [pt|].
  - rewrite !List.filter_In. split; [intros ((H1 & H2) & H3); eauto 6|].
    intros (_ & H1 & H2 & H3). auto.
  - split; [intros []|]. intros ([? [=]] & _).
Qed.

Lemma fired_legacy_in (patientId : string) (w : world) (d : dose) :
  In d (fired_legacy patientId w)
  <-> In d (ah_doses (storage w)) /\ eligible patientId d = true
      /\ fires_legacy (clock (ticks w)) (ah_medications (storage w))
                      (already_notified (notifs_of w)) d = true.
Proof. unfold fired_legacy. rewrite !List.filter_In. tauto. Qed.

Lemma overdue_instant (now t : Z) (d : dose) :
  d_scheduledTime d = Instant t ->
  overdue now d = true <-> thresholdMs <= now - t.
Proof.
  intros Hs. unfold overdue. rewrite Hs. cbn.
  rewrite negb_true_iff, Z.ltb_ge. reflexivity.
Qed.

Lemma overdue_not_instant (now : Z) (d : dose) :
  (forall t, d_scheduledTime d <> Instant t) -> overdue now d = true.
Proof.
  intros Hs. unfold overdue. destruct (d_scheduledTime d) as [| |t]; try reflexivity.
  now destruct (Hs t).
Qed.

Lemma num_ge_instant (now : Z) (d : dose) :
  num_ge (num_sub now (getTime (d_scheduledTime d))) thresholdMs = true
  <-> exists t, d_scheduledTime d = Instant t /\ thresholdMs <= now - t.
Proof.
  destruct (d_scheduledTime d) as [| |t]; cbn.
  - split; [discriminate|]. intros (t & [=] & _).
  - split; [discriminate|]. intros (t & [=] & _).
  - rewrite Z.leb_le. split; [eauto|]. now intros (t' & [= ->] & H).
Qed.

Lemma legacy_nothing_fired (patientId : string) (w : world) :
  fired_legacy patientId w = [] ->
  Legacy.detectMissedDoses rand clock fmtTime patientId w = (O, tick w).
Proof.
  intros Hf. unfold Legacy.detectMissedDoses, bind, Legacy.new_Date, getStore.
  cbn [storage]. unfold fired_legacy in Hf.
  match goal with
  | |- context [Legacy.forEach_push ?f ?l ?w0] =>
      assert (Hloop : Legacy.forEach_push f l w0 = ([], w0))
  end.
  { revert Hf. unfold notifs_of.
    generalize (List.filter (eligible patientId) (ah_doses (storage w))) as l.
    induction l as [|d l IH]; [reflexivity|]. cbn [List.filter Legacy.forEach_push].
    match goal with |- context [fires_legacy ?a ?b ?c d] =>
      destruct (fires_legacy a b c d) eqn:Hd end; [discriminate|].
    intros Hl. unfold bind. rewrite (scan_dose_skips _ _ _ _ _ _ _ Hd), (IH Hl).
    reflexivity. }
  rewrite Hloop. reflexivity.
Qed.

(** C1: a second scan, made while the users, medications, doses and the
    feed are as the first scan left them and before any dose crosses
    the threshold, fires nothing: it returns 0 and changes no store.
    The reason is the one the claim gives: the dedup set is rebuilt from
    the feed, and every dose the first scan fired has a notification
    carrying its id there.  Both variants. *)
Theorem detect_idempotent (patientId : string) (w w1 : world) :
  Forall (fun d => truthy (d_id d) = true) (ah_doses (storage w)) ->
  same_scan_inputs w w1 ->
  no_crossing w (clock (ticks w)) (clock (ticks w1)) ->
  (notifs_of w1 = notifs_of (snd (detectMissedDoses patientId w)) ->
   (forall d, In d (fired patientId w) -> d_id d ∈ already_notified (notifs_of w1))
   /\ detectMissedDoses patientId w1 = (O, tick w1))
  /\ (notifs_of w1
      = notifs_of (snd (Legacy.detectMissedDoses rand clock fmtTime patientId w)) ->
      (forall d, In d (fired_legacy patientId w) ->
                 d_id d ∈ already_notified (notifs_of w1))
      /\ Legacy.detectMissedDoses rand clock fmtTime patientId w1 = (O, tick w1)).
Proof.
  intros Hwf (Hu & Hm & Hd) Hcross. rewrite List.Forall_forall in Hwf. split.
  - intros Hn.
    destruct (detect_spec patientId w) as (ns & w' & E & Hg & Hb).
    rewrite E in Hn. cbn [snd] in Hn.
    destruct Hg as (_ & Hn' & _). rewrite Hn' in Hn.
    change (notifs_of (tick w)) with (notifs_of w) in Hn.
    assert (Hcov : forall d, In d (fired patientId w) ->
                             d_id d ∈ already_notified (notifs_of w1)).
    { intros d Hin. destruct (cycle_blocks_covers _ _ _ _ _ d Hb Hin)
        as (n & Hin' & _ & Hid & _).
      apply elem_of_already_notified. exists n. rewrite Hn.
      split; [apply in_or_app; now right|]. split; [exact Hid|].
      apply Hwf. now apply fired_in in Hin. }
    split; [exact Hcov|]. apply detect_nothing_fired.
    unfold fired. unfold patient_of at 1. rewrite Hu. fold (patient_of patientId w).
    destruct (patient_of patientId w) as [pt|] eqn:Hp; [|reflexivity].
    apply filter_nil_iff. intros d Hin. apply List.filter_In in Hin as [Hin Hel].
    rewrite Hd in Hin. rewrite Hm.
    destruct (fires (clock (ticks w1)) (ah_medications (storage w))
                    (already_notified (notifs_of w1)) d) eqn:Hf; [|reflexivity].
    exfalso. unfold fires in Hf.
    apply andb_true_iff in Hf as [Hf Hmed]. apply andb_true_iff in Hf as [Hov Hnot].
    apply negb_true_iff in Hnot. rewrite bool_decide_eq_false in Hnot.
    apply Hnot, Hcov, fired_in. rewrite Hp. split; [eauto|]. split; [exact Hin|].
    split; [exact Hel|]. unfold fires. rewrite Hmed, andb_true_r.
    apply andb_true_iff. split.
    + destruct (d_scheduledTime d) as [| |t] eqn:Hs;
        try (apply overdue_not_instant; congruence).
      apply (overdue_instant _ t d Hs). apply (overdue_instant _ t d Hs) in Hov.
      exact (Hcross d t Hin Hs Hov).
    + apply negb_true_iff, bool_decide_eq_false. intros Hal. apply Hnot.
      rewrite Hn. now apply already_notified_mono.
  - intros Hn.
    destruct (legacy_detect_spec patientId w) as (ns & w' & E & _ & Hn' & _ & _ & Hb).
    rewrite E in Hn. cbn [snd] in Hn. rewrite Hn' in Hn.
    assert (Hcov : forall d, In d (fired_legacy patientId w) ->
                             d_id d ∈ already_notified (notifs_of w1)).
    { intros d Hin. destruct (cycle_blocks_covers _ _ _ _ _ d Hb Hin)
        as (n & Hin' & _ & Hid & _).
      apply elem_of_already_notified. exists n. rewrite Hn.
      split; [apply in_or_app; now right|]. split; [exact Hid|].
      apply Hwf. now apply fired_legacy_in in Hin. }
    split; [exact Hcov|]. apply legacy_nothing_fired.
    unfold fired_legacy.
    apply filter_nil_iff. intros d Hin. apply List.filter_In in Hin as [Hin Hel].
    rewrite Hd in Hin. rewrite Hm.
    destruct (fires_legacy (clock (ticks w1)) (ah_medications (storage w))
                           (already_notified (notifs_of w1)) d) eqn:Hf; [|reflexivity].
    exfalso. unfold fires_legacy in Hf.
    apply andb_true_iff in Hf as [Hf Hmed]. apply andb_true_iff in Hf as [Hov Hnot].
    apply negb_true_iff in Hnot. rewrite bool_decide_eq_false in Hnot.
    apply Hnot, Hcov, fired_legacy_in. split; [exact Hin|].
    split; [exact Hel|]. unfold fires_legacy. rewrite Hmed, andb_true_r.
    apply andb_true_iff. split.
    + apply num_ge_instant in Hov as (t & Hs & Hov). apply num_ge_instant.
      exists t. split; [exact Hs|]. exact (Hcross d t Hin Hs Hov).
    + apply negb_true_iff, bool_decide_eq_false. intros Hal. apply Hnot.
      rewrite Hn. now apply already_notified_mono.
Qed.

(** C2, amended: for a dose of the patient that is not taken, has a
    valid scheduled instant, is not in the dedup set and whose
    medication is still in the medication store, the scan fires an
    alert cycle iff now - scheduledTime >= 30 minutes (in the current
    engine the patient must also be a known user); at one millisecond
    short of the threshold there is no alert, at the threshold there is
    one.  The doses that fire are the ones whose blocks the scan appends
    to the feed. *)
Theorem threshold_boundary (patientId : string) (w : world) (d : dose) (t : Z) :
  In d (ah_doses (storage w)) ->
  d_patientId d = patientId ->
  d_takenAt d = None ->
  d_scheduledTime d = Instant t ->
  d_id d ∉ already_notified (notifs_of w) ->
  is_Some (med_of (ah_medications (storage w)) d) ->
  thresholdMs = 30 * 60 * 1000
  /\ (is_Some (patient_of patientId w) ->
      (In d (fired patientId w) <-> thresholdMs <= clock (ticks w) - t))
  /\ (In d (fired_legacy patientId w) <-> thresholdMs <= clock (ticks w) - t)
  /\ (clock (ticks w) - t = thresholdMs - 1 ->
      ~ In d (fired patientId w) /\ ~ In d (fired_legacy patientId w))
  /\ (clock (ticks w) - t = thresholdMs ->
      (is_Some (patient_of patientId w) -> In d (fired patientId w))
      /\ In d (fired_legacy patientId w))
  /\ (exists ns w',
        detectMissedDoses patientId w = (length (fired patientId w), w')
        /\ notifs_of w' = (notifs_of w ++ ns)%list
        /\ cycle_blocks patientId (contacts_for patientId w)
             (caregiver_for patientId w) (fired patientId w) ns)
  /\ (exists ns w',
        Legacy.detectMissedDoses rand clock fmtTime patientId w = (length ns, w')
        /\ notifs_of w' = (notifs_of w ++ ns)%list
        /\ cycle_blocks patientId (contacts_for patientId w) None
             (fired_legacy patientId w) ns).
Proof.
  intros Hin Hp Hta Hs Hnot Hmed.
  assert (Hel : eligible patientId d = true).
  { unfold eligible. rewrite Hp, eqs_refl, Hta, Hs. reflexivity. }
  assert (Hnb : negb (bool_decide (d_id d ∈ already_notified (notifs_of w))) = true).
  { apply negb_true_iff, bool_decide_eq_false. exact Hnot. }
  assert (Hmb : bool_decide (is_Some (med_of (ah_medications (storage w)) d)) = true).
  { apply bool_decide_eq_true. exact Hmed. }
  assert (H3 : is_Some (patient_of patientId w) ->
               (In d (fired patientId w) <-> thresholdMs <= clock (ticks w) - t)).
  { intros Hpt. rewrite fired_in. unfold fires. rewrite Hnb, Hmb, !andb_true_r.
    rewrite (overdue_instant _ t d Hs). tauto. }
  assert (HL : In d (fired_legacy patientId w) <-> thresholdMs <= clock (ticks w) - t).
  { rewrite fired_legacy_in. unfold fires_legacy. rewrite Hnb, Hmb, !andb_true_r.
    rewrite num_ge_instant. split.
    - intros (_ & _ & t' & Ht' & H). congruence.
    - intros H. eauto. }
  split; [reflexivity|]. split; [exact H3|]. split; [exact HL|]. split; [|split; [|split]].
  - intros Hc. split.
    + intros Hf. assert (Hpt : is_Some (patient_of patientId w))
        by (now apply fired_in in Hf).
      apply (H3 Hpt) in Hf. lia.
    + intros Hf. apply HL in Hf. lia.
  - intros Hc. split.
    + intros Hpt. apply (H3 Hpt). lia.
    + apply HL. lia.
  - destruct (detect_spec patientId w) as (ns & w' & E & (_ & Hn & _) & Hb).
    exists ns, w'. auto.
  - destruct (legacy_detect_spec patientId w) as (ns & w' & E & _ & Hn & _ & _ & Hb).
    exists ns, w'. auto.
Qed.

(** C3: with N contacts and an assigned caregiver, a scan in which
    exactly one dose fires returns 1 and appends to the feed one
    [missed_dose], N [sms_sent] and one [caregiver_alert] notification,
    all for that dose; the audit trail gains exactly N+1 rows: at once
    outside the provider modes, and in every run of the event loop that
    settles the sends otherwise (such runs exist). *)
Theorem fan_out_complete (patientId : string) (w : world) (d : dose) (cg : user) :
  caregiver_for patientId w = Some cg ->
  fired patientId w = [d] ->
  inflight (pending w) = O ->
  exists (ns : list notification) (w' : world),
    detectMissedDoses patientId w = (1%nat, w')
    /\ notifs_of w' = (notifs_of w ++ ns)%list
    /\ List.map n_type ns
       = (MISSED_DOSE :: repeat SMS_SENT (length (contacts_for patientId w))
          ++ [CAREGIVER_ALERT])%list
    /\ Forall (fun n => n_doseId n = Some (d_id d) /\ n_patientId n = patientId) ns
    /\ (provider_mode (_mode w) = false ->
        exists new, logs_of w' = (new ++ logs_of w)%list
                    /\ length new = (length (contacts_for patientId w) + 1)%nat)
    /\ (forall w2, steps w' w2 -> pending w2 = [] ->
        exists new, logs_of w2 = (new ++ logs_of w)%list
                    /\ length new = (length (contacts_for patientId w) + 1)%nat)
    /\ (forall net : transport,
          let w2 := drain net (length (pending w') + inflight (pending w')) w' in
          steps w' w2 /\ pending w2 = []).
Proof.
  intros Hcg Hf Hq.
  destruct (detect_spec patientId w) as (ns & w' & E & Hg & Hb).
  rewrite Hf, Hcg in *. cbn [length] in E.
  destruct Hg as (_ & Hn & new & added & Hl & Hp & Hk & Hm).
  change (notifs_of (tick w)) with (notifs_of w) in Hn.
  change (logs_of (tick w)) with (logs_of w) in Hl.
  change (pending (tick w)) with (pending w) in Hp.
  change (_mode (tick w)) with (_mode w) in Hm.
  unfold sends_per_cycle in Hk. cbn [maybe_list length] in Hk.
  cbn [cycle_blocks] in Hb. destruct Hb as (b & rest & -> & Hb & ->).
  rewrite app_nil_r in *.
  exists b, w'. split; [exact E|]. split; [exact Hn|]. split.
  { now rewrite (cycle_block_types _ _ _ _ _ Hb). }
  split.
  { destruct Hb as (_ & _ & _ & _ & _ & _ & _ & Hall).
    eapply Forall_impl; [exact Hall|]. cbn. tauto. }
  split.
  { intros Hmode. exists new. split; [exact Hl|]. rewrite (Hm Hmode) in Hk. lia. }
  split.
  - intros w2 Hsteps Hdone.
    destruct (steps_effect _ _ Hsteps) as (new2 & Hl2 & Hk2 & _).
    rewrite Hdone in Hk2. cbn in Hk2.
    rewrite Hp, inflight_app, Hq in Hk2.
    exists (new2 ++ new)%list. rewrite Hl2, Hl, <- app_assoc, length_app.
    split; [reflexivity|lia].
  - intros net w2. subst w2.
    split; [apply drain_steps|]. now apply drain_empties.
Qed.

Lemma NoDup_map_filter {A B : Type} (f : A -> B) (g : A -> bool) (l : list A) :
  List.NoDup (List.map f l) -> List.NoDup (List.map f (List.filter g l)).
Proof.
  induction l as [|a l IH]; [auto|]. cbn [List.map List.filter].
  intros Hnd. apply List.NoDup_cons_iff in Hnd as [Hnot Hnd].
  destruct (g a); cbn [List.map]; [|now apply IH].
  apply List.NoDup_cons; [|now apply IH].
  intros Hin. apply Hnot. apply in_map_iff in Hin as (x & Hx & Hin).
  apply List.filter_In in Hin as [Hin _]. apply in_map_iff. eauto.
Qed.

(** C4, amended: the current engine returns the number of doses that
    fired in this call (of distinct doses, when the stored doses have
    distinct ids), whatever the number of notifications it appended;
    the earlier engine returns the number of notifications it appended,
    one plus the number of the patient's contacts for every dose that
    fired. *)
Theorem detect_return_value :
  (forall patientId w,
     fst (detectMissedDoses patientId w) = length (fired patientId w))
  /\ (forall patientId w,
        List.NoDup (List.map d_id (ah_doses (storage w))) ->
        List.NoDup (List.map d_id (fired patientId w)))
  /\ (forall patientId w,
        length (notifs_of (snd (detectMissedDoses patientId w)))
        = (length (notifs_of w)
           + length (fired patientId w)
             * (1 + length (contacts_for patientId w)
                + length (maybe_list (caregiver_for patientId w))))%nat)
  /\ (forall patientId w,
        fst (Legacy.detectMissedDoses rand clock fmtTime patientId w)
        = (length (fired_legacy patientId w)
           * (1 + length (contacts_for patientId w)))%nat
        /\ length (notifs_of
                     (snd (Legacy.detectMissedDoses rand clock fmtTime patientId w)))
           = (length (notifs_of w)
              + fst (Legacy.detectMissedDoses rand clock fmtTime patientId w))%nat).
Proof.
  split; [|split; [|split]].
  - intros p w. destruct (detect_spec p w) as (ns & w' & -> & _). reflexivity.
  - intros p w Hnd. unfold fired. destruct (patient_of p w); [|constructor].
    now do 2 apply NoDup_map_filter.
  - intros p w. destruct (detect_spec p w) as (ns & w' & -> & (_ & Hn & _) & Hb).
    cbn [snd]. rewrite Hn, length_app, (cycle_blocks_length _ _ _ _ _ Hb).
    reflexivity.
  - intros p w.
    destruct (legacy_detect_spec p w) as (ns & w' & -> & _ & Hn & _ & _ & Hb).
    cbn [fst snd]. rewrite Hn, length_app, (cycle_blocks_length _ _ _ _ _ Hb).
    cbn [maybe_list length]. split; lia.
Qed.

(** C5, amended: in the current engine a [patientId] that names no user
    makes the scan return 0 with every store as it was (only the clock
    has been read).  The earlier engine makes no such check: it scans
    the doses filed under that id all the same and returns the number
    of notifications it appended to the feed; the audit trail and the
    contact store are untouched. *)
Theorem unknown_patient :
  (forall patientId w,
     patient_of patientId w = None ->
     detectMissedDoses patientId w = (O, tick w)
     /\ storage (snd (detectMissedDoses patientId w)) = storage w
     /\ pending (snd (detectMissedDoses patientId w)) = pending w)
  /\ (forall patientId w,
        exists ns w',
          Legacy.detectMissedDoses rand clock fmtTime patientId w = (length ns, w')
          /\ length ns
             = (length (fired_legacy patientId w)
                * (1 + length (contacts_for patientId w)))%nat
          /\ notifs_of w' = (notifs_of w ++ ns)%list
          /\ logs_of w' = logs_of w
          /\ contacts_of w' = contacts_of w).
Proof.
  split.
  - intros p w Hp. rewrite (detect_not_found p w Hp). repeat split.
  - intros p w.
    destruct (legacy_detect_spec p w) as (ns & w' & E & Hi & Hn & Hl & _ & Hb).
    exists ns, w'. split; [exact E|].
    rewrite (cycle_blocks_length _ _ _ _ _ Hb). cbn [maybe_list length].
    split; [lia|]. split; [exact Hn|]. split; [exact Hl|].
    unfold inputs in Hi. unfold contacts_of. congruence.
Qed.

(** C10: after [clearAllNotifications] a dose that the detector had
    already fired, and that is still untaken with its medication in
    place, fires again at the next scan: the feed gets a new missed-dose
    entry for it and the gateway is invoked again for every contact and
    the caregiver. *)
Theorem clear_all_rearms (patientId : string) (w w1 : world) (d : dose) :
  In d (fired patientId w) ->
  same_scan_inputs w w1 ->
  notifs_of w1 = notifs_of (snd (detectMissedDoses patientId w)) ->
  clock (ticks w) <= clock (ticks w1) ->
  let wc := snd (clearAllNotifications patientId w1) in
  In d (fired patientId wc)
  /\ exists (ns : list notification) (w' : world),
       detectMissedDoses patientId wc = (length (fired patientId wc), w')
       /\ (1 <= length (fired patientId wc))%nat
       /\ grows (tick wc) w' ns
            (length (fired patientId wc)
             * sends_per_cycle (contacts_for patientId wc) (caregiver_for patientId wc))
       /\ exists n, In n ns /\ n_type n = MISSED_DOSE /\ n_doseId n = Some (d_id d).
Proof.
  intros Hin (Hu & Hm & Hd) Hn Hclock wc.
  assert (Hfired : In d (fired patientId wc)).
  { destruct (detect_spec patientId w) as (ns & w' & E & (_ & Hn' & _) & Hb).
    rewrite E in Hn. cbn [snd] in Hn. rewrite Hn' in Hn.
    change (notifs_of (tick w)) with (notifs_of w) in Hn.
    apply fired_in in Hin as (Hpt & Hind & Hel & Hf).
    apply fired_in. subst wc. unfold clearAllNotifications, modifyStore.
    cbn [snd]. unfold patient_of, notifs_of. cbn.
    rewrite Hu, Hm, Hd. fold (patient_of patientId w).
    split; [exact Hpt|]. split; [exact Hind|]. split; [exact Hel|].
    unfold fires in *.
    apply andb_true_iff in Hf as [Hf Hmed]. apply andb_true_iff in Hf as [Hov Hnot].
    rewrite Hmed, andb_true_r. apply andb_true_iff. split.
    - destruct (d_scheduledTime d) as [| |t] eqn:Hs;
        try (apply overdue_not_instant; congruence).
      apply (overdue_instant _ t d Hs). apply (overdue_instant _ t d Hs) in Hov. lia.
    - apply negb_true_iff, bool_decide_eq_false.
      apply negb_true_iff in Hnot. rewrite bool_decide_eq_false in Hnot.
      intros Hal. apply Hnot.
      apply elem_of_already_notified in Hal as (n & Hn1 & Hid & Ht).
      apply List.filter_In in Hn1 as [Hn1 Hpn].
      fold (notifs_of w1) in Hn1. rewrite Hn in Hn1.
      apply in_app_or in Hn1 as [Hn1|Hn1].
      + apply elem_of_already_notified. eauto.
      + exfalso. pose proof (cycle_blocks_patient _ _ _ _ _ Hb) as Hall.
        rewrite List.Forall_forall in Hall. rewrite (Hall n Hn1), eqs_refl in Hpn.
        discriminate. }
  split; [exact Hfired|].
  destruct (detect_spec patientId wc) as (ns & w' & E & Hg & Hb).
  exists ns, w'. split; [exact E|]. split.
  - destruct (fired patientId wc); [destruct Hfired|cbn; lia].
  - split; [exact Hg|].
    destruct (cycle_blocks_covers _ _ _ _ _ d Hb Hfired) as (n & H1 & H2 & H3 & _).
    eauto.
Qed.

(** ** The notification feed: reading and clearing *)

Lemma getUnreadCount_unread_in (patientId : string) (w : world) :
  getUnreadCount patientId w = (length (unread_in patientId (notifs_of w)), w).
Proof. reflexivity. Qed.

Lemma already_notified_map (f : notification -> notification)
      (ns : list notification) :
  (forall n, n_doseId (f n) = n_doseId n) ->
  already_notified (List.map f ns) = already_notified ns.
Proof.
  intros Hf. unfold already_notified. f_equal.
  induction ns as [|n ns IH]; [reflexivity|]. cbn [List.map List.filter].
  rewrite Hf. destruct (truthy_opt (n_doseId n)); cbn [List.map]; now rewrite ?Hf, IH.
Qed.

Lemma unread_in_app (p : string) (l1 l2 : list notification) :
  unread_in p (l1 ++ l2)%list = (unread_in p l1 ++ unread_in p l2)%list.
Proof. apply List.filter_app. Qed.

Lemma fired_feed_irrelevant (patientId : string) (w w' : world) :
  storage w' = set_notifications (notifs_of w') (storage w) ->
  ticks w' = ticks w ->
  already_notified (notifs_of w') = already_notified (notifs_of w) ->
  fired patientId w' = fired patientId w
  /\ fired_legacy patientId w' = fired_legacy patientId w.
Proof.
  intros Hs Ht Ha. unfold fired, fired_legacy, patient_of.
  rewrite Ha, Ht, Hs. split; reflexivity.
Qed.

(** The two maps and the filter of the feed operations. *)
Lemma unread_in_cons (p : string) (n : notification) (ns : list notification) :
  unread_in p (n :: ns)
  = if eqs (n_patientId n) p && negb (n_read n) then n :: unread_in p ns
    else unread_in p ns.
Proof. reflexivity. Qed.

Lemma map_fix {A : Type} (f : A -> A) (l : list A) :
  (forall x, In x l -> f x = x) -> List.map f l = l.
Proof.
  intros H. rewrite <- (List.map_id l) at 2. now apply List.map_ext_in.
Qed.

Lemma world_same_storage (w : world) :
  with_storage (set_notifications (ah_notifications (storage w))) w = w.
Proof. destruct w as [[] ? ? ? ?]; reflexivity. Qed.

(** [markAllRead] leaves the patient without unread notifications,
    changes nobody else's count, changes nothing but [read] flags, does
    nothing when repeated, and does not re-arm the detector: the dedup
    set, and with it the doses the next scan fires, are as before. *)
Theorem markAllRead_effect (patientId : string) (w : world) :
  let w' := snd (markAllRead patientId w) in
  fst (getUnreadCount patientId w') = O
  /\ (forall q, q <> patientId ->
        fst (getUnreadCount q w') = fst (getUnreadCount q w))
  /\ List.map (set_read true) (notifs_of w') = List.map (set_read true) (notifs_of w)
  /\ snd (markAllRead patientId w') = w'
  /\ already_notified (notifs_of w') = already_notified (notifs_of w)
  /\ (forall q, fired q w' = fired q w /\ fired_legacy q w' = fired_legacy q w).
Proof.
  intros w'.
  set (f := fun n => if eqs (n_patientId n) patientId then set_read true n else n).
  assert (Hn : notifs_of w' = List.map f (notifs_of w)) by reflexivity.
  assert (Hd : forall n, n_doseId (f n) = n_doseId n).
  { intros n. unfold f. now destruct (eqs (n_patientId n) patientId). }
  assert (Ha : already_notified (notifs_of w') = already_notified (notifs_of w)).
  { rewrite Hn. now apply already_notified_map. }
  rewrite !getUnreadCount_unread_in. cbn [fst].
  split; [|split; [|split; [|split; [|split]]]].
  - rewrite Hn. clear Hn Ha. induction (notifs_of w) as [|n ns IH]; [reflexivity|].
    cbn [List.map]. rewrite unread_in_cons. unfold f at 1 2.
    destruct (eqs (n_patientId n) patientId) eqn:E.
    + cbn [set_read n_patientId n_read]. rewrite E. exact IH.
    + rewrite E. exact IH.
  - intros q Hq. rewrite !getUnreadCount_unread_in. cbn [fst]. rewrite Hn. f_equal.
    clear Hn Ha.
    induction (notifs_of w) as [|n ns IH]; [reflexivity|].
    cbn [List.map]. rewrite !unread_in_cons, IH. unfold f.
    destruct (eqs (n_patientId n) patientId) eqn:E; [|reflexivity].
    apply eqs_eq in E. cbn [set_read n_patientId n_read]. rewrite E.
    assert (Hne : eqs patientId q = false) by (apply eqs_neq; congruence).
    now rewrite Hne.
  - rewrite Hn, List.map_map. apply List.map_ext. intros n. unfold f.
    now destruct (eqs (n_patientId n) patientId).
  - subst w'. unfold markAllRead, modifyStore. cbn [snd].
    unfold with_storage, set_notifications. cbn [storage ah_notifications ah_users
      ah_medications ah_doses ah_emergency_contacts ah_alert_logs
      ah_caregiver_assignment _mode draws ticks pending].
    fold f. do 2 f_equal. rewrite List.map_map. apply List.map_ext. intros n. unfold f.
    destruct (eqs (n_patientId n) patientId) eqn:E;
      cbn [set_read n_patientId]; now rewrite E.
  - exact Ha.
  - intros q. now apply fired_feed_irrelevant.
Qed.

(** [markOneRead] marks every notification that carries the id, in
    whatever patient's feed; an id that no unread notification carries
    leaves the store as it is; with distinct ids, marking an unread
    notification of a patient lowers that patient's unread count by
    exactly one; the dedup set is as before. *)
Theorem markOneRead_effect (notifId : string) (w : world) :
  let w' := snd (markOneRead notifId w) in
  ((forall n, In n (notifs_of w) -> n_id n = notifId -> n_read n = true) -> w' = w)
  /\ (forall n, In n (notifs_of w') -> n_id n = notifId -> n_read n = true)
  /\ (forall n patientId,
        List.NoDup (List.map n_id (notifs_of w)) ->
        In n (notifs_of w) -> n_id n = notifId -> n_patientId n = patientId ->
        n_read n = false ->
        S (fst (getUnreadCount patientId w')) = fst (getUnreadCount patientId w))
  /\ already_notified (notifs_of w') = already_notified (notifs_of w)
  /\ (forall q, fired q w' = fired q w /\ fired_legacy q w' = fired_legacy q w).
Proof.
  intros w'.
  set (f := fun n => if eqs (n_id n) notifId then set_read true n else n).
  assert (Hn : notifs_of w' = List.map f (notifs_of w)) by reflexivity.
  assert (Hd : forall n, n_doseId (f n) = n_doseId n).
  { intros n. unfold f. now destruct (eqs (n_id n) notifId). }
  assert (Ha : already_notified (notifs_of w') = already_notified (notifs_of w)).
  { rewrite Hn. now apply already_notified_map. }
  split; [|split; [|split; [|split]]].
  - intros Hall. subst w'. unfold markOneRead, modifyStore. cbn [snd]. fold f.
    unfold notifs_of in *. unfold with_storage at 1. cbv beta.
    rewrite (map_fix f (ah_notifications (storage w))); [apply world_same_storage|].
    intros n Hin. unfold f. destruct (eqs (n_id n) notifId) eqn:E; [|reflexivity].
    apply eqs_eq in E. specialize (Hall n Hin E). destruct n; cbn in *. now subst.
  - rewrite Hn. intros n Hin Hid. apply in_map_iff in Hin as (m & <- & _). unfold f in *.
    destruct (eqs (n_id m) notifId) eqn:E; [reflexivity|].
    apply eqs_neq in E. contradiction.
  - intros n p Hnd Hin Hid Hp Hr. rewrite !getUnreadCount_unread_in. cbn [fst].
    rewrite Hn. clear Hn Ha. induction (notifs_of w) as [|m ns IH]; [destruct Hin|].
    cbn [List.map] in *. apply List.NoDup_cons_iff in Hnd as [Hnot Hnd].
    rewrite !unread_in_cons. destruct Hin as [->|Hin].
    + unfold f at 1 2. rewrite Hid, eqs_refl.
      cbn [set_read n_patientId n_read]. rewrite Hp, eqs_refl, Hr. cbn [andb negb length].
      rewrite (map_fix f ns); [reflexivity|]. intros m Hm. unfold f.
      destruct (eqs (n_id m) notifId) eqn:E; [|reflexivity].
      apply eqs_eq in E. exfalso. apply Hnot. rewrite Hid, <- E. now apply in_map.
    + assert (Hm : f m = m).
      { unfold f. destruct (eqs (n_id m) notifId) eqn:E; [|reflexivity].
        apply eqs_eq in E. exfalso. apply Hnot. rewrite E, <- Hid. now apply in_map. }
      rewrite Hm. specialize (IH Hnd Hin).
      destruct (eqs (n_patientId m) p && negb (n_read m)); cbn [length]; lia.
  - exact Ha.
  - intros q. now apply fired_feed_irrelevant.
Qed.

(** [clearAllNotifications] drops exactly the patient's notifications;
    every other patient's feed is as before, order included; the
    patient's unread count is then 0 and nobody else's changes; the
    other stores, the audit trail among them, are untouched; a second
    clear changes nothing. *)
Theorem clearAllNotifications_effect (patientId : string) (w : world) :
  let w' := snd (clearAllNotifications patientId w) in
  (forall n, In n (notifs_of w') <-> In n (notifs_of w) /\ n_patientId n <> patientId)
  /\ fst (getUnreadCount patientId w') = O
  /\ (forall q, q <> patientId ->
        unread_in q (notifs_of w') = unread_in q (notifs_of w))
  /\ (forall q, q <> patientId ->
        List.filter (fun n => eqs (n_patientId n) q) (notifs_of w')
        = List.filter (fun n => eqs (n_patientId n) q) (notifs_of w))
  /\ inputs w' = inputs w /\ logs_of w' = logs_of w /\ pending w' = pending w
  /\ snd (clearAllNotifications patientId w') = w'.
Proof.
  intros w'.
  set (keep := fun n : notification => negb (eqs (n_patientId n) patientId)).
  assert (Hn : notifs_of w' = List.filter keep (notifs_of w)) by reflexivity.
  rewrite !getUnreadCount_unread_in. cbn [fst].
  split; [|split; [|split; [|split; [|split; [|split; [|split]]]]]]; try reflexivity.
  - intros n. rewrite Hn, List.filter_In. unfold keep.
    rewrite negb_true_iff, eqs_neq. tauto.
  - rewrite Hn. clear Hn. induction (notifs_of w) as [|n ns IH]; [reflexivity|].
    cbn [List.filter]. unfold keep at 1.
    destruct (eqs (n_patientId n) patientId) eqn:E; cbn [negb]; [exact IH|].
    rewrite unread_in_cons, E. exact IH.
  - intros q Hq. rewrite Hn. clear Hn.
    induction (notifs_of w) as [|n ns IH]; [reflexivity|].
    cbn [List.filter]. unfold keep at 1. rewrite unread_in_cons.
    destruct (eqs (n_patientId n) patientId) eqn:E; cbn [negb].
    + apply eqs_eq in E. rewrite E.
      assert (Hne : eqs patientId q = false) by (apply eqs_neq; congruence).
      rewrite Hne. exact IH.
    + rewrite unread_in_cons, IH. reflexivity.
  - intros q Hq. rewrite Hn. clear Hn.
    induction (notifs_of w) as [|n ns IH]; [reflexivity|].
    cbn [List.filter]. unfold keep at 1.
    destruct (eqs (n_patientId n) patientId) eqn:E; cbn [negb].
    + apply eqs_eq in E. rewrite E.
      assert (Hne : eqs patientId q = false) by (apply eqs_neq; congruence).
      rewrite Hne. exact IH.
    + cbn [List.filter]. now rewrite IH.
  - subst w'. unfold clearAllNotifications, modifyStore. cbn [snd].
    unfold with_storage, set_notifications. cbn [storage ah_notifications ah_users
      ah_medications ah_doses ah_emergency_contacts ah_alert_logs
      ah_caregiver_assignment _mode draws ticks pending].
    fold keep. do 2 f_equal.
    induction (ah_notifications (storage w)) as [|n ns IH]; [reflexivity|].
    cbn [List.filter]. destruct (keep n) eqn:E; [|exact IH].
    cbn [List.filter]. now rewrite E, IH.
Qed.

(** ** Trimming, and the validator on stored phones *)

Lemma trimStart_split (l : list ascii) :
  exists sp, l = (sp ++ trimStart l)%list /\ Forall (fun c => is_space c = true) sp.
Proof.
  induction l as [|c l (sp & Hl & Hsp)]; [exists []; split; [reflexivity|constructor]|].
  cbn [trimStart]. destruct (is_space c) eqn:E.
  - exists (c :: sp). split; [cbn; now rewrite <- Hl|now constructor].
  - exists []. split; [reflexivity|constructor].
Qed.

Lemma trimStart_no_lead (l : list ascii) : no_lead (trimStart l).
Proof.
  induction l as [|c l IH]; [exact I|]. cbn [trimStart].
  destruct (is_space c) eqn:E; [exact IH|exact E].
Qed.

Lemma trimStart_fix (l : list ascii) : no_lead l -> trimStart l = l.
Proof. destruct l as [|c l]; [reflexivity|]. cbn. now intros ->. Qed.

Lemma trimEnd_prefix (l : list ascii) :
  exists sp, l = (trimEnd l ++ sp)%list /\ Forall (fun c => is_space c = true) sp.
Proof.
  unfold trimEnd. destruct (trimStart_split (rev l)) as (sp & Hl & Hsp).
  exists (rev sp). split.
  - rewrite <- rev_app_distr, <- Hl. now rewrite rev_involutive.
  - apply List.Forall_forall. intros c Hc. apply in_rev in Hc.
    rewrite List.Forall_forall in Hsp. now apply Hsp.
Qed.

Lemma trimEnd_no_lead (l : list ascii) : no_lead l -> no_lead (trimEnd l).
Proof.
  intros Hl. destruct (trimEnd_prefix l) as (sp & Heq & _).
  destruct (trimEnd l) as [|c t]; [exact I|]. rewrite Heq in Hl. exact Hl.
Qed.

Lemma trimEnd_fix (l : list ascii) : no_lead (rev l) -> trimEnd l = l.
Proof. intros H. unfold trimEnd. rewrite (trimStart_fix _ H). apply rev_involutive. Qed.

Lemma trimEnd_no_trail (l : list ascii) : no_lead (rev (trimEnd l)).
Proof. unfold trimEnd. rewrite rev_involutive. apply trimStart_no_lead. Qed.

Lemma trim_chars_idem (l : list ascii) : trim_chars (trim_chars l) = trim_chars l.
Proof.
  unfold trim_chars at 1.
  rewrite (trimStart_fix (trim_chars l)).
  - apply trimEnd_fix. apply trimEnd_no_trail.
  - apply trimEnd_no_lead, trimStart_no_lead.
Qed.

Lemma trim_idem (s : string) : trim (trim s) = trim s.
Proof.
  unfold trim. now rewrite list_ascii_of_string_of_list_ascii, trim_chars_idem.
Qed.

(** [trim] is idempotent and leaves no white space at either end, and
    the validator does not see padding: a phone is accepted iff its
    trimmed form is, so the phone [addContact] stores is accepted
    again. *)
Theorem validatePhone_trim (s : string) :
  trim (trim s) = trim s
  /\ no_lead (list_ascii_of_string (trim s))
  /\ no_lead (rev (list_ascii_of_string (trim s)))
  /\ validatePhone (trim s) = validatePhone s.
Proof.
  split; [apply trim_idem|]. split; [|split].
  - unfold trim. rewrite list_ascii_of_string_of_list_ascii.
    apply trimEnd_no_lead, trimStart_no_lead.
  - unfold trim. rewrite list_ascii_of_string_of_list_ascii. apply trimEnd_no_trail.
  - unfold validatePhone. now rewrite trim_idem.
Qed.

Lemma addContact_valid_phones (patientId name relation phone : string)
      (isPrimary : bool) (w : world) :
  valid_phones (contacts_of w) ->
  valid_phones (contacts_of (snd (addContact patientId name relation phone isPrimary w))).
Proof.
  intros Hv. unfold addContact.
  destruct (negb (truthy (trim name)) || negb (truthy (trim phone))); [exact Hv|].
  destruct (negb (validatePhone phone)) eqn:Hp; [exact Hv|].
  apply negb_false_iff in Hp.
  unfold bind, getStore, uuid, new_Date, modifyStore, contacts_of, valid_phones in *.
  cbn [snd fst storage with_storage set_emergency_contacts ah_emergency_contacts].
  apply Forall_app. split.
  - destruct isPrimary; [|exact Hv].
    rewrite List.Forall_forall in *. intros c Hc.
    apply in_map_iff in Hc as (c0 & <- & Hc0). specialize (Hv c0 Hc0).
    destruct (eqs (c_patientId c0) patientId); exact Hv.
  - constructor; [|constructor]. cbn [c_phone].
    unfold validatePhone in *. now rewrite trim_idem.
Qed.

(** [addContact] keeps every stored phone acceptable to the validator;
    [updateContact] does so unless the fields carry an empty phone:
    the check is skipped for it, the update succeeds and the contact is
    stored with the empty phone. *)
Theorem valid_phones_preserved :
  (forall (patientId name relation phone : string) (isPrimary : bool) (w : world),
     valid_phones (contacts_of w) ->
     valid_phones
       (contacts_of (snd (addContact patientId name relation phone isPrimary w))))
  /\ (forall (contactId : string) (fields : contact_fields) (w : world),
        f_phone fields <> Some "" ->
        valid_phones (contacts_of w) ->
        valid_phones (contacts_of (snd (updateContact contactId fields w))))
  /\ (forall (contactId : string) (fields : contact_fields) (w : world),
        In contactId (List.map c_id (contacts_of w)) ->
        f_phone fields = Some "" ->
        ok (fst (updateContact contactId fields w)) = true
        /\ ~ valid_phones (contacts_of (snd (updateContact contactId fields w)))).
Proof.
  split; [exact addContact_valid_phones|]. split; cycle 1.
  { intros contactId fields w Hin Hph.
    assert (Hok : ok (fst (updateContact contactId fields w)) = true).
    { unfold updateContact, bind, getStore. cbn [fst snd].
      destruct (list_find (fun c => c_id c = contactId)
                          (ah_emergency_contacts (storage w))) as [[idx fd]|] eqn:Hf.
      - rewrite Hph. reflexivity.
      - apply list_find_None in Hf. rewrite List.Forall_forall in Hf.
        apply in_map_iff in Hin as (c & Hc & Hin). now destruct (Hf c Hin). }
    split; [exact Hok|]. intros Hv.
    apply updateContact_success in Hok as (pre & post & found & _ & _ & Hc).
    rewrite Hc in Hv. unfold valid_phones in Hv.
    assert (Hm : validatePhone (c_phone (merge_fields found fields (clock (ticks w))))
                 = true).
    { destruct (default false (f_isPrimary fields));
        apply Forall_app in Hv as [_ Hv]; now inversion Hv. }
    cbn [merge_fields c_phone] in Hm. rewrite Hph in Hm. discriminate Hm. }
  intros contactId fields w Hne Hv.
  destruct (ok (fst (updateContact contactId fields w))) eqn:Hok.
  - pose proof Hok as Hok'.
    apply updateContact_success in Hok as (pre & post & found & Hl & _ & ->).
    assert (Hphone : validatePhone (c_phone (merge_fields found fields (clock (ticks w))))
                     = true).
    { cbn [merge_fields c_phone]. unfold valid_phones in Hv. rewrite Hl in Hv.
      apply Forall_app in Hv as [_ Hv]. inversion Hv as [|? ? Hf _]; subst.
      destruct (f_phone fields) as [ph|] eqn:Hph; cbn [default from_option id];
        [|exact Hf].
      revert Hok'. unfold updateContact, bind, getStore.
      destruct (list_find (fun c => c_id c = contactId)
                          (ah_emergency_contacts (storage w))) as [[idx fd]|];
        [|discriminate].
      rewrite Hph. cbn [truthy_opt default from_option id].
      destruct (truthy ph) eqn:Ht.
      - destruct (validatePhone ph); [reflexivity|discriminate].
      - apply truthy_empty in Ht. congruence. }
    unfold valid_phones in *. rewrite Hl in Hv.
    apply Forall_app in Hv as [Hpre Hpost]. inversion Hpost as [|? ? _ Hpost']; subst.
    assert (Hdem : forall p l, Forall (fun c => validatePhone (c_phone c) = true) l ->
              Forall (fun c => validatePhone (c_phone c) = true)
                     (List.map (demote p) l)).
    { intros p l Hl'. rewrite List.Forall_forall in *. intros c Hc.
      apply in_map_iff in Hc as (c0 & <- & Hc0). specialize (Hl' c0 Hc0).
      unfold demote. destruct (eqs (c_patientId c0) p); exact Hl'. }
    destruct (default false (f_isPrimary fields));
      apply Forall_app; split; auto; constructor; auto.
  - apply updateContact_failure in Hok. now rewrite Hok.
Qed.

(** ** Contacts: removal, and the caregiver assignment *)

Lemma filter_comm {A : Type} (f g : A -> bool) (l : list A) :
  List.filter f (List.filter g l) = List.filter g (List.filter f l).
Proof.
  induction l as [|a l IH]; [reflexivity|]. cbn [List.filter].
  destruct (f a) eqn:Ef, (g a) eqn:Eg; cbn [List.filter];
    rewrite ?Ef, ?Eg, IH; reflexivity.
Qed.

Lemma filter_idem {A : Type} (f : A -> bool) (l : list A) :
  List.filter f (List.filter f l) = List.filter f l.
Proof.
  induction l as [|a l IH]; [reflexivity|]. cbn [List.filter].
  destruct (f a) eqn:E; cbn [List.filter]; rewrite ?E, IH; reflexivity.
Qed.

Lemma filter_length_le {A : Type} (f : A -> bool) (l : list A) :
  (length (List.filter f l) <= length l)%nat.
Proof.
  induction l as [|a l IH]; [cbn; lia|]. cbn [List.filter].
  destruct (f a); cbn [length]; lia.
Qed.

(** [deleteContact] removes every contact that carries the id, whoever
    its patient is, and nothing else; no other contact is promoted, so
    the single-primary invariant survives and a patient whose primary
    is removed is left without one; a gateway callback that arrives for
    the removed contact afterwards changes nothing. *)
Theorem deleteContact_effect (contactId : string) (w : world) :
  let w' := snd (deleteContact contactId w) in
  (forall c, In c (contacts_of w') <-> In c (contacts_of w) /\ c_id c <> contactId)
  /\ (forall q, primaries q (contacts_of w')
                = List.filter (fun c => negb (eqs (c_id c) contactId))
                              (primaries q (contacts_of w)))
  /\ (single_primary (contacts_of w) -> single_primary (contacts_of w'))
  /\ (forall q, contacts_for q w'
                = List.filter (fun c => negb (eqs (c_id c) contactId))
                              (contacts_for q w))
  /\ (forall nowIso, snd (run_callback (NotifyContact contactId nowIso) w') = w')
  /\ snd (deleteContact contactId w') = w'
  /\ notifs_of w' = notifs_of w /\ logs_of w' = logs_of w
  /\ pending w' = pending w.
Proof.
  cbv zeta. unfold deleteContact, modifyStore, contacts_of, contacts_for, contacts_of,
    primaries, notifs_of, logs_of.
  cbn [snd fst storage with_storage set_emergency_contacts ah_emergency_contacts
       ah_notifications ah_alert_logs pending].
  split; [|split; [|split; [|split; [|split; [|split]]]]].
  - intros c. rewrite filter_In. split; intros [Hin Hc]; split; try exact Hin.
    + apply negb_true_iff in Hc. now apply eqs_neq in Hc.
    + apply negb_true_iff. now apply eqs_neq.
  - intros q. apply filter_comm.
  - intros Hs q. specialize (Hs q). unfold primaries in *.
    rewrite filter_comm. etransitivity; [apply filter_length_le|exact Hs].
  - intros q. apply filter_comm.
  - intros nowIso. unfold run_callback, bind, getStore.
    cbn [storage ah_emergency_contacts fst snd].
    destruct (list_find _ _) as [[idx c]|] eqn:Hf; [|reflexivity].
    apply list_find_Some in Hf as (Hl & Hc & _).
    apply list_elem_of_lookup_2, list_elem_of_In, filter_In in Hl as [_ Hn].
    apply negb_true_iff, eqs_neq in Hn. contradiction.
  - unfold with_storage, set_emergency_contacts.
    cbn [storage ah_emergency_contacts _mode draws ticks
         pending ah_users ah_medications ah_doses ah_notifications ah_alert_logs
         ah_caregiver_assignment].
    now rewrite filter_idem.
  - auto.
Qed.



(** ** The audit trail: acknowledging everything *)

(** [acknowledgeAllLogs] stamps exactly the unacknowledged entries of
    the patient with the clock reading and changes them in nothing
    else; afterwards no entry of the patient is unacknowledged, earlier
    acknowledgements keep their time, and a second call changes nothing
    in the trail. *)
Theorem acknowledgeAllLogs_effect (patientId : string) (w : world) :
  let w' := snd (acknowledgeAllLogs patientId w) in
  Forall2 (fun a b =>
             same_but_ack a b
             /\ l_acknowledgedAt b
                = (if eqs (l_patientId a) patientId
                   then Some (default (clock (ticks w)) (l_acknowledgedAt a))
                   else l_acknowledgedAt a))
          (logs_of w) (logs_of w')
  /\ Forall (fun b => l_patientId b = patientId -> l_acknowledgedAt b <> None)
            (logs_of w')
  /\ logs_of (snd (acknowledgeAllLogs patientId w')) = logs_of w'
  /\ notifs_of w' = notifs_of w /\ inputs w' = inputs w /\ pending w' = pending w.
Proof.
  cbv zeta. split; [|split; [|split]].
  - unfold acknowledgeAllLogs, bind, new_Date, modifyStore, logs_of. cbn.
    induction (ah_alert_logs (storage w)) as [|a l IH]; cbn; constructor; [|exact IH].
    destruct (eqs (l_patientId a) patientId) eqn:Ep; cbn; [|split; reflexivity].
    destruct (l_acknowledgedAt a) as [t|] eqn:Ea; cbn; split; try reflexivity.
    exact Ea.
  - unfold acknowledgeAllLogs, bind, new_Date, modifyStore, logs_of. cbn.
    induction (ah_alert_logs (storage w)) as [|a l IH]; cbn; constructor; [|exact IH].
    destruct (eqs (l_patientId a) patientId) eqn:Ep; cbn.
    + destruct (l_acknowledgedAt a) as [t|] eqn:Ea; cbn; intros _; congruence.
    + intros Hp. apply eqs_neq in Ep. contradiction.
  - now apply (acknowledgeAllLogs_twice patientId w).
  - repeat split.
Qed.

(** ** Doses: taking one, and removing a medication *)

Lemma eligible_taken (patientId : string) (d : dose) (t : Z) :
  eligible patientId (set_takenAt (Some t) d) = false.
Proof.
  unfold eligible. cbn [set_takenAt d_takenAt d_patientId d_scheduledTime].
  rewrite (bool_decide_eq_true_2 (is_Some (Some t))) by eauto.
  cbn [negb]. now rewrite andb_false_r.
Qed.

Lemma detect_keeps_inputs (patientId : string) (w : world) :
  inputs (snd (detectMissedDoses patientId w)) = inputs w.
Proof.
  destruct (detect_spec patientId w) as (ns & w' & -> & (Hi & _) & _). exact Hi.
Qed.

Lemma fired_eligible (q : string) (w : world) (x : dose) :
  In x (fired q w) \/ In x (fired_legacy q w) ->
  In x (ah_doses (storage w)) /\ eligible q x = true
  /\ is_Some (med_of (ah_medications (storage w)) x).
Proof.
  intros [Hx|Hx].
  - apply fired_in in Hx as (_ & Hin & He & Hf). unfold fires in Hf.
    apply andb_true_iff in Hf as [_ Hm]. apply bool_decide_eq_true in Hm. auto.
  - apply fired_legacy_in in Hx as (Hin & He & Hf). unfold fires_legacy in Hf.
    apply andb_true_iff in Hf as [_ Hm]. apply bool_decide_eq_true in Hm. auto.
Qed.

(** [markTaken] stamps the first dose that carries the id with the
    clock reading and reloads, which scans for the signed-in patient;
    an unknown id changes nothing and reads no clock.  The stamped dose
    fires in no scan from then on, the reload included, and when dose
    ids are distinct no dose with that id does. *)
Theorem markTaken_effect (sessionUserId doseId : string) (w : world) :
  (Forall (fun x => d_id x <> doseId) (ah_doses (storage w)) ->
   markTaken sessionUserId doseId w = (tt, w))
  /\ (forall (pre post : list dose) (d : dose),
        ah_doses (storage w) = (pre ++ d :: post)%list ->
        Forall (fun x => d_id x <> doseId) pre ->
        d_id d = doseId ->
        let marked := set_takenAt (Some (clock (ticks w))) d in
        let w1 := with_storage (set_doses (pre ++ marked :: post)%list) (tick w) in
        let w' := snd (markTaken sessionUserId doseId w) in
        w' = snd (detectMissedDoses sessionUserId w1)
        /\ ah_doses (storage w') = (pre ++ marked :: post)%list
        /\ (forall (q : string) (w2 : world),
              ah_doses (storage w2) = ah_doses (storage w') ->
              ~ In marked (fired q w2) /\ ~ In marked (fired_legacy q w2))
        /\ (List.NoDup (List.map d_id (ah_doses (storage w))) ->
            forall (q : string) (w2 : world) (x : dose),
              ah_doses (storage w2) = ah_doses (storage w') ->
              In x (fired q w2) \/ In x (fired_legacy q w2) -> d_id x <> doseId)).
Proof.
  split.
  - intros Hall. unfold markTaken, bind, getStore. cbn [storage fst snd].
    destruct (list_find _ _) as [[idx d]|] eqn:Hf; [|reflexivity].
    apply list_find_Some in Hf as (Hl & Hd & _).
    apply list_elem_of_lookup_2, list_elem_of_In in Hl.
    rewrite List.Forall_forall in Hall. now destruct (Hall d Hl).
  - intros pre post d Hl Hpre Hid. cbv zeta.
    assert (Hw : snd (markTaken sessionUserId doseId w)
                 = snd (detectMissedDoses sessionUserId
                          (with_storage
                             (set_doses
                                (pre ++ set_takenAt (Some (clock (ticks w))) d :: post)%list)
                             (tick w)))).
    { unfold markTaken, bind, getStore. cbn [storage fst snd]. rewrite Hl.
      rewrite (list_find_first (fun x => d_id x = doseId) pre post d Hpre Hid).
      unfold new_Date, modifyStore, loadAll, bind, ret.
      rewrite insert_middle by reflexivity. unfold tick.
      match goal with
      | |- context [detectMissedDoses sessionUserId ?b] =>
          destruct (detectMissedDoses sessionUserId b)
      end. reflexivity. }
    assert (Hd : ah_doses (storage (snd (markTaken sessionUserId doseId w)))
                 = (pre ++ set_takenAt (Some (clock (ticks w))) d :: post)%list).
    { rewrite Hw.
      match goal with
      | |- context [detectMissedDoses _ ?b] =>
          pose proof (detect_keeps_inputs sessionUserId b) as Hi
      end.
      unfold inputs in Hi. injection Hi as _ _ Hi _ _ _. rewrite Hi. reflexivity. }
    split; [exact Hw|]. split; [exact Hd|]. split.
    + intros q w2 H2. split; intros Hx.
      * assert (H := fired_eligible q w2 _ (or_introl Hx)).
        destruct H as (_ & He & _). now rewrite eligible_taken in He.
      * assert (H := fired_eligible q w2 _ (or_intror Hx)).
        destruct H as (_ & He & _). now rewrite eligible_taken in He.
    + intros Hnd q w2 x H2 Hx Hxid.
      destruct (fired_eligible q w2 x Hx) as (Hin & He & _).
      rewrite H2, Hd in Hin. apply in_app_or in Hin as [Hin|[<-|Hin]].
      * rewrite List.Forall_forall in Hpre. now apply (Hpre x Hin).
      * now rewrite eligible_taken in He.
      * rewrite Hl, List.map_app in Hnd. apply NoDup_remove_2 in Hnd.
        apply Hnd. apply in_or_app. right. cbn [List.map].
        rewrite Hid, <- Hxid. now apply in_map.
Qed.

Lemma filter_andb {A : Type} (f g : A -> bool) (l : list A) :
  List.filter (fun x => f x && g x) l = List.filter g (List.filter f l).
Proof.
  induction l as [|a l IH]; [reflexivity|]. cbn [List.filter].
  destruct (f a) eqn:Ef; cbn [andb List.filter]; [destruct (g a)|]; now rewrite IH.
Qed.

Lemma med_of_removed (medId : string) (meds : list medication) (x : dose) :
  bool_decide
    (is_Some (med_of (List.filter (fun m => negb (eqs (m_id m) medId)) meds) x))
  = bool_decide (is_Some (med_of meds x)) && negb (eqs (d_medId x) medId).
Proof.
  unfold med_of. induction meds as [|m meds IH].
  - cbn [List.filter List.find]. rewrite bool_decide_eq_false_2; [reflexivity|].
    intros [? [=]].
  - cbn [List.filter List.find].
    destruct (eqs (m_id m) medId) eqn:Em; cbn [negb List.find];
      destruct (eqs (m_id m) (d_medId x)) eqn:Ex.
    + apply eqs_eq in Em, Ex. rewrite IH, <- Ex, Em, eqs_refl. cbn [negb].
      now rewrite !andb_false_r.
    + exact IH.
    + rewrite !bool_decide_eq_true_2 by eauto.
      apply eqs_eq in Ex. rewrite <- Ex, Em. reflexivity.
    + exact IH.
Qed.

(** [deleteMed] removes the medication and leaves its doses in the
    store (declining the dialog changes nothing).  From then on exactly
    the doses of the other medications fire, in both engines: the doses
    of the removed medication are skipped without any alert. *)
Theorem deleteMed_silences (medId : string) (w : world) :
  let w' := snd (deleteMed true medId w) in
  deleteMed false medId w = (tt, w)
  /\ ah_doses (storage w') = ah_doses (storage w)
  /\ (forall m, In m (ah_medications (storage w'))
                <-> In m (ah_medications (storage w)) /\ m_id m <> medId)
  /\ (forall q, fired q w'
                = List.filter (fun x => negb (eqs (d_medId x) medId)) (fired q w))
  /\ (forall q, fired_legacy q w'
                = List.filter (fun x => negb (eqs (d_medId x) medId))
                              (fired_legacy q w))
  /\ notifs_of w' = notifs_of w /\ logs_of w' = logs_of w
  /\ contacts_of w' = contacts_of w.
Proof.
  cbv zeta. split; [reflexivity|]. split; [reflexivity|]. split; [|split; [|split]].
  - intros m. unfold deleteMed, modifyStore.
    cbn [negb snd storage with_storage set_medications ah_medications].
    rewrite filter_In. split; intros [Hin Hm]; split; try exact Hin.
    + apply negb_true_iff in Hm. now apply eqs_neq in Hm.
    + apply negb_true_iff. now apply eqs_neq.
  - intros q. unfold fired, patient_of, deleteMed, modifyStore, notifs_of.
    cbn [negb snd storage with_storage set_medications ah_medications ah_users
         ah_doses ah_notifications ticks].
    destruct (List.find _ (ah_users (storage w))); [|reflexivity].
    rewrite <- (filter_andb (fires _ _ _)). apply filter_ext. intros x. unfold fires.
    now rewrite med_of_removed, andb_assoc.
  - intros q. unfold fired_legacy, deleteMed, modifyStore, notifs_of.
    cbn [negb snd storage with_storage set_medications ah_medications ah_users
         ah_doses ah_notifications ticks].
    rewrite <- (filter_andb (fires_legacy _ _ _)). apply filter_ext. intros x.
    unfold fires_legacy.
    now rewrite med_of_removed, andb_assoc.
  - repeat split.
Qed.

(** ** Doses: the schedule of a new prescription *)

Lemma generated_nil (P : dose -> Prop) (w : world) : generated P w [] w.
Proof.
  unfold generated. repeat split; auto. exists []. repeat split; constructor.
Qed.

Lemma generated_app (P : dose -> Prop) (w1 w2 w3 : world) (ys zs : list dose) :
  generated P w1 ys w2 -> generated P w2 zs w3 -> generated P w1 (ys ++ zs)%list w3.
Proof.
  intros (Hs1 & Hm1 & Hp1 & Hd1 & HP1 & ps & Hi1 & Hn1 & Hb1)
         (Hs2 & Hm2 & Hp2 & Hd2 & HP2 & qs & Hi2 & Hn2 & Hb2).
  unfold generated. repeat split; try congruence; [lia|now apply Forall_app|].
  exists (ps ++ qs)%list. split; [|split].
  - rewrite !List.map_app. congruence.
  - rewrite List.Forall_forall in Hb1, Hb2.
    clear -Hn1 Hn2 Hb1 Hb2. induction ps as [|p ps IH]; [exact Hn2|].
    cbn [app]. inversion Hn1 as [|? ? Hnot Hn1']; subst. constructor.
    + intros Hin. apply in_app_or in Hin as [Hin|Hin]; [contradiction|].
      specialize (Hb1 p (or_introl eq_refl)). specialize (Hb2 p Hin). lia.
    + apply IH; [exact Hn1'|]. intros x Hx. apply Hb1. now right.
  - apply Forall_app. split; eapply Forall_impl; try eassumption; cbn; intros; lia.
Qed.

Lemma generated_weaken (P P' : dose -> Prop) (w w' : world) (ds : list dose) :
  (forall d, P' d -> P d) -> generated P' w ds w' -> generated P w ds w'.
Proof.
  intros HP (Hs & Hm & Hp & Hd & HF & Hps). unfold generated.
  repeat split; auto. eapply Forall_impl; [exact HF|exact HP].
Qed.

Lemma forEach_push_inv {A B : Type} (Q : world -> list B -> world -> Prop)
      (f : A -> M (list B)) (l : list A) :
  (forall w, Q w [] w) ->
  (forall w1 w2 w3 ys zs, Q w1 ys w2 -> Q w2 zs w3 -> Q w1 (ys ++ zs)%list w3) ->
  (forall x w, Q w (fst (f x w)) (snd (f x w))) ->
  forall w, Q w (fst (Legacy.forEach_push f l w)) (snd (Legacy.forEach_push f l w)).
Proof.
  intros Hnil Happ Hf. induction l as [|x l IH]; intros w; [apply Hnil|].
  cbn [Legacy.forEach_push]. unfold bind. specialize (Hf x w).
  destruct (f x w) as [ys w1]. specialize (IH w1).
  destruct (Legacy.forEach_push f l w1) as [zs w2]. unfold ret. cbn [fst snd] in *.
  eapply Happ; eassumption.
Qed.

Lemma forEach_push_length {A B : Type} (k : nat) (f : A -> M (list B)) (l : list A) :
  (forall x w, length (fst (f x w)) = k) ->
  forall w, length (fst (Legacy.forEach_push f l w)) = (length l * k)%nat.
Proof.
  intros Hf. induction l as [|x l IH]; intros w; [reflexivity|].
  cbn [Legacy.forEach_push]. unfold bind. specialize (Hf x w).
  destruct (f x w) as [ys w1]. specialize (IH w1).
  destruct (Legacy.forEach_push f l w1) as [zs w2]. unfold ret.
  cbn [fst snd length] in *. rewrite length_app. lia.
Qed.

Lemma NoDup_map_injective {A B : Type} (f : A -> B) (l : list A) :
  (forall x y, f x = f y -> x = y) -> List.NoDup l -> List.NoDup (List.map f l).
Proof.
  intros Hf. induction 1 as [|a l Hnot _ IH]; cbn [List.map]; constructor; [|exact IH].
  intros Hin. apply in_map_iff in Hin as (b & Hb & Hin). apply Hf in Hb. now subst b.
Qed.

Lemma dose_times_length (frequency : string) :
  (1 <= length (dose_times frequency) <= 3)%nat.
Proof.
  unfold dose_times.
  destruct (includes (toLowerCase frequency) "twice");
    [|destruct (includes (toLowerCase frequency) "three")]; cbn; lia.
Qed.

(** The doses [generateDoses] appends, with the oracle positions at
    which their ids were drawn. *)
Lemma generateDoses_appends (calendar : Z -> Z -> Z -> Z) (chance : nat -> bool)
        (med : medication) (frequency pid : string) (w : world) :
  let w' := snd (generateDoses calendar chance med frequency pid w) in
  let k := length (dose_times frequency) in
  exists history future : list dose,
    ah_doses (storage w') = (ah_doses (storage w) ++ history ++ future)%list
    /\ (1 <= k <= 3)%nat
    /\ length history = (7 * k)%nat /\ length future = (30 * k)%nat
    /\ Forall (dose_of med pid) (history ++ future)%list
    /\ Forall (fun d => d_takenAt d = None) future
    /\ (exists ps : list nat,
          List.map d_id (history ++ future)%list
          = List.map (fun i => "id_" ++ rand i) ps
          /\ List.NoDup ps)
    /\ ah_users (storage w') = ah_users (storage w)
    /\ ah_medications (storage w') = ah_medications (storage w)
    /\ contacts_of w' = contacts_of w /\ notifs_of w' = notifs_of w
    /\ logs_of w' = logs_of w /\ pending w' = pending w.
Proof.
  cbv zeta. unfold generateDoses, bind, getStore. cbn [storage fst snd].
  match goal with
  | |- context [Legacy.forEach_push ?f [7; 6; 5; 4; 3; 2; 1] w] =>
      pose proof (forEach_push_inv (generated (dose_of med pid)) f
                    [7; 6; 5; 4; 3; 2; 1]
                    (generated_nil _) (generated_app _)) as Hh;
      pose proof (forEach_push_length (length (dose_times frequency)) f
                    [7; 6; 5; 4; 3; 2; 1]) as Hhl
  end.
  match type of Hh with
  | ?A -> _ => assert (Hleaf : A); [|specialize (Hh Hleaf w); clear Hleaf]
  end.
  { intros d w0. apply forEach_push_inv;
      [apply generated_nil|apply generated_app|].
    intros hr w1. unfold bind, new_Date, uuid, random_above, ret. cbn [fst snd].
    unfold generated. cbn [storage _mode pending draws].
    repeat split; auto.
    - constructor; [|constructor]. unfold dose_of.
      cbn [d_medId d_patientId d_id d_scheduledTime d_takenAt].
      repeat split; auto. eexists. split; [reflexivity|].
      destruct (chance (S (draws w1))); auto.
    - exists [draws w1]. cbn [List.map d_id]. repeat split.
      + constructor; [intros []|constructor].
      + constructor; [lia|constructor]. }
  match type of Hhl with
  | ?A -> _ => assert (Hleaf : A); [|specialize (Hhl Hleaf w); clear Hleaf]
  end.
  { intros d w0.
    rewrite (forEach_push_length 1%nat); [lia|]. intros hr w1. reflexivity. }
  destruct (Legacy.forEach_push _ [7; 6; 5; 4; 3; 2; 1] w) as [history w1].
  cbn [fst snd] in Hh, Hhl.
  match goal with
  | |- context [Legacy.forEach_push ?f (List.map Z.of_nat (seq 0 30)) w1] =>
      pose proof (forEach_push_inv
                    (generated (fun d => dose_of med pid d /\ d_takenAt d = None)) f
                    (List.map Z.of_nat (seq 0 30))
                    (generated_nil _) (generated_app _)) as Hf;
      pose proof (forEach_push_length (length (dose_times frequency)) f
                    (List.map Z.of_nat (seq 0 30))) as Hfl
  end.
  match type of Hf with
  | ?A -> _ => assert (Hleaf : A); [|specialize (Hf Hleaf w1); clear Hleaf]
  end.
  { intros d w0. apply forEach_push_inv;
      [apply generated_nil|apply generated_app|].
    intros hr w2. unfold bind, new_Date, uuid, ret. cbn [fst snd].
    unfold generated. cbn [storage _mode pending draws].
    repeat split; auto.
    - constructor; [|constructor]. unfold dose_of.
      cbn [d_medId d_patientId d_id d_scheduledTime d_takenAt].
      repeat split; auto. eexists. split; [reflexivity|]. auto.
    - exists [draws w2]. cbn [List.map d_id]. repeat split.
      + constructor; [intros []|constructor].
      + constructor; [lia|constructor]. }
  match type of Hfl with
  | ?A -> _ => assert (Hleaf : A); [|specialize (Hfl Hleaf w1); clear Hleaf]
  end.
  { intros d w0.
    rewrite (forEach_push_length 1%nat); [lia|]. intros hr w2. reflexivity. }
  destruct (Legacy.forEach_push _ (List.map Z.of_nat (seq 0 30)) w1) as [future w2].
  cbn [fst snd] in Hf, Hfl.
  exists history, future.
  pose proof (generated_app _ _ _ _ _ _ Hh
                (generated_weaken (dose_of med pid) _ _ _ _
                   (fun d H => proj1 H) Hf)) as Hall.
  destruct Hall as (Hs & Hm & Hp & _ & HP & ps & Hids & Hnd & _).
  destruct Hf as (_ & _ & _ & _ & HPf & _).
  unfold modifyStore, contacts_of, notifs_of, logs_of.
  cbn [snd storage with_storage set_doses ah_doses ah_users ah_medications
       ah_emergency_contacts ah_notifications ah_alert_logs pending].
  rewrite Hs, Hp.
  split; [reflexivity|]. split; [apply dose_times_length|].
  split; [rewrite Hhl; cbn [length]; lia|].
  split; [rewrite Hfl, length_map, length_seq; lia|].
  split; [exact HP|].
  split; [eapply Forall_impl; [exact HPf|]; cbn; tauto|].
  split; [|repeat split].
  exists ps. auto.
Qed.

(** [generateDoses] appends 7 days of history and 30 days ahead, one
    dose per hour of the frequency (one, two or three a day), to the
    doses already stored and changes no other store.  Every new dose is
    of the medication and the patient, has a non-empty id and a valid
    scheduled instant, and is either untaken or taken half an hour
    late; the 30 days ahead are all untaken; the ids are pairwise
    distinct when the random oracle does not repeat itself. *)
Theorem generateDoses_effect (calendar : Z -> Z -> Z -> Z) (chance : nat -> bool)
        (med : medication) (frequency pid : string) (w : world) :
  let w' := snd (generateDoses calendar chance med frequency pid w) in
  let k := length (dose_times frequency) in
  exists history future : list dose,
    ah_doses (storage w') = (ah_doses (storage w) ++ history ++ future)%list
    /\ (1 <= k <= 3)%nat
    /\ length history = (7 * k)%nat /\ length future = (30 * k)%nat
    /\ Forall (dose_of med pid) (history ++ future)%list
    /\ Forall (fun d => d_takenAt d = None) future
    /\ ((forall i j, rand i = rand j -> i = j) ->
        List.NoDup (List.map d_id (history ++ future)%list))
    /\ ah_users (storage w') = ah_users (storage w)
    /\ ah_medications (storage w') = ah_medications (storage w)
    /\ contacts_of w' = contacts_of w /\ notifs_of w' = notifs_of w
    /\ logs_of w' = logs_of w /\ pending w' = pending w.
Proof.
  cbv zeta.
  destruct (generateDoses_appends calendar chance med frequency pid w)
    as (history & future & Hd & Hk & Hh & Hf & HP & Hu & (ps & Hids & Hnd) & Hrest).
  exists history, future.
  split; [exact Hd|]. split; [exact Hk|]. split; [exact Hh|]. split; [exact Hf|].
  split; [exact HP|]. split; [exact Hu|]. split; [|exact Hrest].
  intros Hinj. rewrite Hids. apply NoDup_map_injective; [|exact Hnd].
  intros i j Hij. cbn in Hij. injection Hij as Hij. now apply Hinj.
Qed.

(** ** The detector and the feed over time *)

Lemma fired_not_notified (q : string) (w : world) (x : dose) :
  In x (fired q w) \/ In x (fired_legacy q w) ->
  d_id x ∉ already_notified (notifs_of w).
Proof.
  intros [Hx|Hx].
  - apply fired_in in Hx as (_ & _ & _ & Hf). unfold fires in Hf.
    apply andb_true_iff in Hf as [Hf _]. apply andb_true_iff in Hf as [_ Hf].
    now apply negb_true_iff, bool_decide_eq_false in Hf.
  - apply fired_legacy_in in Hx as (_ & _ & Hf). unfold fires_legacy in Hf.
    apply andb_true_iff in Hf as [Hf _]. apply andb_true_iff in Hf as [_ Hf].
    now apply negb_true_iff, bool_decide_eq_false in Hf.
Qed.

Lemma kept_notified (i : string) (ns ns2 : list notification) :
  (forall n, In n ns -> exists n', In n' ns2 /\ n_doseId n' = n_doseId n) ->
  i ∈ already_notified ns -> i ∈ already_notified ns2.
Proof.
  intros Hk. rewrite !elem_of_already_notified. intros (n & Hn & Hd & Ht).
  destruct (Hk n Hn) as (n' & Hn' & Hd'). exists n'. split; [exact Hn'|].
  split; [congruence|exact Ht].
Qed.

(** A dose that fired in a scan fires in no later scan, of either
    engine and for whatever patient id, as long as the notifications of
    its cycle are still in the feed (read or unread, in any order, among
    any others): at most one alert cycle per dose id until the feed is
    cleared. *)
Theorem alerted_dose_stays_silent (patientId : string) (w w2 : world) (d : dose) :
  truthy (d_id d) = true ->
  (In d (fired patientId w) ->
   (forall n, In n (notifs_of (snd (detectMissedDoses patientId w))) ->
              exists n', In n' (notifs_of w2) /\ n_doseId n' = n_doseId n) ->
   forall (q : string) (x : dose),
     In x (fired q w2) \/ In x (fired_legacy q w2) -> d_id x <> d_id d)
  /\ (In d (fired_legacy patientId w) ->
      (forall n,
         In n (notifs_of (snd (Legacy.detectMissedDoses rand clock fmtTime patientId w))) ->
         exists n', In n' (notifs_of w2) /\ n_doseId n' = n_doseId n) ->
      forall (q : string) (x : dose),
        In x (fired q w2) \/ In x (fired_legacy q w2) -> d_id x <> d_id d).
Proof.
  intros Ht. split.
  - intros Hd Hk q x Hx Hid.
    apply (fired_not_notified q w2 x Hx). rewrite Hid.
    apply (kept_notified _ _ _ Hk).
    destruct (detect_spec patientId w) as (ns & w' & -> & (_ & Hn & _) & Hb).
    cbn [snd]. rewrite Hn.
    destruct (cycle_blocks_covers _ _ _ _ _ d Hb Hd) as (n & Hin & _ & Hdn & _).
    apply elem_of_already_notified. exists n.
    split; [apply in_or_app; now right|]. auto.
  - intros Hd Hk q x Hx Hid.
    apply (fired_not_notified q w2 x Hx). rewrite Hid.
    apply (kept_notified _ _ _ Hk).
    destruct (legacy_detect_spec patientId w) as (ns & w' & -> & _ & Hn & _ & _ & Hb).
    cbn [snd]. rewrite Hn.
    destruct (cycle_blocks_covers _ _ _ _ _ d Hb Hd) as (n & Hin & _ & Hdn & _).
    apply elem_of_already_notified. exists n.
    split; [apply in_or_app; now right|]. auto.
Qed.

Lemma cycle_blocks_unread (patientId : string) (contacts : list contact)
      (caregiver : option user) (ds : list dose) (ns : list notification) :
  cycle_blocks patientId contacts caregiver ds ns ->
  Forall (fun n => n_patientId n = patientId /\ n_read n = false) ns.
Proof.
  revert ns. induction ds as [|d0 ds IH]; intros ns; cbn [cycle_blocks].
  - intros ->. constructor.
  - intros (b & rest & -> & Hb & Hrest). apply Forall_app. split; [|now apply IH].
    destruct Hb as (_ & _ & _ & _ & _ & _ & _ & Hall).
    eapply Forall_impl; [exact Hall|]. cbn. tauto.
Qed.

Lemma unread_in_all (q : string) (ns : list notification) :
  Forall (fun n => n_patientId n = q /\ n_read n = false) ns -> unread_in q ns = ns.
Proof.
  induction 1 as [|n ns [Hp Hr] _ IH]; [reflexivity|].
  rewrite unread_in_cons, Hp, eqs_refl, Hr, IH. reflexivity.
Qed.

Lemma unread_in_none (p q : string) (ns : list notification) :
  q <> p -> Forall (fun n => n_patientId n = p /\ n_read n = false) ns ->
  unread_in q ns = [].
Proof.
  intros Hq. induction 1 as [|n ns [Hp Hr] _ IH]; [reflexivity|].
  rewrite unread_in_cons, Hp, IH.
  destruct (eqs p q) eqn:E; [apply eqs_eq in E; congruence|reflexivity].
Qed.

(** A scan raises the patient's unread count by the size of the cycles
    it ran, 1 + contacts + caregiver entries for every dose it
    returned, and nobody else's; the earlier engine raises it by
    exactly the number it returns. *)
Theorem unread_after_scan (patientId : string) (w : world) :
  let w' := snd (detectMissedDoses patientId w) in
  let wl := snd (Legacy.detectMissedDoses rand clock fmtTime patientId w) in
  fst (getUnreadCount patientId w')
  = (fst (getUnreadCount patientId w)
     + fst (detectMissedDoses patientId w)
       * (1 + sends_per_cycle (contacts_for patientId w)
                              (caregiver_for patientId w)))%nat
  /\ fst (getUnreadCount patientId wl)
     = (fst (getUnreadCount patientId w)
        + fst (Legacy.detectMissedDoses rand clock fmtTime patientId w))%nat
  /\ (forall q, q <> patientId ->
        fst (getUnreadCount q w') = fst (getUnreadCount q w)
        /\ fst (getUnreadCount q wl) = fst (getUnreadCount q w)).
Proof.
  cbv zeta.
  destruct (detect_spec patientId w) as (ns & w' & -> & (_ & Hn & _) & Hb).
  destruct (legacy_detect_spec patientId w) as (nl & wl & -> & _ & Hl & _ & _ & Hbl).
  cbn [fst snd]. change (notifs_of (tick w)) with (notifs_of w) in Hn.
  rewrite !getUnreadCount_unread_in, Hn, Hl, !unread_in_app, !length_app.
  pose proof (cycle_blocks_unread _ _ _ _ _ Hb) as Hu.
  pose proof (cycle_blocks_unread _ _ _ _ _ Hbl) as Hul.
  split; [|split].
  - rewrite (unread_in_all _ _ Hu), (cycle_blocks_length _ _ _ _ _ Hb).
    unfold sends_per_cycle. cbn [fst]. lia.
  - now rewrite (unread_in_all _ _ Hul).
  - intros q Hq. rewrite !getUnreadCount_unread_in, Hn, Hl, !unread_in_app, !length_app.
    rewrite (unread_in_none _ _ _ Hq Hu), (unread_in_none _ _ _ Hq Hul).
    cbn [fst length]. lia.
Qed.

(** The two engines fire the same doses for a known patient as long as
    no scheduled time is an unparseable date.  A dose whose date does
    not parse is never fired by the earlier engine, and is fired by the
    current one whatever the clock reads (its overdue time is NaN, and
    NaN is not below the threshold). *)
Theorem engines_agree_on_valid_dates (patientId : string) (w : world) :
  (is_Some (patient_of patientId w) ->
   (forall d, In d (ah_doses (storage w)) -> eligible patientId d = true ->
              d_scheduledTime d <> InvalidDate) ->
   fired_legacy patientId w = fired patientId w)
  /\ (forall d, d_scheduledTime d = InvalidDate ->
        ~ In d (fired_legacy patientId w)
        /\ (In d (fired patientId w)
            <-> is_Some (patient_of patientId w)
                /\ In d (ah_doses (storage w)) /\ eligible patientId d = true
                /\ (d_id d ∉ already_notified (notifs_of w))
                /\ is_Some (med_of (ah_medications (storage w)) d))).
Proof.
  split.
  - intros [u Hu] Hv. unfold fired, fired_legacy. rewrite Hu.
    induction (ah_doses (storage w)) as [|d l IH]; [reflexivity|].
    cbn [List.filter]. destruct (eligible patientId d) eqn:He.
    + cbn [List.filter]. rewrite IH by (intros; apply Hv; auto; now right).
      assert (Hf : fires_legacy (clock (ticks w)) (ah_medications (storage w))
                     (already_notified (notifs_of w)) d
                   = fires (clock (ticks w)) (ah_medications (storage w))
                       (already_notified (notifs_of w)) d).
      { unfold fires, fires_legacy, overdue.
        specialize (Hv d (or_introl eq_refl) He).
        unfold eligible in He. apply andb_true_iff in He as [_ He].
        destruct (d_scheduledTime d) as [| |t]; [discriminate|congruence|].
        cbn [getTime num_sub num_ge num_lt].
        now rewrite Z.leb_antisym. }
      now rewrite Hf.
    + apply IH. intros; apply Hv; auto; now right.
  - intros d Hd. split.
    + rewrite fired_legacy_in. unfold fires_legacy. rewrite Hd. cbn.
      intros (_ & _ & [=]).
    + rewrite fired_in. unfold fires, overdue. rewrite Hd.
      cbn [getTime num_sub num_lt negb andb].
      split.
      * intros (H1 & H2 & H3 & H4). apply andb_true_iff in H4 as [H4 H5].
        apply negb_true_iff, bool_decide_eq_false in H4.
        apply bool_decide_eq_true in H5. auto.
      * intros (H1 & H2 & H3 & H4 & H5). repeat split; auto.
        apply andb_true_iff. split.
        -- now apply negb_true_iff, bool_decide_eq_false.
        -- now apply bool_decide_eq_true.
Qed.

(** ** Escaping *)

Lemma esc_app (s t : string) : esc (s ++ t) = (esc s ++ esc t)%string.
Proof.
  induction s as [|c s IH]; [reflexivity|].
  change (String c s ++ t)%string with (String c (s ++ t)). cbn [esc]. rewrite IH.
  destruct (Ascii.eqb c "&"); [reflexivity|].
  destruct (Ascii.eqb c "<"); [reflexivity|].
  destruct (Ascii.eqb c ">"); reflexivity.
Qed.

Lemma esc_injective (s t : string) : esc s = esc t -> s = t.
Proof.
  revert t. induction s as [|c s IH]; intros [|d t]; cbn [esc].
  - reflexivity.
  - destruct (Ascii.eqb d "&"); [discriminate|].
    destruct (Ascii.eqb d "<"); [discriminate|].
    destruct (Ascii.eqb d ">"); discriminate.
  - destruct (Ascii.eqb c "&"); [discriminate|].
    destruct (Ascii.eqb c "<"); [discriminate|].
    destruct (Ascii.eqb c ">"); discriminate.
  - destruct (Ascii.eqb_spec c "&") as [->|Hc1];
      [|destruct (Ascii.eqb_spec c "<") as [->|Hc2];
        [|destruct (Ascii.eqb_spec c ">") as [->|Hc3]]];
    (destruct (Ascii.eqb_spec d "&") as [->|Hd1];
      [|destruct (Ascii.eqb_spec d "<") as [->|Hd2];
        [|destruct (Ascii.eqb_spec d ">") as [->|Hd3]]]);
    cbn [String.append]; intros H; injection H as H; subst;
      try discriminate; try congruence;
      f_equal; now apply IH.
Qed.

(** [esc] is the chain of three replacements of the source, done in one
    pass.  Its result holds no angle bracket, it is the identity on
    strings without [&], [<] and [>], it distributes over
    concatenation, and it loses nothing: distinct strings have distinct
    escapes. *)
Theorem esc_safe (s t : string) :
  esc s = esc_chained s
  /\ (forall c, In c (list_ascii_of_string (esc s)) ->
                c <> "<"%char /\ c <> ">"%char)
  /\ ((forall c, In c (list_ascii_of_string s) ->
                 c <> "&"%char /\ c <> "<"%char /\ c <> ">"%char) ->
      esc s = s)
  /\ esc (s ++ t) = (esc s ++ esc t)%string
  /\ (esc s = esc t -> s = t).
Proof.
  split; [|split; [|split; [|split]]].
  - unfold esc_chained. induction s as [|c s IH]; [reflexivity|].
    cbn [esc replaceAll].
    destruct (Ascii.eqb_spec c "&") as [->|Hc1]; [cbn; now rewrite IH|].
    cbn [replaceAll].
    destruct (Ascii.eqb_spec c "<") as [->|Hc2]; [cbn; now rewrite IH|].
    cbn [replaceAll].
    destruct (Ascii.eqb_spec c ">") as [->|Hc3]; [cbn; now rewrite IH|].
    now rewrite IH.
  - induction s as [|c s IH]; [intros c []|]. cbn [esc].
    destruct (Ascii.eqb_spec c "&") as [->|Hc1];
      [|destruct (Ascii.eqb_spec c "<") as [->|Hc2];
        [|destruct (Ascii.eqb_spec c ">") as [->|Hc3]]];
      cbn [String.append list_ascii_of_string In]; intros x Hx;
      repeat (destruct Hx as [<-|Hx]; [split; congruence|]); now apply IH.
  - induction s as [|c s IH]; [reflexivity|]. intros Hs. cbn [esc].
    destruct (Hs c (or_introl eq_refl)) as (H1 & H2 & H3).
    apply Ascii.eqb_neq in H1, H2, H3. rewrite H1, H2, H3. f_equal.
    apply IH. intros x Hx. apply Hs. now right.
  - apply esc_app.
  - apply esc_injective.
Qed.

(** ** The event loop *)

Lemma same_but_stamps_refl (w : world) : same_but_stamps w w.
Proof. unfold same_but_stamps. repeat split. Qed.

Lemma same_but_stamps_trans (w1 w2 w3 : world) :
  same_but_stamps w1 w2 -> same_but_stamps w2 w3 -> same_but_stamps w1 w3.
Proof. unfold same_but_stamps. intuition congruence. Qed.

Lemma run_callback_stamps (cb : callback) (w : world) :
  same_but_stamps w (snd (run_callback cb w)).
Proof.
  destruct cb as [contactId nowIso|]; [|apply same_but_stamps_refl].
  unfold run_callback, bind, getStore. cbn [fst snd].
  destruct (list_find _ _) as [[idx c]|] eqn:Hf; [|apply same_but_stamps_refl].
  apply list_find_Some in Hf as (Hl & _ & _).
  unfold same_but_stamps, modifyStore, contacts_of.
  cbn [snd storage with_storage set_emergency_contacts ah_users ah_medications
       ah_doses ah_notifications ah_caregiver_assignment ah_emergency_contacts _mode].
  repeat split.
  rewrite <- !fmap_is_map, list_fmap_insert.
  apply list_insert_id. rewrite list_lookup_fmap, Hl. reflexivity.
Qed.

Lemma run_task_stamps (o : transport) (t : task) (q : list task) (w : world) :
  same_but_stamps w (snd (run_task o t (set_pending q w))).
Proof.
  destruct t as [branch to body meta cb|cb r]; cbn [run_task].
  - unfold send_finish, log_attempt, bind, getMode, uuid, new_Date, modifyStore,
      ret, enqueue, same_but_stamps, contacts_of.
    destruct cb as [c|]; cbn; repeat split.
  - apply (same_but_stamps_trans _ (set_pending q w));
      [unfold same_but_stamps; repeat split|apply run_callback_stamps].
Qed.

Lemma primaries_forget (q : string) (cs : list contact) :
  length (primaries q cs) = length (primaries q (List.map forget_notified cs)).
Proof.
  unfold primaries. induction cs as [|c cs IH]; [reflexivity|].
  cbn [List.map List.filter forget_notified c_patientId c_isPrimary].
  destruct (eqs (c_patientId c) q && c_isPrimary c); cbn [length]; now rewrite IH.
Qed.

Lemma steps_stamps (w w' : world) : steps w w' -> same_but_stamps w w'.
Proof.
  induction 1 as [w|w1 w2 w3 [w0 pre post t o Hq] _ IH];
    [apply same_but_stamps_refl|].
  eapply same_but_stamps_trans; [|exact IH]. apply run_task_stamps.
Qed.

(** Run in any order and with any transport outcomes, the event loop
    touches only the audit trail, the queue and the [notifiedAt] stamps
    of contacts: users, medications, doses, the feed, the assignment
    and the mode stay, the single-primary invariant survives, and each
    send that was in flight has written exactly one audit entry once it
    is no longer so.  Run first-in first-out with enough turns, the
    queue empties. *)
Theorem event_loop_frame (w w' : world) (net : transport) :
  (steps w w' ->
   same_but_stamps w w'
   /\ (single_primary (contacts_of w) -> single_primary (contacts_of w'))
   /\ exists new : list alert_log,
        logs_of w' = (new ++ logs_of w)%list
        /\ (length new + inflight (pending w') = inflight (pending w))%nat)
  /\ steps w (drain net (length (pending w) + inflight (pending w)) w)
  /\ pending (drain net (length (pending w) + inflight (pending w)) w) = [].
Proof.
  split; [|split; [apply drain_steps|now apply drain_empties]].
  intros Hs.
  pose proof (steps_stamps _ _ Hs) as Hsame.
  split; [exact Hsame|]. split.
  - intros Hsp q. destruct Hsame as (_ & _ & _ & _ & _ & _ & Hc).
    rewrite primaries_forget, Hc, <- primaries_forget. apply Hsp.
  - destruct (steps_effect _ _ Hs) as (new & Hl & Hk & _). eauto.
Qed.

(** ** From the scan to the [notifiedAt] stamps *)

Lemma owed_app (q r : list task) : owed (q ++ r) = (owed q ++ owed r)%list.
Proof. unfold owed. apply flat_map_app. Qed.

Lemma owes_nil (w w' : world) : pending w' = pending w -> owes w [] w'.
Proof. intros H. exists []. now rewrite app_nil_r. Qed.

Lemma owes_trans (w1 w2 w3 : world) (c1 c2 : list callback) :
  owes w1 c1 w2 -> owes w2 c2 w3 -> owes w1 (c1 ++ c2)%list w3.
Proof.
  intros (a1 & H1 & <-) (a2 & H2 & <-). exists (a1 ++ a2)%list.
  rewrite H2, H1, owed_app, app_assoc. auto.
Qed.

Lemma owes_bind {A B : Type} (m : M A) (k : A -> M B) (c c1 c2 : list callback)
      (w : world) :
  c = (c1 ++ c2)%list ->
  owes w c1 (snd (m w)) -> (forall a w1, owes w1 c2 (snd (k a w1))) ->
  owes w c (snd (bind m k w)).
Proof.
  intros -> H1 H2. unfold bind. destruct (m w) as [a w1]. cbn [snd] in *.
  eapply owes_trans; [exact H1|apply H2].
Qed.

Lemma send_then_owes (to body : string) (meta : send_meta) (cb : callback) (w : world) :
  owes w [cb] (snd (send_then to body meta cb w)).
Proof.
  unfold send_then, send_start, log_attempt, bind, getMode, uuid, new_Date,
    modifyStore, ret, enqueue.
  destruct (eqs (_mode w) "simulation");
    [|destruct (eqs (_mode w) "twilio"); [|destruct (eqs (_mode w) "fast2sms")]];
    cbn; eexists [_]; split; reflexivity.
Qed.

Lemma mapM_owes {A B : Type} (f : A -> M B) (g : A -> list callback) (l : list A) :
  (forall a w, owes w (g a) (snd (f a w))) ->
  forall w, owes w (flat_map g l) (snd (mapM f l w)).
Proof.
  intros Hf. induction l as [|a l IH]; intros w; [now apply owes_nil|].
  cbn [mapM flat_map]. apply (owes_bind _ _ _ (g a) (flat_map g l)); auto.
  intros y w1. apply (owes_bind _ _ _ (flat_map g l) []);
    [now rewrite app_nil_r|apply IH|]. intros ys w2. now apply owes_nil.
Qed.

Lemma forEach_count_owes {A : Type} (f : A -> M nat) (g : A -> list callback)
      (l : list A) :
  (forall a w, owes w (g a) (snd (f a w))) ->
  forall w, owes w (flat_map g l) (snd (forEach_count f l w)).
Proof.
  intros Hf. induction l as [|a l IH]; intros w; [now apply owes_nil|].
  cbn [forEach_count flat_map]. apply (owes_bind _ _ _ (g a) (flat_map g l)); auto.
  intros y w1. apply (owes_bind _ _ _ (flat_map g l) []);
    [now rewrite app_nil_r|apply IH|]. intros ys w2. now apply owes_nil.
Qed.

Lemma flat_map_singleton {A B : Type} (f : A -> B) (l : list A) :
  flat_map (fun a => [f a]) l = List.map f l.
Proof. induction l as [|a l IH]; [reflexivity|]. cbn. now rewrite IH. Qed.

Lemma alert_cycle_owes (patientId : string) (now : Z) (patient : user)
      (meds : list medication) (contacts : list contact) (caregiverId : option string)
      (caregiver : option user) (already : gset string) (d : dose) (w : world) :
  owes w (if fires now meds already d
          then cycle_callbacks now contacts caregiver else [])
       (snd (alert_cycle patientId now patient meds contacts caregiverId caregiver
                         already d w)).
Proof.
  destruct (fires now meds already d) eqn:Hf;
    [|rewrite (alert_cycle_skips _ _ _ _ _ _ _ _ _ w Hf); now apply owes_nil].
  unfold fires, overdue, med_of in Hf. unfold alert_cycle.
  apply andb_true_iff in Hf as [Hf Hmed]. apply andb_true_iff in Hf as [Hov Hnot].
  apply negb_true_iff in Hov, Hnot. rewrite Hov, Hnot. cbn [orb].
  rewrite bool_decide_eq_true in Hmed. destruct Hmed as [med Hmed]. rewrite Hmed.
  unfold cycle_callbacks.
  apply (owes_bind _ _ _ [] _ w eq_refl); [now apply owes_nil|].
  intros id0 w0.
  apply (owes_bind _ _ _ (List.map (fun c => NotifyContact (c_id c) now) contacts)
           (List.map (fun _ => LogCaregiver) (maybe_list caregiver)) w0 eq_refl).
  - rewrite <- flat_map_singleton. apply mapM_owes. intros c w1.
    apply (owes_bind _ _ _ [NotifyContact (c_id c) now] [] w1 eq_refl);
      [apply send_then_owes|].
    intros _ w2. apply (owes_bind _ _ _ [] [] w2 eq_refl); [now apply owes_nil|].
    intros id w3. now apply owes_nil.
  - intros sms w1.
    apply (owes_bind _ _ _ (List.map (fun _ => LogCaregiver) (maybe_list caregiver))
             [] w1); [now rewrite app_nil_r| |].
    + destruct caregiver as [cg|]; [|now apply owes_nil].
      apply (owes_bind _ _ _ [LogCaregiver] [] _ eq_refl); [apply send_then_owes|].
      intros _ w2. apply (owes_bind _ _ _ [] [] w2 eq_refl); [now apply owes_nil|].
      intros id w3. now apply owes_nil.
    + intros cgn w2. apply (owes_bind _ _ _ [] [] w2 eq_refl); now intros; apply owes_nil.
Qed.

(** The callbacks a scan registers: those of one cycle for every dose
    it fires. *)
Lemma detect_owes (patientId : string) (w : world) :
  owes w (flat_map (fun _ : dose =>
                      cycle_callbacks (clock (ticks w)) (contacts_for patientId w)
                                      (caregiver_for patientId w))
                   (fired patientId w))
       (snd (detectMissedDoses patientId w)).
Proof.
  unfold detectMissedDoses, fired, patient_of, bind, new_Date, getStore.
  cbn [fst snd storage].
  destruct (List.find _ (ah_users (storage w))) as [patient|];
    [|now apply owes_nil].
  match goal with
  | |- owes _ _ (snd (forEach_count ?f ?l ?w0)) =>
      pose proof (forEach_count_owes f
        (fun d => if fires (clock (ticks w)) (ah_medications (storage w))
                           (already_notified (ah_notifications (storage w))) d
                  then cycle_callbacks (clock (ticks w)) (contacts_for patientId w)
                         (caregiver_for patientId w)
                  else []) l (fun a w1 => alert_cycle_owes _ _ _ _ _ _ _ _ a w1) w0)
        as (added & Hp & Ho)
  end.
  exists added. split; [exact Hp|]. rewrite Ho. unfold notifs_of.
  clear. induction (List.filter (eligible patientId) (ah_doses (storage w)))
    as [|d l IH]; [reflexivity|].
  cbn [flat_map List.filter]. destruct (fires _ _ _ d); cbn [flat_map app];
    now rewrite IH.
Qed.

Lemma run_callback_stamp (contactId : string) (now : Z) (w : world) :
  contacts_of (snd (run_callback (NotifyContact contactId now) w))
  = stamp contactId now (contacts_of w)
  /\ pending (snd (run_callback (NotifyContact contactId now) w)) = pending w.
Proof.
  unfold run_callback, bind, getStore, contacts_of. cbn [fst snd].
  destruct (list_find _ _) as [[idx c]|] eqn:Hf.
  - destruct (list_find_split _ _ _ _ Hf) as (pre & post & Hl & -> & Hc).
    apply list_find_Some in Hf as (_ & _ & Hpre).
    unfold modifyStore.
    cbn [snd storage with_storage set_emergency_contacts ah_emergency_contacts pending].
    split; [|reflexivity]. rewrite Hl in *. rewrite insert_middle by reflexivity.
    assert (Hpre' : Forall (fun x => c_id x <> contactId) pre).
    { apply Forall_lookup_2. intros j x Hj.
      pose proof (lookup_lt_Some _ _ _ Hj) as Hlt.
      apply (Hpre j x); [|exact Hlt]. now rewrite lookup_app_l. }
    clear Hpre Hl. induction Hpre' as [|x pre Hx _ IH]; cbn [app stamp].
    + destruct (eqs (c_id c) contactId) eqn:E; [reflexivity|].
      apply eqs_neq in E. contradiction.
    + apply eqs_neq in Hx. rewrite Hx. now rewrite IH.
  - split; [|reflexivity]. apply list_find_None in Hf. unfold ret. cbn [snd].
    induction Hf as [|x l Hx _ IH]; [reflexivity|]. cbn [stamp].
    apply eqs_neq in Hx. rewrite Hx. now rewrite <- IH.
Qed.

Lemma stamp_ids (i : string) (now : Z) (cs : list contact) :
  List.map c_id (stamp i now cs) = List.map c_id cs.
Proof.
  induction cs as [|c cs IH]; [reflexivity|]. cbn [stamp].
  destruct (eqs (c_id c) i); cbn [List.map]; [reflexivity|now rewrite IH].
Qed.

Lemma stamp_first_same (i : string) (now : Z) (cs : list contact) :
  In i (List.map c_id cs) ->
  exists c, first_contact i (stamp i now cs) = Some c /\ c_notifiedAt c = Some now.
Proof.
  unfold first_contact. induction cs as [|c cs IH]; [intros []|].
  cbn [List.map In stamp]. destruct (eqs (c_id c) i) eqn:E.
  - intros _. cbn [List.find set_notifiedAt c_id]. rewrite E. eexists. split; reflexivity.
  - intros [Hc|Hin]; [apply eqs_neq in E; contradiction|].
    cbn [List.find]. rewrite E. now apply IH.
Qed.

Lemma stamp_first_other (i j : string) (now : Z) (cs : list contact) :
  j <> i -> first_contact j (stamp i now cs) = first_contact j cs.
Proof.
  intros Hj. unfold first_contact. induction cs as [|c cs IH]; [reflexivity|].
  cbn [stamp]. destruct (eqs (c_id c) i) eqn:E.
  - cbn [List.find set_notifiedAt c_id].
    destruct (eqs (c_id c) j) eqn:E'; [|reflexivity].
    apply eqs_eq in E, E'. congruence.
  - cbn [List.find]. now rewrite IH.
Qed.

Lemma stamp_In (i : string) (now : Z) (cs : list contact) (c : contact) :
  In c (stamp i now cs) -> In c cs \/ (c_notifiedAt c = Some now /\ c_id c = i).
Proof.
  induction cs as [|c0 cs IH]; [intros []|]. cbn [stamp].
  destruct (eqs (c_id c0) i) eqn:E; cbn [In].
  - intros [<-|Hin]; [|auto]. right. apply eqs_eq in E. auto.
  - intros [<-|Hin]; [auto|]. destruct (IH Hin); auto.
Qed.

Lemma owed_middle (pre post : list task) (t : task) (cb : callback) :
  In cb (owed (pre ++ t :: post))
  <-> In cb (callbacks_of t) \/ In cb (owed (pre ++ post)).
Proof.
  change (t :: post) with ([t] ++ post)%list.
  rewrite !owed_app, !in_app_iff. unfold owed at 2. cbn [flat_map].
  rewrite app_nil_r. tauto.
Qed.

Lemma settling_step (now : Z) (ids : list string) (w0 w w' : world) :
  (forall i, In i ids -> In i (List.map c_id (contacts_of w0))) ->
  settling now ids w0 w -> step w w' -> settling now ids w0 w'.
Proof.
  intros Hids Hs Hstep. destruct Hstep as [w1 pre post t o Hq].
  destruct Hs as (H1 & H2 & H3 & H4).
  destruct t as [branch to body meta cb|cb r].
  - (* a send resumes: its callback stays owed *)
    assert (Hc : contacts_of (snd (run_task o (InFlight branch to body meta cb)
                                     (set_pending (pre ++ post)%list w1)))
                 = contacts_of w1) by (destruct cb; reflexivity).
    assert (Hp : forall x,
               In x (owed (pending (snd (run_task o (InFlight branch to body meta cb)
                                           (set_pending (pre ++ post)%list w1)))))
               <-> In x (owed (pending w1))).
    { intros x. rewrite Hq, owed_middle.
      unfold run_task, send_finish, log_attempt, bind, getMode, uuid, new_Date,
        modifyStore, ret, enqueue.
      destruct cb as [c|]; cbn [fst snd pending set_pending with_storage callbacks_of].
      - rewrite owed_app. unfold owed at 2. cbn [flat_map callbacks_of].
        rewrite in_app_iff, app_nil_r. tauto.
      - cbn [In]. tauto. }
    unfold settling, stamped. rewrite Hc.
    split; [intros x Hx; apply H1; now apply Hp|].
    split; [|split; assumption].
    intros i Hi. destruct (H2 i Hi) as [Ho|Hs]; [left; now apply Hp|now right].
  - destruct cb as [i t0|].
    + (* the callback of a contact runs *)
      destruct (run_callback_stamp i t0 (set_pending (pre ++ post)%list w1))
        as [Hc Hp].
      cbn [run_task]. unfold settling, stamped. rewrite Hc, Hp.
      change (contacts_of (set_pending (pre ++ post)%list w1)) with (contacts_of w1).
      cbn [pending set_pending].
      assert (Hcb : t0 = now /\ In i ids).
      { destruct (H1 (NotifyContact i t0)) as [[=]|(j & [= -> ->] & Hj)]; auto.
        rewrite Hq. apply owed_middle. left. now left. }
      destruct Hcb as [-> Hi].
      split; [|split; [|split]].
      * intros x Hx. apply H1. rewrite Hq. apply owed_middle. now right.
      * intros j Hj. destruct (string_dec j i) as [->|Hne].
        -- right. apply stamp_first_same. rewrite H4. now apply Hids.
        -- destruct (H2 j Hj) as [Ho|Hs].
           ++ left. rewrite Hq in Ho. apply owed_middle in Ho as [[[=]|[]]|Ho];
                [congruence|exact Ho].
           ++ right. now rewrite stamp_first_other.
      * intros c Hin. apply stamp_In in Hin as [Hin|[Hn Hid]]; [now apply H3|].
        right. subst i. auto.
      * now rewrite stamp_ids.
    + (* the caregiver callback only logs to the console *)
      cbn [run_task run_callback]. unfold ret, settling, stamped. cbn [snd].
      change (contacts_of (set_pending (pre ++ post)%list w1)) with (contacts_of w1).
      cbn [pending set_pending].
      split; [|split; [|split; assumption]].
      * intros x Hx. apply H1. rewrite Hq. apply owed_middle. now right.
      * intros j Hj. destruct (H2 j Hj) as [Ho|Hs]; [|now right].
        left. rewrite Hq in Ho. apply owed_middle in Ho as [[[=]|[]]|Ho]. exact Ho.
Qed.

Lemma settling_steps (now : Z) (ids : list string) (w0 w w' : world) :
  (forall i, In i ids -> In i (List.map c_id (contacts_of w0))) ->
  settling now ids w0 w -> steps w w' -> settling now ids w0 w'.
Proof.
  intros Hids Hs Hst. induction Hst as [w|wa wb wc Hstep _ IH]; [exact Hs|].
  apply IH. now apply (settling_step now ids w0 wa wb).
Qed.

Lemma NoDup_map_eq {A B : Type} (f : A -> B) (l : list A) (a b : A) :
  List.NoDup (List.map f l) -> In a l -> In b l -> f a = f b -> a = b.
Proof.
  induction l as [|x l IH]; [intros _ []|]. cbn [List.map].
  intros Hnd Ha Hb Hf. inversion Hnd as [|? ? Hnot Hnd']; subst.
  destruct Ha as [->|Ha], Hb as [->|Hb]; auto.
  - destruct Hnot. rewrite Hf. now apply in_map.
  - destruct Hnot. rewrite <- Hf. now apply in_map.
Qed.

Lemma first_contact_In (i : string) (cs : list contact) (c : contact) :
  first_contact i cs = Some c -> In c cs /\ c_id c = i.
Proof.
  unfold first_contact. intros H. apply find_some in H as [Hin He].
  apply eqs_eq in He. auto.
Qed.

(** After a scan that fired, made when nothing was owed, and once the
    event loop has run every task (in any order, the transports
    answering in any way, failures included), each contact the scan
    alerted has its [notifiedAt] set to the time of the scan: the
    first contact carrying its id has.  A contact that changed is one
    of them, and when contact ids are distinct every contact of the
    patient carries the stamp and every other contact is as it was. *)
Theorem contacts_stamped_after_scan (patientId : string) (w w2 : world) :
  pending w = [] ->
  fired patientId w <> [] ->
  steps (snd (detectMissedDoses patientId w)) w2 ->
  pending w2 = [] ->
  (forall c, In c (contacts_for patientId w) ->
             stamped (c_id c) (clock (ticks w)) w2)
  /\ (forall c, In c (contacts_of w2) ->
        In c (contacts_of w)
        \/ (c_notifiedAt c = Some (clock (ticks w))
            /\ In (c_id c) (List.map c_id (contacts_for patientId w))))
  /\ (List.NoDup (List.map c_id (contacts_of w)) ->
      forall c, In c (contacts_of w2) ->
        if eqs (c_patientId c) patientId
        then c_notifiedAt c = Some (clock (ticks w))
        else In c (contacts_of w)).
Proof.
  intros Hq Hf Hsteps Hend.
  set (now := clock (ticks w)). set (ids := List.map c_id (contacts_for patientId w)).
  set (w1 := snd (detectMissedDoses patientId w)) in *.
  assert (Hc1 : contacts_of w1 = contacts_of w).
  { pose proof (detect_keeps_inputs patientId w) as Hi. unfold inputs in Hi.
    injection Hi as _ _ _ Hi _ _. exact Hi. }
  assert (Hids : forall i, In i ids -> In i (List.map c_id (contacts_of w1))).
  { intros i Hi. rewrite Hc1. unfold ids, contacts_for in Hi.
    apply in_map_iff in Hi as (c & <- & Hc). apply filter_In in Hc as [Hc _].
    now apply in_map. }
  assert (Hinit : settling now ids w1 w1).
  { destruct (detect_owes patientId w) as (added & Hp & Ho).
    fold w1 in Hp. rewrite Hq in Hp. cbn [app] in Hp.
    assert (Hmem : forall cb, In cb (owed (pending w1))
                     <-> In cb (cycle_callbacks now (contacts_for patientId w)
                                  (caregiver_for patientId w))).
    { intros cb. rewrite Hp, Ho. fold now.
      destruct (fired patientId w) as [|d ds]; [now destruct Hf|].
      rewrite in_flat_map. split; [now intros (_ & _ & H)|].
      intros H. exists d. split; [now left|exact H]. }
    unfold cycle_callbacks in Hmem.
    split; [|split; [|split]].
    - intros cb Hcb. apply Hmem, in_app_or in Hcb as [Hcb|Hcb];
        apply in_map_iff in Hcb as (x & <- & Hx); [right|now left].
      eexists. split; [reflexivity|]. unfold ids. now apply in_map.
    - intros i Hi. left. apply Hmem, in_or_app. left.
      unfold ids in Hi. apply in_map_iff in Hi as (c & <- & Hc).
      apply in_map_iff. eauto.
    - auto.
    - reflexivity. }
  destruct (settling_steps _ _ _ _ _ Hids Hinit Hsteps) as (H1 & H2 & H3 & H4).
  assert (Hstamped : forall c, In c (contacts_for patientId w) ->
                               stamped (c_id c) now w2).
  { intros c Hc. destruct (H2 (c_id c)) as [Ho|Hs]; [unfold ids; now apply in_map| |exact Hs].
    rewrite Hend in Ho. destruct Ho. }
  split; [exact Hstamped|]. split.
  - intros c Hc. destruct (H3 c Hc) as [Hin|[Hn Hi]]; [left; now rewrite <- Hc1|auto].
  - intros Hnd c Hc.
    destruct (steps_stamps _ _ Hsteps) as (_ & _ & _ & _ & _ & _ & Hfg).
    assert (Hc0 : exists c0, In c0 (contacts_of w) /\ c_id c0 = c_id c
                             /\ c_patientId c0 = c_patientId c).
    { apply (in_map forget_notified) in Hc. rewrite Hfg, Hc1 in Hc.
      apply in_map_iff in Hc as (c0 & He & Hin). exists c0. split; [exact Hin|].
      unfold forget_notified in He. now injection He. }
    destruct Hc0 as (c0 & Hin0 & Hid0 & Hp0).
    destruct (eqs (c_patientId c) patientId) eqn:E.
    + assert (Hcf : In c0 (contacts_for patientId w)).
      { apply filter_In. split; [exact Hin0|]. now rewrite Hp0. }
      destruct (Hstamped c0 Hcf) as (c' & Hfc & Hn).
      apply first_contact_In in Hfc as [Hin' Hid'].
      rewrite <- (NoDup_map_eq c_id (contacts_of w2) c' c); auto; [|congruence].
      now rewrite H4, Hc1.
    + destruct (H3 c Hc) as [Hin|[_ Hi]]; [now rewrite <- Hc1|].
      unfold ids in Hi. apply in_map_iff in Hi as (c1 & Hid1 & Hcf).
      apply filter_In in Hcf as [Hin1 Hp1]. apply eqs_eq in Hp1.
      assert (c1 = c0) by (apply (NoDup_map_eq c_id (contacts_of w)); auto; congruence).
      subst c1. apply eqs_neq in E. congruence.
Qed.

(** ** Polling *)

Lemma call_one_interval (st : timers) (c : timer_call) :
  one_interval st -> one_interval (call st c).
Proof.
  intros [[Hp Hi]|(p & Hp & Hi & Hpos)]; destruct c as [q|]; cbn [call].
  - right. exists q. unfold startPolling. rewrite Hp, Hi. cbn. repeat split; lia.
  - left. unfold stopPolling. rewrite Hp. cbn. auto.
  - right. exists q. unfold startPolling, clearInterval. rewrite Hp, Hi.
    cbn [timer_set default from_option id List.filter fst].
    destruct (handed_out st) as [|n] eqn:E; [lia|].
    cbn [Nat.eqb negb]. rewrite Nat.eqb_refl. cbn. repeat split; lia.
  - left. unfold stopPolling, clearInterval. rewrite Hp, Hi.
    cbn [timer_set default from_option id List.filter fst].
    destruct (handed_out st) as [|n] eqn:E; [lia|].
    cbn [Nat.eqb negb]. rewrite Nat.eqb_refl. cbn. auto.
Qed.

(** Whatever [startPolling] and [stopPolling] calls a page has made, at
    most one interval is running, the one [_pollTimer] names: starting
    again replaces it, so a period runs exactly one scan, for the
    patient of the latest start, and after [stopPolling] a period runs
    none. *)
Theorem polling_one_interval (calls : list timer_call) (p : string) (w : world) :
  let st := fold_left call calls no_timers in
  one_interval st
  /\ intervals (startPolling p st) = [(S (handed_out st), p)]
  /\ _pollTimer (startPolling p st) = Some (S (handed_out st))
  /\ snd (poll (startPolling p st) w) = snd (detectMissedDoses p w)
  /\ intervals (stopPolling st) = []
  /\ _pollTimer (stopPolling st) = None
  /\ poll (stopPolling st) w = (tt, w).
Proof.
  cbv zeta.
  assert (Hinv : one_interval (fold_left call calls no_timers)).
  { assert (H0 : one_interval no_timers) by (left; auto).
    revert H0. generalize no_timers. induction calls as [|c calls IH]; intros st H0.
    - exact H0.
    - cbn [fold_left]. apply IH. now apply call_one_interval. }
  split; [exact Hinv|].
  pose proof (call_one_interval _ (CallStart p) Hinv) as H1.
  pose proof (call_one_interval _ CallStop Hinv) as H2.
  cbn [call] in H1, H2.
  assert (Hstart : intervals (startPolling p (fold_left call calls no_timers))
                   = [(S (handed_out (fold_left call calls no_timers)), p)]).
  { destruct H1 as [[H _]|(q & _ & Hi & _)]; [discriminate H|].
    destruct Hinv as [[Hp Hi0]|(q0 & Hp & Hi0 & Hpos)];
      unfold startPolling, clearInterval in *; rewrite Hp, Hi0 in *.
    - reflexivity.
    - cbn [timer_set default from_option id List.filter fst] in *.
      destruct (handed_out (fold_left call calls no_timers)) as [|n]; [lia|].
      cbn [Nat.eqb negb]. rewrite Nat.eqb_refl. reflexivity. }
  assert (Hstop : intervals (stopPolling (fold_left call calls no_timers)) = []
                  /\ _pollTimer (stopPolling (fold_left call calls no_timers)) = None).
  { destruct Hinv as [[Hp Hi0]|(q0 & Hp & Hi0 & Hpos)];
      unfold stopPolling, clearInterval; rewrite Hp, Hi0.
    - cbn. rewrite Hp, Hi0. auto.
    - cbn [timer_set default from_option id List.filter fst].
      destruct (handed_out (fold_left call calls no_timers)) as [|n]; [lia|].
      cbn [Nat.eqb negb]. rewrite Nat.eqb_refl. cbn. auto. }
  destruct Hstop as [Hsi Hsp].
  split; [exact Hstart|]. split; [reflexivity|]. split; [|split; [exact Hsi|split]].
  - unfold poll. rewrite Hstart. cbn [mapM snd]. unfold bind, ret.
    destruct (detectMissedDoses p w). reflexivity.
  - exact Hsp.
  - unfold poll. rewrite Hsi. reflexivity.
Qed.

(** ** The earlier [addContact] *)

Lemma trim_truthy (s : string) : truthy (trim s) = true -> truthy s = true.
Proof. destruct s; [discriminate|reflexivity]. Qed.

(** The earlier [addContact] asks only that name and phone be
    non-empty: it accepts every call the current one accepts, and
    stores name and phone as given, untrimmed and unvalidated, never as
    primary; a refused call changes nothing.  It keeps the
    single-primary invariant, and adds exactly one contact at the end. *)
Theorem legacy_addContact_laxer
        (patientId name relation phone : string) (isPrimary : bool) (w : world) :
  let r := Legacy.addContact rand patientId name relation phone w in
  (ok (fst (addContact patientId name relation phone isPrimary w)) = true ->
   fst r = true)
  /\ (fst r = true <-> name <> "" /\ phone <> "")
  /\ (fst r = false -> snd r = w)
  /\ (fst r = true ->
      exists c, contacts_of (snd r) = (contacts_of w ++ [c])%list
                /\ c_patientId c = patientId /\ c_name c = name
                /\ c_phone c = phone /\ c_isPrimary c = false
                /\ c_notifiedAt c = None /\ truthy (c_relation c) = true)
  /\ (single_primary (contacts_of w) -> single_primary (contacts_of (snd r))).
Proof.
  cbv zeta. unfold Legacy.addContact.
  assert (Hacc : negb (truthy name) || negb (truthy phone) = false
                 <-> name <> "" /\ phone <> "").
  { rewrite orb_false_iff, !negb_false_iff.
    split; intros [Hn Hp]; split.
    - intros ->. discriminate Hn.
    - intros ->. discriminate Hp.
    - destruct name; [now destruct Hn|reflexivity].
    - destruct phone; [now destruct Hp|reflexivity]. }
  split; [|destruct (negb (truthy name) || negb (truthy phone)) eqn:E].
  - intros Hok. unfold addContact in Hok.
    destruct (negb (truthy (trim name)) || negb (truthy (trim phone))) eqn:E;
      [discriminate Hok|].
    apply orb_false_iff in E as [En Ep]. apply negb_false_iff in En, Ep.
    apply trim_truthy in En, Ep. rewrite En, Ep. reflexivity.
  - cbn [ret fst snd]. split; [|split; [|split]].
    + split; [discriminate|]. intros H. apply Hacc in H. discriminate H.
    + reflexivity.
    + discriminate.
    + auto.
  - unfold bind, getStore, Legacy.uuid, modifyStore, ret, contacts_of.
    cbn [fst snd storage with_storage set_emergency_contacts ah_emergency_contacts].
    split; [|split; [|split]].
    + split; [intros _; now apply Hacc|reflexivity].
    + discriminate.
    + intros _. eexists. split; [reflexivity|]. cbn [c_patientId c_name c_phone
        c_isPrimary c_notifiedAt c_relation]. repeat split.
      destruct (truthy relation) eqn:Er; [exact Er|reflexivity].
    + intros Hs q. specialize (Hs q). rewrite primaries_app.
      rewrite length_app. unfold primaries at 2.
      cbn [List.filter c_patientId c_isPrimary]. rewrite andb_false_r.
      cbn [length]. lia.
Qed.

(** ** Prescribing and editing a medication *)

Lemma find_app_is_Some {A : Type} (f : A -> bool) (l : list A) (a : A) :
  f a = true -> is_Some (List.find f (l ++ [a])%list).
Proof.
  intros Ha. induction l as [|x l IH]; cbn [app List.find].
  - rewrite Ha. eauto.
  - destruct (f x); eauto.
Qed.

Lemma truthy_neq (s : string) : truthy s = true <-> s <> "".
Proof.
  destruct s; cbn; split; try congruence; try discriminate; auto.
Qed.

(** Prescribing needs a patient, a name and a dosage that are not blank
    and a frequency; a refused form changes nothing.  Otherwise one
    medication with a fresh non-empty id is appended and its
    [generateDoses] schedule after it, so every new dose finds its
    medication: an untaken new dose with scheduled instant [t], not yet
    notified, is fired by a scan for a known patient exactly when the
    clock reads [t] plus 30 minutes or more, as long as medications and
    doses stay as the prescription left them. *)
Theorem prescribe_effect (calendar : Z -> Z -> Z -> Z) (chance : nat -> bool)
        (pid name dos freq : string) (w : world) :
  let r := prescribe calendar chance pid name dos freq w in
  (fst r = true <-> pid <> "" /\ trim name <> "" /\ trim dos <> "" /\ freq <> "")
  /\ (fst r = false -> snd r = w)
  /\ (fst r = true ->
      exists (med : medication) (new : list dose),
        ah_medications (storage (snd r)) = (ah_medications (storage w) ++ [med])%list
        /\ ah_doses (storage (snd r)) = (ah_doses (storage w) ++ new)%list
        /\ m_patientId med = pid /\ m_name med = trim name /\ m_dosage med = trim dos
        /\ truthy (m_id med) = true
        /\ length new = (37 * length (dose_times freq))%nat
        /\ Forall (dose_of med pid) new
        /\ (forall d, In d new -> is_Some (med_of (ah_medications (storage (snd r))) d))
        /\ (forall (d : dose) (t : Z) (w2 : world),
              In d new -> d_takenAt d = None -> d_scheduledTime d = Instant t ->
              ah_medications (storage w2) = ah_medications (storage (snd r)) ->
              ah_doses (storage w2) = ah_doses (storage (snd r)) ->
              is_Some (patient_of pid w2) ->
              d_id d ∉ already_notified (notifs_of w2) ->
              (In d (fired pid w2) <-> thresholdMs <= clock (ticks w2) - t))).
Proof.
  cbv zeta. unfold prescribe.
  destruct (truthy pid) eqn:Ep; cbn [negb];
    [|split; [split; [discriminate|intros (H & _); apply truthy_neq in H; congruence]
             |split; [reflexivity|discriminate]]].
  destruct (truthy (trim name)) eqn:En; cbn [negb];
    [|split; [split; [discriminate|intros (_ & H & _); apply truthy_neq in H; congruence]
             |split; [reflexivity|discriminate]]].
  destruct (truthy (trim dos)) eqn:Ed; cbn [negb];
    [|split; [split; [discriminate
                     |intros (_ & _ & H & _); apply truthy_neq in H; congruence]
             |split; [reflexivity|discriminate]]].
  destruct (truthy freq) eqn:Ef; cbn [negb];
    [|split; [split; [discriminate
                     |intros (_ & _ & _ & H); apply truthy_neq in H; congruence]
             |split; [reflexivity|discriminate]]].
  apply truthy_neq in Ep, En, Ed, Ef.
  unfold bind, uuid, new_Date, random_above, modifyStore. cbv beta iota.
  match goal with
  | |- context [generateDoses calendar chance ?m freq pid ?w0] =>
      destruct (generateDoses_appends calendar chance m freq pid w0)
        as (history & future & Hd & _ & Hh & Hf & HP & _ & _ & _ & Hm & _);
      destruct (generateDoses calendar chance m freq pid w0) as [[] w1];
      set (med := m) in *
  end.
  cbn [fst snd ret] in *.
  cbn [storage with_storage set_medications ah_doses ah_medications] in Hd, Hm.
  split; [tauto|]. split; [discriminate|]. intros _.
  exists med, (history ++ future)%list.
  assert (Hfind : forall d, In d (history ++ future)%list ->
                    is_Some (med_of (ah_medications (storage w1)) d)).
  { intros d Hin. rewrite Hm. unfold med_of. apply find_app_is_Some.
    rewrite List.Forall_forall in HP. destruct (HP d Hin) as (Hmid & _).
    rewrite Hmid. apply eqs_refl. }
  split; [exact Hm|]. split; [exact Hd|].
  split; [reflexivity|]. split; [reflexivity|]. split; [reflexivity|].
  split; [reflexivity|].
  split; [rewrite length_app, Hh, Hf; lia|].
  split; [exact HP|]. split; [exact Hfind|].
  intros d t w2 Hin Hta Hs Hm2 Hd2 Hpat Hnot.
  rewrite fired_in, Hm2, Hd2, Hd. unfold fires.
  rewrite List.Forall_forall in HP. destruct (HP d Hin) as (_ & Hpd & _).
  assert (Hel : eligible pid d = true).
  { unfold eligible. rewrite Hpd, eqs_refl, Hta, Hs. reflexivity. }
  rewrite (bool_decide_eq_false_2 _ Hnot).
  rewrite (bool_decide_eq_true_2 _ (Hfind d Hin)). cbn [negb]. rewrite !andb_true_r.
  rewrite (overdue_instant _ t d Hs). split; [tauto|]. intros Hov.
  repeat split; auto. apply in_or_app. now right.
Qed.



(** ** Accounts: registration, login and the route guard *)

Lemma lower_char_idem (c : ascii) : lower_char (lower_char c) = lower_char c.
Proof. destruct c as [[] [] [] [] [] [] [] []]; reflexivity. Qed.

Lemma toLowerCase_idem (s : string) : toLowerCase (toLowerCase s) = toLowerCase s.
Proof.
  induction s as [|c s IH]; [reflexivity|]. cbn [toLowerCase].
  now rewrite lower_char_idem, IH.
Qed.

Lemma find_none_app {A : Type} (f : A -> bool) (l : list A) (a : A) :
  List.find f l = None -> List.find f (l ++ [a])%list = (if f a then Some a else None).
Proof.
  induction l as [|x l IH]; cbn [app List.find]; [reflexivity|].
  destruct (f x); [discriminate|exact IH].
Qed.

(** [registerUser] refuses exactly when a stored address equals the
    given one up to case, and then changes nothing.  An accepted
    registration appends one account with a fresh non-empty id, the
    trimmed name and the trimmed lower-case address, and leaves the
    session alone; from then on [loginUser] succeeds with the
    registered password for every spelling of the address that agrees
    with it up to case and surrounding blanks: it returns a stored
    account known by that address with that password and opens its
    session, which [requireAuth] accepts for the account's role and for
    no other role, and which [logout] ends.  When the address given to
    [registerUser] carries no surrounding blanks and no two stored
    accounts were known by the same address, this is still so
    afterwards and the login returns the new account itself. *)
Theorem register_then_login (name email password role spelled : string)
        (st : Auth.state) :
  let r := Auth.registerUser rand name email password role st in
  (Auth.out_ok (fst r) = true
   <-> forall u, In u (Auth.users st) -> Auth.known_as u <> toLowerCase email)
  /\ (Auth.out_ok (fst r) = false -> snd r = st)
  /\ (Auth.out_ok (fst r) = true ->
      exists new : Auth.account,
        Auth.out_user (fst r) = Some new
        /\ Auth.users (snd r) = (Auth.users st ++ [new])%list
        /\ Auth.a_email new = toLowerCase (trim email)
        /\ Auth.a_name new = trim name /\ Auth.a_role new = role
        /\ truthy (Auth.a_id new) = true
        /\ Auth.current (snd r) = Auth.current st
        /\ (toLowerCase (trim spelled) = toLowerCase (trim email) ->
            let l := Auth.loginUser spelled password (snd r) in
            exists u : Auth.account,
              fst l = Auth.mkOutcome true (Some u) None
              /\ In u (Auth.users (snd r))
              /\ Auth.known_as u = toLowerCase (trim email)
              /\ Auth.a_password u = password
              /\ Auth.users (snd l) = Auth.users (snd r)
              /\ Auth.requireAuth (Some (Auth.a_role u)) (snd l)
                 = Some (Auth.mkSession (Auth.a_id u) (Auth.a_role u) (Auth.a_name u))
              /\ (forall other, other <> "" -> other <> Auth.a_role u ->
                    Auth.requireAuth (Some other) (snd l) = None)
              /\ (forall expected, Auth.requireAuth expected (Auth.logout (snd l))
                                   = None)
              /\ (email = trim email ->
                  List.NoDup (List.map Auth.known_as (Auth.users st)) ->
                  u = new
                  /\ List.NoDup (List.map Auth.known_as (Auth.users (snd r)))))).
Proof.
  cbv zeta. unfold Auth.registerUser, Auth.known_as.
  destruct (List.find _ (Auth.users st)) as [dup|] eqn:Hfind; cbn [fst snd Auth.out_ok].
  - split; [|split; [reflexivity|discriminate]].
    split; [discriminate|]. intros Hall. apply find_some in Hfind as [Hin He].
    apply eqs_eq in He. now destruct (Hall dup Hin).
  - assert (Hfresh : forall u, In u (Auth.users st) ->
                       toLowerCase (Auth.a_email u) <> toLowerCase email).
    { intros u Hin. apply eqs_neq. exact (find_none _ _ Hfind u Hin). }
    split; [split; [intros _; exact Hfresh|reflexivity]|].
    split; [discriminate|]. intros _.
    eexists. split; [reflexivity|].
    cbn [Auth.users Auth.a_email Auth.a_name Auth.a_role Auth.a_id Auth.current].
    split; [reflexivity|]. split; [reflexivity|]. split; [reflexivity|].
    split; [reflexivity|]. split; [reflexivity|]. split; [reflexivity|].
    intros Hsp. unfold Auth.loginUser. cbn [Auth.users Auth.drawn].
    match goal with
    | |- context [List.find ?f (Auth.users st ++ [?n])%list] =>
        set (new := n); set (p := f);
        assert (Hnew : p new = true)
    end.
    { unfold p, new. cbn [Auth.a_email Auth.a_password].
      rewrite toLowerCase_idem, Hsp, !eqs_refl. reflexivity. }
    assert (Hsome : exists u, List.find p (Auth.users st ++ [new])%list = Some u).
    { destruct (List.find p (Auth.users st ++ [new])%list) as [u|] eqn:E; [eauto|].
      pose proof (find_none _ _ E new) as Hn.
      rewrite Hnew in Hn. discriminate Hn. apply in_or_app. right. now left. }
    destruct Hsome as (u & Hu). rewrite Hu. cbn [fst snd].
    pose proof (find_some _ _ Hu) as [Hin Hp]. unfold p in Hp.
    apply andb_true_iff in Hp as [Hpe Hpp]. apply eqs_eq in Hpe, Hpp.
    exists u. split; [reflexivity|]. split; [exact Hin|].
    split; [congruence|]. split; [exact Hpp|]. split; [reflexivity|].
    unfold Auth.requireAuth, Auth.logout.
    cbn [Auth.current Auth.s_role truthy_opt default from_option id].
    split; [|split; [|split]].
    + rewrite eqs_refl. cbn [negb]. rewrite andb_false_r. reflexivity.
    + intros other Ho Hne. apply truthy_neq in Ho. rewrite Ho.
      assert (He : eqs (Auth.a_role u) other = false) by (apply eqs_neq; congruence).
      rewrite He. reflexivity.
    + reflexivity.
    + intros Htrim Hnd.
      assert (Hold : List.find p (Auth.users st) = None).
      { destruct (List.find p (Auth.users st)) as [v|] eqn:E; [|reflexivity].
        apply find_some in E as [Hv Hpv]. unfold p in Hpv.
        apply andb_true_iff in Hpv as [Hpv _]. apply eqs_eq in Hpv.
        destruct (Hfresh v Hv). rewrite Htrim. congruence. }
      rewrite (find_none_app p _ new Hold), Hnew in Hu. injection Hu as <-.
      split; [reflexivity|].
      rewrite List.map_app. cbn [List.map].
      assert (Hnot : ~ In (toLowerCase (Auth.a_email new))
                        (List.map (fun u => toLowerCase (Auth.a_email u))
                                  (Auth.users st))).
      { intros Hi. apply in_map_iff in Hi as (v & Hv & Hvin).
        destruct (Hfresh v Hvin). rewrite Hv. unfold new. cbn [Auth.a_email].
        rewrite toLowerCase_idem. now rewrite <- Htrim. }
      clear -Hnd Hnot. revert Hnd Hnot.
      induction (List.map (fun u => toLowerCase (Auth.a_email u)) (Auth.users st))
        as [|x l IH]; intros Hnd Hnot; cbn [app].
      * constructor; [intros []|constructor].
      * inversion Hnd as [|? ? Hx Hnd']; subst. constructor.
        -- intros Hi. apply in_app_or in Hi as [Hi|[Hi|[]]]; [contradiction|].
           apply Hnot. left. now symmetry.
        -- apply IH; [exact Hnd'|]. intros Hi. apply Hnot. now right.
Qed.

Lemma is_space_lower (c : ascii) : is_space (lower_char c) = is_space c.
Proof. destruct c as [[] [] [] [] [] [] [] []]; reflexivity. Qed.

Lemma chars_lower (s : string) :
  list_ascii_of_string (toLowerCase s) = List.map lower_char (list_ascii_of_string s).
Proof. induction s as [|c s IH]; [reflexivity|]. cbn. now rewrite IH. Qed.

Lemma no_lead_map_lower (l : list ascii) : no_lead (List.map lower_char l) <-> no_lead l.
Proof. destruct l as [|c l]; [tauto|]. cbn. now rewrite is_space_lower. Qed.

Lemma trim_fix (s : string) :
  no_lead (list_ascii_of_string s) -> no_lead (rev (list_ascii_of_string s)) ->
  trim s = s.
Proof.
  intros Hl Ht. unfold trim, trim_chars.
  rewrite (trimStart_fix _ Hl), (trimEnd_fix _ Ht).
  apply string_of_list_ascii_of_string.
Qed.

Lemma trim_ends (s : string) :
  no_lead (list_ascii_of_string (trim s))
  /\ no_lead (rev (list_ascii_of_string (trim s))).
Proof.
  unfold trim. rewrite list_ascii_of_string_of_list_ascii. split.
  - apply trimEnd_no_lead, trimStart_no_lead.
  - apply trimEnd_no_trail.
Qed.

Lemma lower_ends (s : string) :
  (no_lead (list_ascii_of_string (toLowerCase s)) <-> no_lead (list_ascii_of_string s))
  /\ (no_lead (rev (list_ascii_of_string (toLowerCase s)))
      <-> no_lead (rev (list_ascii_of_string s))).
Proof.
  rewrite chars_lower, <- map_rev. split; apply no_lead_map_lower.
Qed.

Lemma trim_lower_trim (s : string) :
  trim (toLowerCase (trim s)) = toLowerCase (trim s).
Proof.
  destruct (trim_ends s) as [Hl Ht]. destruct (lower_ends (trim s)) as [H1 H2].
  apply trim_fix; [now apply H1|now apply H2].
Qed.

(** Every address [registerUser] stores is trimmed and in lower case.
    Its duplicate check, though, compares the address as given: when
    the stored addresses are trimmed and the given one carries a blank
    at either end, the check finds nothing and the registration is
    accepted, so that an address already registered then names two
    accounts. *)
Theorem register_normalises (name email password role : string) (st : Auth.state) :
  let r := Auth.registerUser rand name email password role st in
  (normalised (Auth.users st) -> normalised (Auth.users (snd r)))
  /\ (normalised (Auth.users st) -> email <> trim email ->
      Auth.out_ok (fst r) = true
      /\ forall u, In u (Auth.users st) ->
           Auth.known_as u = toLowerCase (trim email) ->
           ~ List.NoDup (List.map Auth.known_as (Auth.users (snd r)))).
Proof.
  cbv zeta. split.
  - intros Hn. unfold Auth.registerUser.
    destruct (List.find _ (Auth.users st)); cbn [snd Auth.users]; [exact Hn|].
    intros u Hin. apply in_app_or in Hin as [Hin|[<-|[]]]; [now apply Hn|].
    cbn [Auth.a_email]. now rewrite trim_lower_trim, toLowerCase_idem.
  - intros Hn Hpad.
    assert (Hnone : List.find (fun u => eqs (toLowerCase (Auth.a_email u))
                                             (toLowerCase email))
                              (Auth.users st) = None).
    { destruct (List.find _ (Auth.users st)) as [v|] eqn:E; [|reflexivity].
      exfalso. apply find_some in E as [Hv He]. apply eqs_eq in He.
      apply Hpad. symmetry.
      assert (Hends : no_lead (list_ascii_of_string (toLowerCase email))
                      /\ no_lead (rev (list_ascii_of_string (toLowerCase email)))).
      { rewrite <- He, (Hn v Hv), toLowerCase_idem.
        destruct (trim_ends (Auth.a_email v)) as [Hl Ht].
        destruct (lower_ends (trim (Auth.a_email v))) as [H1 H2].
        split; [now apply H1|now apply H2]. }
      destruct Hends as [Hl Ht]. destruct (lower_ends email) as [H1 H2].
      apply trim_fix; [now apply H1|now apply H2]. }
    unfold Auth.registerUser. rewrite Hnone. cbn [fst snd Auth.out_ok Auth.users].
    split; [reflexivity|]. intros u Hin Hk Hnd.
    rewrite List.map_app in Hnd. cbn [List.map] in Hnd.
    apply NoDup_remove_2 in Hnd. apply Hnd. rewrite app_nil_r.
    unfold Auth.known_as at 1. cbn [Auth.a_email]. rewrite toLowerCase_idem, <- Hk.
    now apply in_map.
Qed.

End Engine.

(** * Worked instances *)

(** C1 at the demo world: the second scan follows the first at once. *)
Lemma detect_idempotent_witness :
  let w1 := snd (detectMissedDoses demo_rand demo_clock demo_fmt "p1" demo_world) in
  let v1 := snd (Legacy.detectMissedDoses demo_rand demo_clock demo_fmt "p1" demo_world) in
  fst (detectMissedDoses demo_rand demo_clock demo_fmt "p1" demo_world) = 1%nat
  /\ detectMissedDoses demo_rand demo_clock demo_fmt "p1" w1 = (O, tick w1)
  /\ Legacy.detectMissedDoses demo_rand demo_clock demo_fmt "p1" v1 = (O, tick v1).
Proof.
  intros w1 v1.
  assert (Hwf : Forall (fun d => truthy (d_id d) = true) (ah_doses (storage demo_world)))
    by (repeat constructor).
  assert (Hcross : forall now2 : Z,
            no_crossing demo_world (demo_clock (ticks demo_world)) now2).
  { intros now2 d t [<-|[]] [= <-] _. vm_compute. discriminate. }
  assert (Hw1 : same_scan_inputs demo_world w1) by (repeat split).
  assert (Hv1 : same_scan_inputs demo_world v1) by (repeat split).
  split; [reflexivity|]. split.
  - exact (proj2 (proj1 (detect_idempotent demo_rand demo_clock demo_fmt "p1"
                           demo_world w1 Hwf Hw1 (Hcross _)) eq_refl)).
  - exact (proj2 (proj2 (detect_idempotent demo_rand demo_clock demo_fmt "p1"
                           demo_world v1 Hwf Hv1 (Hcross _)) eq_refl)).
Defined.

(** C2 at the demo world: the dose is 31 minutes overdue and fires. *)
Lemma threshold_boundary_witness :
  In demo_dose (ah_doses (storage demo_world))
  /\ (d_id demo_dose ∉ already_notified (notifs_of demo_world))
  /\ (In demo_dose (fired demo_clock "p1" demo_world)
      <-> thresholdMs <= demo_clock (ticks demo_world) - demo_T)
  /\ (In demo_dose (fired_legacy demo_clock "p1" demo_world)
      <-> thresholdMs <= demo_clock (ticks demo_world) - demo_T).
Proof.
  assert (Hin : In demo_dose (ah_doses (storage demo_world))) by (left; reflexivity).
  assert (Hnot : d_id demo_dose ∉ already_notified (notifs_of demo_world)).
  { rewrite elem_of_already_notified. intros (n & [] & _). }
  assert (Hmed : is_Some (med_of (ah_medications (storage demo_world)) demo_dose)).
  { eexists. reflexivity. }
  pose proof (threshold_boundary demo_rand demo_clock demo_fmt "p1" demo_world
                demo_dose demo_T Hin eq_refl eq_refl eq_refl Hnot Hmed)
    as (_ & H3 & HL & _).
  split; [exact Hin|]. split; [exact Hnot|]. split; [|exact HL].
  apply H3. eexists. reflexivity.
Defined.

(** C2 as stated fails: the demo dose is of the patient, untaken, with a
    scheduled time, not yet notified and 31 minutes overdue, but its
    medication has been removed, and neither engine fires. *)
Lemma threshold_without_medication :
  In demo_dose (ah_doses (storage demo_world_no_med))
  /\ d_patientId demo_dose = "p1"
  /\ d_takenAt demo_dose = None
  /\ d_scheduledTime demo_dose = Instant demo_T
  /\ (d_id demo_dose ∉ already_notified (notifs_of demo_world_no_med))
  /\ thresholdMs <= demo_clock (ticks demo_world_no_med) - demo_T
  /\ detectMissedDoses demo_rand demo_clock demo_fmt "p1" demo_world_no_med
     = (O, tick demo_world_no_med)
  /\ Legacy.detectMissedDoses demo_rand demo_clock demo_fmt "p1" demo_world_no_med
     = (O, tick demo_world_no_med).
Proof.
  split; [left; reflexivity|]. do 3 (split; [reflexivity|]).
  split; [rewrite elem_of_already_notified; intros (n & [] & _)|].
  split; [vm_compute; discriminate|]. split; reflexivity.
Qed.

(** C3 at the demo world: two contacts and a caregiver, simulation
    mode. *)
Lemma fan_out_complete_witness :
  caregiver_for "p1" demo_world = Some demo_caregiver
  /\ fired demo_clock "p1" demo_world = [demo_dose]
  /\ exists ns w',
       detectMissedDoses demo_rand demo_clock demo_fmt "p1" demo_world = (1%nat, w')
       /\ notifs_of w' = ns
       /\ List.map n_type ns = [MISSED_DOSE; SMS_SENT; SMS_SENT; CAREGIVER_ALERT]
       /\ length (logs_of w') = 3%nat.
Proof.
  assert (Hcg : caregiver_for "p1" demo_world = Some demo_caregiver) by reflexivity.
  assert (Hf : fired demo_clock "p1" demo_world = [demo_dose]) by reflexivity.
  split; [exact Hcg|]. split; [exact Hf|].
  destruct (fan_out_complete demo_rand demo_clock demo_fmt "p1" demo_world
              demo_dose demo_caregiver Hcg Hf eq_refl)
    as (ns & w' & E & Hn & Ht & _ & Hl & _).
  exists ns, w'. split; [exact E|]. split; [exact Hn|]. split; [exact Ht|].
  destruct (Hl eq_refl) as (new & -> & Hlen). rewrite length_app, Hlen. reflexivity.
Defined.

(** C4 at the demo world: one dose, distinct ids. *)
Lemma detect_return_value_witness :
  List.NoDup (List.map d_id (ah_doses (storage demo_world)))
  /\ List.NoDup (List.map d_id (fired demo_clock "p1" demo_world))
  /\ fst (detectMissedDoses demo_rand demo_clock demo_fmt "p1" demo_world)
     = length (fired demo_clock "p1" demo_world).
Proof.
  assert (Hnd : List.NoDup (List.map d_id (ah_doses (storage demo_world)))).
  { repeat constructor. intros []. }
  destruct (detect_return_value demo_rand demo_clock demo_fmt) as (H1 & H2 & _).
  split; [exact Hnd|]. split; [exact (H2 "p1" demo_world Hnd)|exact (H1 "p1" demo_world)].
Defined.

(** C4 as stated fails on the earlier engine: one dose fires for a
    patient with two contacts and the call returns 3. *)
Lemma legacy_returns_notification_count :
  fired_legacy demo_clock "p1" demo_world = [demo_dose]
  /\ length (contacts_for "p1" demo_world) = 2%nat
  /\ fst (Legacy.detectMissedDoses demo_rand demo_clock demo_fmt "p1" demo_world)
     = 3%nat.
Proof. repeat split. Qed.

(** C5 at the demo world without users, current engine. *)
Lemma unknown_patient_witness :
  patient_of "p1" demo_world_no_user = None
  /\ detectMissedDoses demo_rand demo_clock demo_fmt "p1" demo_world_no_user
     = (O, tick demo_world_no_user)
  /\ storage (snd (detectMissedDoses demo_rand demo_clock demo_fmt "p1"
                                     demo_world_no_user))
     = storage demo_world_no_user.
Proof.
  assert (Hp : patient_of "p1" demo_world_no_user = None) by reflexivity.
  destruct (proj1 (unknown_patient demo_rand demo_clock demo_fmt)
              "p1" demo_world_no_user Hp) as (H1 & H2 & _).
  split; [exact Hp|]. split; [exact H1|exact H2].
Defined.

(** C5 as stated fails on the earlier engine: no user has the id, yet
    the call returns 3 and the feed gains three notifications. *)
Lemma legacy_scans_unknown_patient :
  patient_of "p1" demo_world_no_user = None
  /\ fst (Legacy.detectMissedDoses demo_rand demo_clock demo_fmt "p1"
                                   demo_world_no_user) = 3%nat
  /\ notifs_of demo_world_no_user = []
  /\ length (notifs_of (snd (Legacy.detectMissedDoses demo_rand demo_clock demo_fmt
                               "p1" demo_world_no_user))) = 3%nat.
Proof. repeat split. Qed.

(** C6 in simulation mode and with twilio failing. *)
Lemma send_logs_exactly_once_witness :
  let w := mkWorld demo_store "twilio" 0 0 [] in
  (r_ok (fst (send demo_rand demo_clock (Threw "down") "+1-555-0101" "ALERT"
                   empty_meta w)) = false
   /\ r_status (fst (send demo_rand demo_clock (Threw "down") "+1-555-0101" "ALERT"
                          empty_meta w)) = FAILED)
  /\ (r_ok (fst (send demo_rand demo_clock (Threw "down") "+1-555-0101" "ALERT"
                      empty_meta demo_world)) = true
      /\ r_status (fst (send demo_rand demo_clock (Threw "down") "+1-555-0101" "ALERT"
                             empty_meta demo_world)) = SIMULATED).
Proof.
  intros w.
  destruct (proj1 (send_logs_exactly_once demo_rand demo_clock)
              (Threw "down") "+1-555-0101" "ALERT" empty_meta w) as (_ & _ & Hthrew).
  destruct (proj1 (send_logs_exactly_once demo_rand demo_clock)
              (Threw "down") "+1-555-0101" "ALERT" empty_meta demo_world)
    as (_ & Hsim & _).
  split.
  - exact (Hthrew "down" eq_refl (or_introl eq_refl)).
  - exact (Hsim eq_refl).
Defined.

Lemma demo_primaries_ok : single_primary (contacts_of demo_world_primaries).
Proof.
  intros q. unfold primaries, contacts_of.
  cbn [demo_world_primaries storage ah_emergency_contacts List.filter
       demo_anna demo_ben c_patientId c_isPrimary].
  unfold eqs.
  destruct (String.eqb_spec "p1" q); destruct (String.eqb_spec "p2" q);
    subst; try discriminate; cbn; lia.
Defined.

(** C7 at a store with two patients: adding a primary contact for p1
    when Anna was primary. *)
Lemma single_primary_preserved_witness :
  single_primary (contacts_of demo_world_primaries)
  /\ single_primary
       (contacts_of (snd (addContact demo_rand demo_clock "p1" "Carl" "Brother"
                                     "555-0101" true demo_world_primaries)))
  /\ single_primary
       (contacts_of (snd (updateContact demo_clock "b1"
                            (mkFields None None None None None (Some true) None None)
                            demo_world_primaries))).
Proof.
  destruct (single_primary_preserved demo_rand demo_clock) as (Hadd & Hupd & _).
  split; [exact demo_primaries_ok|]. split.
  - exact (Hadd "p1" "Carl" "Brother" "555-0101" true demo_world_primaries
                demo_primaries_ok).
  - exact (Hupd "b1" (mkFields None None None None None (Some true) None None)
                demo_world_primaries eq_refl demo_primaries_ok).
Defined.

(** C7 as stated fails: an update that also carries [patientId] moves
    Ben to patient p1 as primary while Anna stays primary there. *)
Lemma updateContact_moves_primary :
  single_primary (contacts_of demo_world_primaries)
  /\ ok (fst (updateContact demo_clock "b1"
                (mkFields None (Some "p1") None None None (Some true) None None)
                demo_world_primaries)) = true
  /\ ~ single_primary
         (contacts_of (snd (updateContact demo_clock "b1"
                              (mkFields None (Some "p1") None None None (Some true)
                                        None None)
                              demo_world_primaries))).
Proof.
  split; [exact demo_primaries_ok|]. split; [reflexivity|].
  intros H. specialize (H "p1"). vm_compute in H. lia.
Qed.

(** C8 at an entry of patient p1 that was acknowledged at [demo_T]: a
    later call, here even on behalf of patient p2, replaces the
    acknowledgement time. *)
Lemma acknowledgeLog_stamps_unconditionally_witness :
  logs_of demo_world_acked = [demo_log]
  /\ l_patientId demo_log = "p1"
  /\ l_acknowledgedAt demo_log = Some demo_T
  /\ logs_of (snd (acknowledgeLog demo_clock "L1" "p2" demo_world_acked))
     = [set_acknowledgedAt (Some (demo_T + 1860000)) demo_log].
Proof.
  do 3 (split; [reflexivity|]).
  exact (acknowledgeLog_stamps_unconditionally demo_clock "L1" "p2" demo_world_acked
           [] [] demo_log eq_refl (List.Forall_nil _) eq_refl).
Defined.

(** C9: [addContact] turns down a phone the validator rejects. *)
Lemma validatePhone_exact_witness :
  validatePhone "abc" = false
  /\ ok (fst (addContact demo_rand demo_clock "p1" "Carl" "Brother" "abc" false
                         demo_world)) = false
  /\ snd (addContact demo_rand demo_clock "p1" "Carl" "Brother" "abc" false demo_world)
     = demo_world.
Proof.
  split; [reflexivity|].
  exact (proj2 (proj2 (validatePhone_exact demo_rand demo_clock))
           "p1" "Carl" "Brother" "abc" false demo_world
           (or_intror (or_intror eq_refl))).
Defined.

(** C10 at the demo world: scan, clear, scan again. *)
Lemma clear_all_rearms_witness :
  let w1 := snd (detectMissedDoses demo_rand demo_clock demo_fmt "p1" demo_world) in
  let wc := snd (clearAllNotifications "p1" w1) in
  In demo_dose (fired demo_clock "p1" demo_world)
  /\ notifs_of wc = []
  /\ In demo_dose (fired demo_clock "p1" wc)
  /\ fst (detectMissedDoses demo_rand demo_clock demo_fmt "p1" wc) = 1%nat.
Proof.
  intros w1 wc.
  assert (Hin : In demo_dose (fired demo_clock "p1" demo_world)) by (left; reflexivity).
  assert (Hs : same_scan_inputs demo_world w1) by (repeat split).
  assert (Hc : demo_clock (ticks demo_world) <= demo_clock (ticks w1))
    by (vm_compute; discriminate).
  destruct (clear_all_rearms demo_rand demo_clock demo_fmt "p1" demo_world w1
              demo_dose Hin Hs eq_refl Hc) as (Hf & _).
  split; [exact Hin|]. split; [reflexivity|]. split; [exact Hf|reflexivity].
Defined.

(** ** The feed, contacts and doses at the demo stores *)

(** Marking p1's feed read leaves p2's unread count alone. *)
Lemma markAllRead_effect_witness :
  "p2" <> "p1"
  /\ fst (getUnreadCount "p2" (snd (markAllRead "p1" demo_world_feed)))
     = fst (getUnreadCount "p2" demo_world_feed).
Proof.
  destruct (markAllRead_effect demo_clock "p1" demo_world_feed) as (_ & H & _).
  split; [discriminate|]. apply H. discriminate.
Defined.

(** Marking n1 read lowers p1's unread count by one. *)
Lemma markOneRead_effect_witness :
  List.NoDup (List.map n_id (notifs_of demo_world_feed))
  /\ S (fst (getUnreadCount "p1" (snd (markOneRead "n1" demo_world_feed))))
     = fst (getUnreadCount "p1" demo_world_feed).
Proof.
  assert (Hnd : List.NoDup (List.map n_id (notifs_of demo_world_feed))).
  { constructor; [intros [H|[]]; discriminate H|].
    constructor; [intros []|constructor]. }
  split; [exact Hnd|].
  destruct (markOneRead_effect demo_clock "n1" demo_world_feed) as (_ & _ & H & _).
  apply (H demo_notif_missed "p1" Hnd); [now left|reflexivity..].
Defined.

(** Clearing p1's feed keeps p2's unread entry. *)
Lemma clearAllNotifications_effect_witness :
  "p2" <> "p1"
  /\ unread_in "p2" (notifs_of (snd (clearAllNotifications "p1" demo_world_feed)))
     = unread_in "p2" (notifs_of demo_world_feed).
Proof.
  destruct (clearAllNotifications_effect "p1" demo_world_feed) as (_ & _ & H & _).
  split; [discriminate|]. apply H. discriminate.
Defined.

Lemma demo_phones_ok : valid_phones (contacts_of demo_world).
Proof. repeat constructor. Qed.

(** The demo contacts have valid phones, and so has the store after one
    more contact is added. *)
Lemma valid_phones_preserved_witness :
  valid_phones (contacts_of demo_world)
  /\ valid_phones
       (contacts_of (snd (addContact demo_rand demo_clock "p1" "Carl" "Brother"
                                     "555-0101" true demo_world))).
Proof.
  destruct (valid_phones_preserved demo_rand demo_clock) as (Hadd & _).
  split; [exact demo_phones_ok|].
  exact (Hadd "p1" "Carl" "Brother" "555-0101" true demo_world demo_phones_ok).
Defined.

(** Removing Anna keeps the invariant; p1 is then without a primary. *)
Lemma deleteContact_effect_witness :
  single_primary (contacts_of demo_world_primaries)
  /\ single_primary (contacts_of (snd (deleteContact "a1" demo_world_primaries))).
Proof.
  destruct (deleteContact_effect "a1" demo_world_primaries) as (_ & _ & H & _).
  split; [exact demo_primaries_ok|]. exact (H demo_primaries_ok).
Defined.


(** After acknowledging all of p1's entries none of them is open. *)
Lemma acknowledgeAllLogs_effect_witness :
  Forall (fun b => l_patientId b = "p1" -> l_acknowledgedAt b <> None)
         (logs_of (snd (acknowledgeAllLogs demo_clock "p1" demo_world_open))).
Proof.
  exact (proj1 (proj2 (acknowledgeAllLogs_effect demo_clock "p1" demo_world_open))).
Defined.

(** Marking the demo dose taken stamps it with the clock reading. *)
Lemma markTaken_effect_witness :
  ah_doses (storage demo_world) = ([] ++ demo_dose :: [])%list
  /\ ah_doses (storage (snd (markTaken demo_rand demo_clock demo_fmt "p1" "d1"
                                      demo_world)))
     = [set_takenAt (Some (demo_clock 0)) demo_dose].
Proof.
  destruct (markTaken_effect demo_rand demo_clock demo_fmt "p1" "d1" demo_world)
    as (_ & H).
  split; [reflexivity|].
  exact (proj1 (proj2 (H [] [] demo_dose eq_refl (List.Forall_nil _) eq_refl))).
Defined.

(** Once the demo medication is removed its dose no longer fires. *)
Lemma deleteMed_silences_witness :
  fired demo_clock "p1" demo_world = [demo_dose]
  /\ fired demo_clock "p1" (snd (deleteMed true "med_1" demo_world)) = [].
Proof.
  destruct (deleteMed_silences demo_clock "med_1" demo_world)
    as (_ & _ & _ & H & _).
  split; [reflexivity|]. rewrite (H "p1"). reflexivity.
Defined.

Lemma demo_unary_inj (i j : nat) : demo_unary i = demo_unary j -> i = j.
Proof.
  revert j. induction i as [|i IH]; intros [|j]; cbn; try discriminate; auto.
  intros [= H]. f_equal. now apply IH.
Qed.

(** A twice-daily prescription at the demo store: 14 doses of history,
    60 ahead, all with distinct ids. *)
Lemma generateDoses_effect_witness :
  exists history future : list dose,
    ah_doses (storage (snd (generateDoses demo_unary demo_clock demo_calendar
                                          demo_chance demo_med "Twice daily" "p1"
                                          demo_world)))
    = (ah_doses (storage demo_world) ++ history ++ future)%list
    /\ length history = 14%nat /\ length future = 60%nat
    /\ List.NoDup (List.map d_id (history ++ future)%list).
Proof.
  pose proof (generateDoses_effect demo_unary demo_clock demo_calendar demo_chance
                demo_med "Twice daily" "p1" demo_world) as H.
  cbv zeta in H. destruct H as (h & f & Hd & _ & Hh & Hf & _ & _ & Hnd & _).
  exists h, f. split; [exact Hd|]. split; [exact Hh|]. split; [exact Hf|].
  exact (Hnd demo_unary_inj).
Defined.

(** The demo dose fired in the first scan and not in the second. *)
Lemma alerted_dose_stays_silent_witness :
  In demo_dose (fired demo_clock "p1" demo_world)
  /\ ~ In demo_dose
         (fired demo_clock "p1"
                (snd (detectMissedDoses demo_rand demo_clock demo_fmt "p1" demo_world))).
Proof.
  assert (Hin : In demo_dose (fired demo_clock "p1" demo_world)) by now left.
  split; [exact Hin|]. intros Hx.
  destruct (alerted_dose_stays_silent demo_rand demo_clock demo_fmt "p1" demo_world
              (snd (detectMissedDoses demo_rand demo_clock demo_fmt "p1" demo_world))
              demo_dose eq_refl) as (H & _).
  apply (H Hin (fun n Hn => ex_intro _ n (conj Hn eq_refl)) "p1" demo_dose
           (or_introl Hx)).
  reflexivity.
Defined.

(** The scan for p1 leaves p2's unread count alone. *)
Lemma unread_after_scan_witness :
  "p2" <> "p1"
  /\ fst (getUnreadCount "p2"
            (snd (detectMissedDoses demo_rand demo_clock demo_fmt "p1" demo_world_feed)))
     = fst (getUnreadCount "p2" demo_world_feed).
Proof.
  pose proof (unread_after_scan demo_rand demo_clock demo_fmt "p1" demo_world_feed)
    as H.
  cbv zeta in H. destruct H as (_ & _ & H).
  split; [discriminate|]. apply H. discriminate.
Defined.

(** At the demo store, whose one dose has a valid time, the engines
    fire the same doses. *)
Lemma engines_agree_on_valid_dates_witness :
  is_Some (patient_of "p1" demo_world)
  /\ fired_legacy demo_clock "p1" demo_world = fired demo_clock "p1" demo_world.
Proof.
  assert (Hp : is_Some (patient_of "p1" demo_world)) by (eexists; reflexivity).
  split; [exact Hp|].
  apply (proj1 (engines_agree_on_valid_dates demo_clock "p1" demo_world) Hp).
  intros d [<-|[]] _. discriminate.
Defined.

(** A name without markup is escaped to itself. *)
Lemma esc_safe_witness :
  (forall c, In c (list_ascii_of_string "Mary") ->
             c <> "&"%char /\ c <> "<"%char /\ c <> ">"%char)
  /\ esc "Mary" = "Mary".
Proof.
  assert (H : forall c, In c (list_ascii_of_string "Mary") ->
                        c <> "&"%char /\ c <> "<"%char /\ c <> ">"%char).
  { intros c [<-|[<-|[<-|[<-|[]]]]]; repeat split; discriminate. }
  split; [exact H|].
  exact (proj1 (proj2 (proj2 (esc_safe "Mary" ""))) H).
Defined.

(** The event loop after the demo scan: the three callbacks run and
    only stamps change. *)
Lemma event_loop_frame_witness :
  let w := snd (detectMissedDoses demo_rand demo_clock demo_fmt "p1" demo_world) in
  let w' := drain demo_rand demo_clock (Responded true 200)
                  (length (pending w) + inflight (pending w)) w in
  steps demo_rand demo_clock w w' /\ same_but_stamps w w' /\ pending w' = [].
Proof.
  intros w w'.
  destruct (event_loop_frame demo_rand demo_clock w w' (Responded true 200))
    as (H & Hs & He).
  split; [exact Hs|]. split; [exact (proj1 (H Hs))|exact He].
Defined.

(** After the demo scan and the event loop Mary carries the time of the
    scan. *)
Lemma contacts_stamped_after_scan_witness :
  let w1 := snd (detectMissedDoses demo_rand demo_clock demo_fmt "p1" demo_world) in
  let w2 := drain demo_rand demo_clock (Responded true 200) 6 w1 in
  pending demo_world = [] /\ fired demo_clock "p1" demo_world <> []
  /\ steps demo_rand demo_clock w1 w2 /\ pending w2 = []
  /\ stamped "c1" (demo_clock 0) w2.
Proof.
  intros w1 w2.
  assert (Hf : fired demo_clock "p1" demo_world <> []) by discriminate.
  assert (Hs : steps demo_rand demo_clock w1 w2) by apply drain_steps.
  assert (He : pending w2 = []) by reflexivity.
  split; [reflexivity|]. split; [exact Hf|]. split; [exact Hs|]. split; [exact He|].
  destruct (contacts_stamped_after_scan demo_rand demo_clock demo_fmt "p1"
              demo_world w2 eq_refl Hf Hs He) as (H & _).
  apply (H demo_mary). now left.
Defined.

(** What the current [addContact] accepts the earlier one accepts. *)
Lemma legacy_addContact_laxer_witness :
  ok (fst (addContact demo_rand demo_clock "p1" "Carl" "Brother" "555-0101" true
                      demo_world)) = true
  /\ fst (Legacy.addContact demo_rand "p1" "Carl" "Brother" "555-0101" demo_world)
     = true.
Proof.
  assert (Hok : ok (fst (addContact demo_rand demo_clock "p1" "Carl" "Brother"
                                    "555-0101" true demo_world)) = true)
    by reflexivity.
  split; [exact Hok|].
  pose proof (legacy_addContact_laxer demo_rand demo_clock "p1" "Carl" "Brother"
                "555-0101" true demo_world) as H.
  cbv zeta in H. exact (proj1 H Hok).
Defined.

(** A complete prescription form is accepted. *)
Lemma prescribe_effect_witness :
  ("p1" <> "" /\ trim " Aspirin " <> "" /\ trim "75mg" <> "" /\ "Once daily" <> "")
  /\ fst (prescribe demo_rand demo_clock demo_calendar demo_chance
                    "p1" " Aspirin " "75mg" "Once daily" demo_world) = true.
Proof.
  assert (H : "p1" <> "" /\ trim " Aspirin " <> "" /\ trim "75mg" <> ""
              /\ "Once daily" <> "") by (repeat split; discriminate).
  split; [exact H|].
  pose proof (prescribe_effect demo_rand demo_clock demo_calendar demo_chance
                "p1" " Aspirin " "75mg" "Once daily" demo_world) as P.
  cbv zeta in P. exact (proj2 (proj1 P) H).
Defined.


(** ** Accounts at the demo store *)

(** A new address is registered and then logs in under another
    spelling. *)
Lemma register_then_login_witness :
  let r := Auth.registerUser demo_rand "Emma" "Emma@Demo.com" "secret2" "caregiver"
                             demo_accounts in
  Auth.out_ok (fst r) = true
  /\ toLowerCase (trim " EMMA@demo.COM ") = toLowerCase (trim "Emma@Demo.com")
  /\ Auth.out_ok (fst (Auth.loginUser " EMMA@demo.COM " "secret2" (snd r))) = true.
Proof.
  intros r.
  assert (Hok : Auth.out_ok (fst r) = true) by reflexivity.
  assert (Hsp : toLowerCase (trim " EMMA@demo.COM ") = toLowerCase (trim "Emma@Demo.com"))
    by reflexivity.
  split; [exact Hok|]. split; [exact Hsp|].
  pose proof (register_then_login demo_rand "Emma" "Emma@Demo.com" "secret2" "caregiver"
                " EMMA@demo.COM " demo_accounts) as P.
  cbv zeta in P. destruct P as (_ & _ & P).
  destruct (P Hok) as (new & _ & _ & _ & _ & _ & _ & _ & Hl).
  destruct (Hl Hsp) as (u & E & _). fold r in E. now rewrite E.
Defined.

(** The registered address with a leading blank is accepted again. *)
Lemma register_normalises_witness :
  let r := Auth.registerUser demo_rand "Alex" " alex@demo.com" "secret3" "patient"
                             demo_accounts in
  normalised (Auth.users demo_accounts)
  /\ " alex@demo.com" <> trim " alex@demo.com"
  /\ Auth.out_ok (fst r) = true
  /\ ~ List.NoDup (List.map Auth.known_as (Auth.users (snd r))).
Proof.
  intros r.
  assert (Hn : normalised (Auth.users demo_accounts))
    by (intros u [<-|[]]; reflexivity).
  assert (Hpad : " alex@demo.com" <> trim " alex@demo.com")
    by (intros H; vm_compute in H; discriminate H).
  split; [exact Hn|]. split; [exact Hpad|].
  pose proof (register_normalises demo_rand "Alex" " alex@demo.com" "secret3" "patient"
                demo_accounts) as P.
  cbv zeta in P. destruct P as (_ & P). destruct (P Hn Hpad) as (Hok & Hdup).
  split; [exact Hok|]. apply (Hdup demo_account); [now left|reflexivity].
Defined.
